(** * Tilengine: sprite control (Sprite.c) and the tileset loader callback
      (LoadTileset.c)

    A shallow embedding of the two C translation units.  Mutable C state is
    threaded explicitly; an execution that would leave the defined behaviour
    of C (out-of-bounds access, null dereference, division by zero) is a
    [Crash], so that "the call returns" is a statement in its own right. *)

From Stdlib Require Import ZArith Lia Bool List String Ascii SpecFloat.
From stdpp Require Import base list.
Import ListNotations.

Local Open Scope Z_scope.

(* ===================================================================== *)
(** ** C-level semantics shared by both files *)
(* ===================================================================== *)

Module C.

(** Ways in which an execution leaves defined behaviour. *)
Inductive fault : Type :=
| OutOfBounds      (* array element outside its object *)
| NullPointer      (* dereference of NULL *)
| DivisionByZero   (* integer division, divisor 0 *)
| DivisionOverflow (* INT_MIN / -1 *)
| UseAfterFree.    (* object used or released after its release *)

Inductive outcome (A : Type) : Type :=
| Done (a : A)
| Crash (f : fault).
Arguments Done {A} a.
Arguments Crash {A} f.

Definition bind {A B} (m : outcome A) (k : A -> outcome B) : outcome B :=
  match m with
  | Done a => k a
  | Crash f => Crash f
  end.

(** A pointer that is dereferenced: NULL is [None]. *)
Definition deref {A} (p : option A) : outcome A :=
  match p with
  | Some a => Done a
  | None => Crash NullPointer
  end.

(** A pointer used as a truth value. *)
Definition non_null {A} (p : option A) : bool :=
  match p with
  | Some _ => true
  | None => false
  end.

(** [a[i]] read and written, with [i] a C [int]. *)
Definition load {A} (a : list A) (i : Z) : outcome A :=
  if (i <? 0) || (Z.of_nat (length a) <=? i) then Crash OutOfBounds
  else match a !! Z.to_nat i with
       | Some v => Done v
       | None => Crash OutOfBounds
       end.

Definition store {A} (a : list A) (i : Z) (v : A) : outcome (list A) :=
  if (i <? 0) || (Z.of_nat (length a) <=? i) then Crash OutOfBounds
  else Done (<[Z.to_nat i := v]> a).

(** *** [int]: 32 bits, two's complement, wrap-around written out *)

Definition INT_MIN : Z := - 2 ^ 31.
Definition INT_MAX : Z := 2 ^ 31 - 1.

Definition wrap (z : Z) : Z := (z + 2 ^ 31) mod 2 ^ 32 - 2 ^ 31.

Definition is_int (z : Z) : Prop := INT_MIN <= z <= INT_MAX.

Definition add (a b : Z) : Z := wrap (a + b).
Definition sub (a b : Z) : Z := wrap (a - b).
Definition mul (a b : Z) : Z := wrap (a * b).
Definition neg (a : Z) : Z := wrap (- a).
Definition shl (a n : Z) : Z := wrap (Z.shiftl a n).
Definition shr (a n : Z) : Z := Z.shiftr a n.

(** [a / b] truncates toward zero. *)
Definition div (a b : Z) : outcome Z :=
  if b =? 0 then Crash DivisionByZero
  else if (a =? INT_MIN) && (b =? -1) then Crash DivisionOverflow
  else Done (Z.quot a b).

(** *** [float]: IEEE 754 binary32, round to nearest even *)

Definition float : Type := spec_float.

Definition prec : Z := 24.
Definition emax : Z := 128.

Definition float_of_int (z : Z) : float := binary_normalize prec emax z 0 false.
Definition fmul : float -> float -> float := SFmul prec emax.
Definition fadd : float -> float -> float := SFadd prec emax.
Definition fsub : float -> float -> float := SFsub prec emax.
Definition fltb : float -> float -> bool := SFltb.

(** [(int) f]: the fraction is discarded; a value that does not fit
    (and NaN) gives INT_MIN, the "integer indefinite" of cvttss2si. *)
Definition int_of_float (f : float) : Z :=
  match f with
  | S754_zero _ => 0
  | S754_finite s m e =>
      let mag := match e with
                 | Zneg p => Z.shiftr (Zpos m) (Zpos p)
                 | _ => Z.shiftl (Zpos m) e
                 end in
      let v := if s then - mag else mag in
      if (INT_MIN <=? v) && (v <=? INT_MAX) then v else INT_MIN
  | _ => INT_MIN
  end.

Definition f_one : float := float_of_int 1.
Definition f_zero : float := float_of_int 0.

(** Arithmetic is unfolded on request only. *)
#[global] Arguments wrap : simpl never.
#[global] Arguments add : simpl never.
#[global] Arguments sub : simpl never.
#[global] Arguments mul : simpl never.
#[global] Arguments neg : simpl never.
#[global] Arguments shl : simpl never.
#[global] Arguments shr : simpl never.
#[global] Arguments div : simpl never.
#[global] Arguments float_of_int : simpl never.
#[global] Arguments int_of_float : simpl never.
#[global] Arguments fmul : simpl never.
#[global] Arguments fadd : simpl never.
#[global] Arguments fsub : simpl never.
#[global] Arguments fltb : simpl never.

(** *** [strcasecmp]: zero exactly when the strings agree up to ASCII case *)

Definition tolower (c : ascii) : Z :=
  let n := Z.of_N (N_of_ascii c) in
  if (65 <=? n) && (n <=? 90) then n + 32 else n.

Fixpoint strcasecmp (a b : string) : Z :=
  match a, b with
  | EmptyString, EmptyString => 0
  | EmptyString, String d _ => 0 - tolower d
  | String c _, EmptyString => tolower c
  | String c a', String d b' =>
      if tolower c =? tolower d then strcasecmp a' b'
      else tolower c - tolower d
  end.

End C.

Notation "'LET' x <- m 'IN' k" := (C.bind m (fun x => k))
  (at level 10, x name, m at level 200, k at level 200,
   format "'[v' 'LET'  x  <-  m  'IN' '/' k ']'").

(* ===================================================================== *)
(** ** Sprite.c *)
(* ===================================================================== *)

Module Sprite.
Import C.

(** *** Objects the sprite code borrows *)

(** Modelled from the spec: the tag in the header of every object the
    engine hands out (the object unit is not part of the sources).
    Sprite.c names OT_SPRITESET and OT_PALETTE; OT_NONE stands for a header
    that is no live object. *)
Inductive ObjectType : Type := OT_NONE | OT_PALETTE | OT_SPRITESET | OT_BITMAP.

Definition ObjectType_eqb (a b : ObjectType) : bool :=
  match a, b with
  | OT_NONE, OT_NONE | OT_PALETTE, OT_PALETTE
  | OT_SPRITESET, OT_SPRITESET | OT_BITMAP, OT_BITMAP => true
  | _, _ => false
  end.

(** Modelled from the spec: the codes of the "shared process-wide error
    slot" (the public header is not part of the sources). *)
Inductive TLN_Error : Type :=
| TLN_ERR_OK
| TLN_ERR_OUT_OF_MEMORY
| TLN_ERR_IDX_SPRITE
| TLN_ERR_NULL_POINTER
| TLN_ERR_REF (t : ObjectType).

(** Modelled from the spec: a bitmap, "owning handle with
    width/height/pitch accessors" over its pixel storage. *)
Record TLN_Bitmap : Type := {
  bm_type : ObjectType;
  bm_width : Z;
  bm_height : Z;
  bm_pitch : Z;
  bm_data : list Z                      (* uint8_t pixels *)
}.

(** Modelled from the spec: a palette, an "opaque color table". *)
Record TLN_Palette : Type := {
  pal_type : ObjectType;
  pal_data : list Z
}.

(** Modelled from the spec: a frame descriptor "(offset, width, height)"
    of a spriteset, with the field names Sprite.c reads:
    [spriteset->data[entry]]. *)
Record SpriteEntry : Type := { w : Z; h : Z; offset : Z }.

(** Modelled from the spec: a spriteset "owns a bitmap and a table of
    frame descriptors", and has a palette of its own or none. *)
Record TLN_Spriteset : Type := {
  ss_type : ObjectType;
  ss_bitmap : option TLN_Bitmap;
  ss_palette : option TLN_Palette;
  ss_data : list SpriteEntry
}.

(** Modelled from the spec: a rectangle by its two corners, and the three
    modes, as Sprite.c names them (their header is not part of the
    sources). *)
Record rect_t : Type := { x1 : Z; y1 : Z; x2 : Z; y2 : Z }.

Inductive draw_t : Type := MODE_NORMAL | MODE_SCALING | MODE_TRANSFORM.

Definition draw_t_eqb (a b : draw_t) : bool :=
  match a, b with
  | MODE_NORMAL, MODE_NORMAL | MODE_SCALING, MODE_SCALING
  | MODE_TRANSFORM, MODE_TRANSFORM => true
  | _, _ => false
  end.

(** A [uint8_t*] into pixel storage: the buffer it points into and the
    element it points at. *)
Record pixel_ptr : Type := { base : list Z; at_ : Z }.

(** The sprite's owned bitmap handle.  Releasing the bitmap leaves the
    handle in place: it then dangles. *)
Inductive bitmap_ptr : Type :=
| NullBitmap
| LiveBitmap (b : TLN_Bitmap)
| FreedBitmap.

(** *** What Sprite.c takes from headers and units outside the sources *)

Class Platform : Type := {
  (* fixed point *)
  FIXED_BITS : Z;
  (* Math2D *)
  math2d_t : Type;
  Matrix3 : Type;
  m_of_int : Z -> math2d_t;             (* (math2d_t) i *)
  m_to_int : math2d_t -> Z;             (* (int) v *)
  m_add : math2d_t -> math2d_t -> math2d_t;
  m_sub : math2d_t -> math2d_t -> math2d_t;
  m_ltb : math2d_t -> math2d_t -> bool;
  m_roundf : math2d_t -> math2d_t;      (* (math2d_t) roundf (v) *)
  m_fmod360 : float -> math2d_t;        (* (math2d_t) fmod (angle, 360.0f) *)
  float2fix : math2d_t -> Z;
  Matrix3SetIdentity : Matrix3;
  Matrix3SetTranslation : math2d_t -> math2d_t -> Matrix3;
  Matrix3SetRotation : math2d_t -> Matrix3;
  Matrix3Multiply : Matrix3 -> Matrix3 -> Matrix3;
  Point2DMultiply : math2d_t * math2d_t -> Matrix3 -> math2d_t * math2d_t;
  (* Bitmap: what TLN_CreateBitmap returns *)
  TLN_CreateBitmap : Z -> Z -> Z -> option TLN_Bitmap;
  (* dispatch tables *)
  ScanDrawPtr : Type;
  ScanBlitPtr : Type;
  BlendTable : Type;
  GetSpriteDraw : draw_t -> ScanDrawPtr;
  GetBlitter : Z -> bool -> bool -> bool -> ScanBlitPtr;
  SelectBlendTable : Z -> option BlendTable
}.

Section WithPlatform.
Context {P : Platform}.

Definition Point2D : Type := (math2d_t * math2d_t)%type.

(** Modelled from the spec: the fixed-point macros ("integer
    representation of fractional values via a binary-point shift");
    the header that defines them is not part of the sources. *)
Definition int2fix (i : Z) : Z := shl i FIXED_BITS.

(** Modelled from the spec: the way back, an arithmetic shift to the
    right. *)
Definition fix2int (f : Z) : Z := shr f FIXED_BITS.

(** Modelled from the spec: the sprite record of section 3, with the
    fields Sprite.c reads and writes under their names there (Sprite.h is
    not part of the sources).  [info] holds the frame descriptor it points
    at. *)
Record Sprite : Type := {
  spriteset : option TLN_Spriteset;
  palette : option TLN_Palette;
  info : option SpriteEntry;
  pixels : option pixel_ptr;
  pitch : Z;
  num : Z;
  index : Z;
  x : Z;
  y : Z;
  dx : Z;
  dy : Z;
  sx : float;
  sy : float;
  srcrect : rect_t;
  dstrect : rect_t;
  mode : draw_t;
  blend : option BlendTable;
  flags : Z;
  draw : option ScanDrawPtr;
  blitter : option ScanBlitPtr;
  ok : bool;
  do_collision : bool;
  collision : bool;
  rotation_bitmap : bitmap_ptr
}.

(** Modelled from the spec: what Sprite.c reaches through [engine]
    (Engine.h is not part of the sources): the capacity, the sprite array,
    the framebuffer size, and the last-error slot. *)
Record Framebuffer : Type := { width : Z; height : Z }.

Record Engine : Type := {
  numsprites : Z;
  sprites : list Sprite;
  framebuffer : Framebuffer;
  error : TLN_Error
}.

(** Field assignments, [sprite->f = v]. *)
Definition set_spriteset v (s : Sprite) : Sprite :=
  let '(Build_Sprite _ b c d e f g i j k l m n o p q r t u a1 a2 a3 a4 a5) := s in
  Build_Sprite v b c d e f g i j k l m n o p q r t u a1 a2 a3 a4 a5.
Definition set_palette v (s : Sprite) : Sprite :=
  let '(Build_Sprite a _ c d e f g i j k l m n o p q r t u a1 a2 a3 a4 a5) := s in
  Build_Sprite a v c d e f g i j k l m n o p q r t u a1 a2 a3 a4 a5.
Definition set_info v (s : Sprite) : Sprite :=
  let '(Build_Sprite a b _ d e f g i j k l m n o p q r t u a1 a2 a3 a4 a5) := s in
  Build_Sprite a b v d e f g i j k l m n o p q r t u a1 a2 a3 a4 a5.
Definition set_pixels v (s : Sprite) : Sprite :=
  let '(Build_Sprite a b c _ e f g i j k l m n o p q r t u a1 a2 a3 a4 a5) := s in
  Build_Sprite a b c v e f g i j k l m n o p q r t u a1 a2 a3 a4 a5.
Definition set_pitch v (s : Sprite) : Sprite :=
  let '(Build_Sprite a b c d _ f g i j k l m n o p q r t u a1 a2 a3 a4 a5) := s in
  Build_Sprite a b c d v f g i j k l m n o p q r t u a1 a2 a3 a4 a5.
Definition set_num v (s : Sprite) : Sprite :=
  let '(Build_Sprite a b c d e _ g i j k l m n o p q r t u a1 a2 a3 a4 a5) := s in
  Build_Sprite a b c d e v g i j k l m n o p q r t u a1 a2 a3 a4 a5.
Definition set_index v (s : Sprite) : Sprite :=
  let '(Build_Sprite a b c d e f _ i j k l m n o p q r t u a1 a2 a3 a4 a5) := s in
  Build_Sprite a b c d e f v i j k l m n o p q r t u a1 a2 a3 a4 a5.
Definition set_x v (s : Sprite) : Sprite :=
  let '(Build_Sprite a b c d e f g _ j k l m n o p q r t u a1 a2 a3 a4 a5) := s in
  Build_Sprite a b c d e f g v j k l m n o p q r t u a1 a2 a3 a4 a5.
Definition set_y v (s : Sprite) : Sprite :=
  let '(Build_Sprite a b c d e f g i _ k l m n o p q r t u a1 a2 a3 a4 a5) := s in
  Build_Sprite a b c d e f g i v k l m n o p q r t u a1 a2 a3 a4 a5.
Definition set_dx v (s : Sprite) : Sprite :=
  let '(Build_Sprite a b c d e f g i j _ l m n o p q r t u a1 a2 a3 a4 a5) := s in
  Build_Sprite a b c d e f g i j v l m n o p q r t u a1 a2 a3 a4 a5.
Definition set_dy v (s : Sprite) : Sprite :=
  let '(Build_Sprite a b c d e f g i j k _ m n o p q r t u a1 a2 a3 a4 a5) := s in
  Build_Sprite a b c d e f g i j k v m n o p q r t u a1 a2 a3 a4 a5.
Definition set_sx v (s : Sprite) : Sprite :=
  let '(Build_Sprite a b c d e f g i j k l _ n o p q r t u a1 a2 a3 a4 a5) := s in
  Build_Sprite a b c d e f g i j k l v n o p q r t u a1 a2 a3 a4 a5.
Definition set_sy v (s : Sprite) : Sprite :=
  let '(Build_Sprite a b c d e f g i j k l m _ o p q r t u a1 a2 a3 a4 a5) := s in
  Build_Sprite a b c d e f g i j k l m v o p q r t u a1 a2 a3 a4 a5.
Definition set_srcrect v (s : Sprite) : Sprite :=
  let '(Build_Sprite a b c d e f g i j k l m n _ p q r t u a1 a2 a3 a4 a5) := s in
  Build_Sprite a b c d e f g i j k l m n v p q r t u a1 a2 a3 a4 a5.
Definition set_dstrect v (s : Sprite) : Sprite :=
  let '(Build_Sprite a b c d e f g i j k l m n o _ q r t u a1 a2 a3 a4 a5) := s in
  Build_Sprite a b c d e f g i j k l m n o v q r t u a1 a2 a3 a4 a5.
Definition set_mode v (s : Sprite) : Sprite :=
  let '(Build_Sprite a b c d e f g i j k l m n o p _ r t u a1 a2 a3 a4 a5) := s in
  Build_Sprite a b c d e f g i j k l m n o p v r t u a1 a2 a3 a4 a5.
Definition set_blend v (s : Sprite) : Sprite :=
  let '(Build_Sprite a b c d e f g i j k l m n o p q _ t u a1 a2 a3 a4 a5) := s in
  Build_Sprite a b c d e f g i j k l m n o p q v t u a1 a2 a3 a4 a5.
Definition set_flags v (s : Sprite) : Sprite :=
  let '(Build_Sprite a b c d e f g i j k l m n o p q r _ u a1 a2 a3 a4 a5) := s in
  Build_Sprite a b c d e f g i j k l m n o p q r v u a1 a2 a3 a4 a5.
Definition set_draw v (s : Sprite) : Sprite :=
  let '(Build_Sprite a b c d e f g i j k l m n o p q r t _ a1 a2 a3 a4 a5) := s in
  Build_Sprite a b c d e f g i j k l m n o p q r t v a1 a2 a3 a4 a5.
Definition set_blitter v (s : Sprite) : Sprite :=
  let '(Build_Sprite a b c d e f g i j k l m n o p q r t u _ a2 a3 a4 a5) := s in
  Build_Sprite a b c d e f g i j k l m n o p q r t u v a2 a3 a4 a5.
Definition set_ok v (s : Sprite) : Sprite :=
  let '(Build_Sprite a b c d e f g i j k l m n o p q r t u a1 _ a3 a4 a5) := s in
  Build_Sprite a b c d e f g i j k l m n o p q r t u a1 v a3 a4 a5.
Definition set_do_collision v (s : Sprite) : Sprite :=
  let '(Build_Sprite a b c d e f g i j k l m n o p q r t u a1 a2 _ a4 a5) := s in
  Build_Sprite a b c d e f g i j k l m n o p q r t u a1 a2 v a4 a5.
Definition set_rotation_bitmap v (s : Sprite) : Sprite :=
  let '(Build_Sprite a b c d e f g i j k l m n o p q r t u a1 a2 a3 a4 _) := s in
  Build_Sprite a b c d e f g i j k l m n o p q r t u a1 a2 a3 a4 v.

Definition set_sprites v (e : Engine) : Engine :=
  {| numsprites := numsprites e; sprites := v;
     framebuffer := framebuffer e; error := error e |}.

Definition TLN_SetLastError (e : Engine) (err : TLN_Error) : Engine :=
  {| numsprites := numsprites e; sprites := sprites e;
     framebuffer := framebuffer e; error := err |}.

(** [engine->sprites[nsprite]] read, and written back. *)
Definition get_sprite (e : Engine) (nsprite : Z) : outcome Sprite :=
  load (sprites e) nsprite.

Definition put_sprite (e : Engine) (nsprite : Z) (s : Sprite)
  : outcome Engine :=
  LET l <- store (sprites e) nsprite s IN
  Done (set_sprites l e).

Definition set_x1 v (r : rect_t) : rect_t :=
  {| x1 := v; y1 := y1 r; x2 := x2 r; y2 := y2 r |}.
Definition set_y1 v (r : rect_t) : rect_t :=
  {| x1 := x1 r; y1 := v; x2 := x2 r; y2 := y2 r |}.
Definition set_x2 v (r : rect_t) : rect_t :=
  {| x1 := x1 r; y1 := y1 r; x2 := v; y2 := y2 r |}.
Definition set_y2 v (r : rect_t) : rect_t :=
  {| x1 := x1 r; y1 := y1 r; x2 := x2 r; y2 := v |}.

(** Modelled from the spec: CheckBaseObject (the object unit is not part
    of the sources).  An operation "requires spriteset to be a valid,
    previously-created object": a null reference or a header of another
    type is refused and the error "resource-reference-invalid" is
    recorded.  The argument is the header tag found behind the
    reference, [None] for NULL. *)
Definition CheckBaseObject (e : Engine) (tag : option ObjectType)
    (type : ObjectType) : Engine * bool :=
  match tag with
  | None => (TLN_SetLastError e TLN_ERR_NULL_POINTER, false)
  | Some t =>
      if ObjectType_eqb t type then (e, true)
      else (TLN_SetLastError e (TLN_ERR_REF type), false)
  end.

(** *** static void SelectBlitter (Sprite* sprite) *)
Definition SelectBlitter (sprite : Sprite) : Sprite :=
  let scaling := draw_t_eqb (mode sprite) MODE_SCALING in
  let blend_ := non_null (blend sprite) in
  set_blitter (Some (GetBlitter 32 true scaling blend_)) sprite.

(** *** static void UpdateSprite (Sprite* sprite)

    The framebuffer is [engine->framebuffer].  The leading
    [if (sprite->sx > 1.0) w = 0;] assigns a local that is overwritten
    or unused on every path and is left out. *)
Definition UpdateSprite (fb : Framebuffer) (sprite : Sprite)
  : outcome Sprite :=
  if negb (ok sprite) then Done sprite
  else
    LET info_ <- deref (info sprite) IN
    (* rectangulo origen (sprite) *)
    let src := {| x1 := 0; y1 := 0; x2 := w info_; y2 := h info_ |} in
    match mode sprite with
    | MODE_NORMAL =>
        let w_ := w info_ in
        let h_ := h info_ in
        (* rectangulo destino (pantalla) *)
        let dst := {| x1 := x sprite; y1 := y sprite;
                      x2 := add (x sprite) w_; y2 := add (y sprite) h_ |} in
        (* clipping vertical *)
        let '(src, dst) :=
          if y1 dst <? 0
          then (set_y1 (sub (y1 src) (y1 dst)) src, set_y1 0 dst)
          else (src, dst) in
        let '(src, dst) :=
          if height fb <? y2 dst
          then (set_y2 (sub (y2 src) (sub (y2 dst) (height fb))) src,
                set_y2 (height fb) dst)
          else (src, dst) in
        (* clipping horizontal *)
        let '(src, dst) :=
          if x1 dst <? 0
          then (set_x1 (sub (x1 src) (x1 dst)) src, set_x1 0 dst)
          else (src, dst) in
        let '(src, dst) :=
          if width fb <? x2 dst
          then (set_x2 (sub (x2 src) (sub (x2 dst) (width fb))) src,
                set_x2 (width fb) dst)
          else (src, dst) in
        Done (set_dstrect dst (set_srcrect src sprite))
    | MODE_SCALING =>
        let w_ := int_of_float (fmul (float_of_int (w info_)) (sx sprite)) in
        let h_ := int_of_float (fmul (float_of_int (h info_)) (sy sprite)) in
        (* rectangulo destino (pantalla) *)
        let dx1 := add (x sprite) (shr (sub (w info_) w_) 1) in
        let dy1 := add (y sprite) (shr (sub (h info_) h_) 1) in
        let dst := {| x1 := dx1; y1 := dy1;
                      x2 := add dx1 w_; y2 := add dy1 h_ |} in
        (* coordenadas origen son fix *)
        let src := {| x1 := int2fix (x1 src); y1 := int2fix (y1 src);
                      x2 := int2fix (x2 src); y2 := int2fix (y2 src) |} in
        let srcw := sub (x2 src) (x1 src) in
        let srch := sub (y2 src) (y1 src) in
        let dstw := sub (x2 dst) (x1 dst) in
        let dsth := sub (y2 dst) (y1 dst) in
        LET dx_ <- div srcw dstw IN
        LET dy_ <- div srch dsth IN
        (* clipping vertical *)
        let '(src, dst) :=
          if y1 dst <? 0
          then (set_y1 (sub (y1 src) (mul (y1 dst) dy_)) src, set_y1 0 dst)
          else (src, dst) in
        let '(src, dst) :=
          if height fb <? y2 dst
          then (set_y2 (sub (y2 src) (mul (sub (y2 dst) (height fb)) dy_)) src,
                set_y2 (height fb) dst)
          else (src, dst) in
        (* clipping horizontal *)
        let '(src, dst) :=
          if x1 dst <? 0
          then (set_x1 (sub (x1 src) (mul (x1 dst) dx_)) src, set_x1 0 dst)
          else (src, dst) in
        let '(src, dst) :=
          if width fb <? x2 dst
          then (set_x2 (sub (x2 src) (mul (sub (x2 dst) (width fb)) dx_)) src,
                set_x2 (width fb) dst)
          else (src, dst) in
        Done (set_dy dy_ (set_dx dx_ (set_dstrect dst (set_srcrect src sprite))))
    | MODE_TRANSFORM => Done (set_srcrect src sprite)
    end.

(** *** bool TLN_SetSpriteFlags (int nsprite, TLN_TileFlags flags) *)
Definition TLN_SetSpriteFlags (e : Engine) (nsprite flags_ : Z)
  : outcome (Engine * bool) :=
  if numsprites e <=? nsprite
  then Done (TLN_SetLastError e TLN_ERR_IDX_SPRITE, false)
  else
    LET sprite <- get_sprite e nsprite IN
    LET e <- put_sprite e nsprite (set_flags flags_ sprite) IN
    Done (TLN_SetLastError e TLN_ERR_OK, true).

(** *** bool TLN_SetSpritePosition (int nsprite, int x, int y) *)
Definition TLN_SetSpritePosition (e : Engine) (nsprite x_ y_ : Z)
  : outcome (Engine * bool) :=
  if numsprites e <=? nsprite
  then Done (TLN_SetLastError e TLN_ERR_IDX_SPRITE, false)
  else
    LET sprite <- get_sprite e nsprite IN
    let sprite := set_x x_ sprite in
    let sprite := set_y y_ sprite in
    LET sprite <- UpdateSprite (framebuffer e) sprite IN
    LET e <- put_sprite e nsprite sprite IN
    Done (TLN_SetLastError e TLN_ERR_OK, true).

(** *** bool TLN_SetSpritePicture (int nsprite, int entry) *)
Definition TLN_SetSpritePicture (e : Engine) (nsprite entry : Z)
  : outcome (Engine * bool) :=
  if numsprites e <=? nsprite
  then Done (TLN_SetLastError e TLN_ERR_IDX_SPRITE, false)
  else
    LET sprite <- get_sprite e nsprite IN
    let '(e, valid) :=
      CheckBaseObject e (ss_type <$> spriteset sprite) OT_SPRITESET in
    if negb valid then Done (e, false)
    else
      LET ss <- deref (spriteset sprite) IN
      let sprite := set_index entry sprite in
      LET info_ <- load (ss_data ss) entry IN
      let sprite := set_info (Some info_) sprite in
      LET bitmap <- deref (ss_bitmap ss) IN
      let sprite :=
        set_pixels (Some {| base := bm_data bitmap; at_ := offset info_ |})
                   sprite in
      LET sprite <- UpdateSprite (framebuffer e) sprite IN
      LET e <- put_sprite e nsprite sprite IN
      Done (TLN_SetLastError e TLN_ERR_OK, true).

(** *** bool TLN_SetSpriteSet (int nsprite, TLN_Spriteset spriteset) *)
Definition TLN_SetSpriteSet (e : Engine) (nsprite : Z)
    (spriteset_ : option TLN_Spriteset) : outcome (Engine * bool) :=
  if numsprites e <=? nsprite
  then Done (TLN_SetLastError e TLN_ERR_IDX_SPRITE, false)
  else
    let '(e, valid) :=
      CheckBaseObject e (ss_type <$> spriteset_) OT_SPRITESET in
    if negb valid then Done (e, false)
    else
      LET sprite <- get_sprite e nsprite IN
      let sprite := set_spriteset spriteset_ sprite in
      LET ss <- deref spriteset_ IN
      LET bitmap <- deref (ss_bitmap ss) IN
      let sprite := set_pitch (bm_pitch bitmap) sprite in
      let sprite :=
        match ss_palette ss with
        | Some pal => set_palette (Some pal) sprite
        | None => sprite
        end in
      let sprite :=
        set_ok (non_null (spriteset sprite) && non_null (palette sprite))
               sprite in
      let sprite := set_num nsprite sprite in
      LET e <- put_sprite e nsprite sprite IN
      TLN_SetSpritePicture e nsprite 0.

(** *** bool TLN_ConfigSprite (int nsprite, TLN_Spriteset spriteset,
        TLN_TileFlags flags) *)
Definition TLN_ConfigSprite (e : Engine) (nsprite : Z)
    (spriteset_ : option TLN_Spriteset) (flags_ : Z)
  : outcome (Engine * bool) :=
  LET r <- TLN_SetSpriteSet e nsprite spriteset_ IN
  if snd r then TLN_SetSpriteFlags (fst r) nsprite flags_
  else Done (fst r, false).

(** *** bool TLN_SetSpritePalette (int nsprite, TLN_Palette palette) *)
Definition TLN_SetSpritePalette (e : Engine) (nsprite : Z)
    (palette_ : option TLN_Palette) : outcome (Engine * bool) :=
  if numsprites e <=? nsprite
  then Done (TLN_SetLastError e TLN_ERR_IDX_SPRITE, false)
  else
    let '(e, valid) :=
      CheckBaseObject e (pal_type <$> palette_) OT_PALETTE in
    if negb valid then Done (e, false)
    else
      LET sprite <- get_sprite e nsprite IN
      let sprite := set_palette palette_ sprite in
      let sprite :=
        set_ok (non_null (spriteset sprite) && non_null (palette sprite))
               sprite in
      LET e <- put_sprite e nsprite sprite IN
      Done (TLN_SetLastError e TLN_ERR_OK, true).

(** *** TLN_Palette TLN_GetSpritePalette (int nsprite) *)
Definition TLN_GetSpritePalette (e : Engine) (nsprite : Z)
  : outcome (Engine * option TLN_Palette) :=
  if numsprites e <=? nsprite
  then Done (TLN_SetLastError e TLN_ERR_IDX_SPRITE, None)
  else
    LET sprite <- get_sprite e nsprite IN
    Done (TLN_SetLastError e TLN_ERR_OK, palette sprite).

(** *** bool TLN_SetSpriteBlendMode (int nsprite, TLN_Blend mode,
        uint8_t factor) *)
Definition TLN_SetSpriteBlendMode (e : Engine) (nsprite mode_ factor : Z)
  : outcome (Engine * bool) :=
  if numsprites e <=? nsprite
  then Done (TLN_SetLastError e TLN_ERR_IDX_SPRITE, false)
  else
    LET sprite <- get_sprite e nsprite IN
    let sprite := set_blend (SelectBlendTable mode_) sprite in
    let sprite := SelectBlitter sprite in
    LET e <- put_sprite e nsprite sprite IN
    Done (TLN_SetLastError e TLN_ERR_OK, true).

(** *** bool TLN_SetSpriteScaling (int nsprite, float sx, float sy) *)
Definition TLN_SetSpriteScaling (e : Engine) (nsprite : Z) (sx_ sy_ : float)
  : outcome (Engine * bool) :=
  if numsprites e <=? nsprite
  then Done (TLN_SetLastError e TLN_ERR_IDX_SPRITE, false)
  else
    LET sprite <- get_sprite e nsprite IN
    let sprite := set_sx sx_ sprite in
    let sprite := set_sy sy_ sprite in
    let sprite := set_mode MODE_SCALING sprite in
    let sprite := set_draw (Some (GetSpriteDraw (mode sprite))) sprite in
    LET sprite <- UpdateSprite (framebuffer e) sprite IN
    let sprite := SelectBlitter sprite in
    LET e <- put_sprite e nsprite sprite IN
    Done (e, true).

(** *** bool TLN_ResetSpriteScaling (int nsprite) *)
Definition TLN_ResetSpriteScaling (e : Engine) (nsprite : Z)
  : outcome (Engine * bool) :=
  if numsprites e <=? nsprite
  then Done (TLN_SetLastError e TLN_ERR_IDX_SPRITE, false)
  else
    LET sprite <- get_sprite e nsprite IN
    let sprite := set_sy f_one sprite in
    let sprite := set_sx (sy sprite) sprite in
    let sprite := set_mode MODE_NORMAL sprite in
    let sprite := set_draw (Some (GetSpriteDraw (mode sprite))) sprite in
    LET sprite <- UpdateSprite (framebuffer e) sprite IN
    let sprite := SelectBlitter sprite in
    LET e <- put_sprite e nsprite sprite IN
    Done (TLN_SetLastError e TLN_ERR_OK, true).

(** *** Rotation *)

Record Vector2D : Type := { v_x : Z; v_y : Z; v_dx : Z; v_dy : Z }.

(** static void Vector2DSet (Vector2D* vector, Point2D* src,
    Point2D* dst, int len) *)
Definition Vector2DSet (src dst : Point2D) (len : Z) : outcome Vector2D :=
  let dstw := m_to_int (m_sub (fst dst) (fst src)) in
  let dsth := m_to_int (m_sub (snd dst) (snd src)) in
  LET vdx <- div (int2fix dstw) len IN
  LET vdy <- div (int2fix dsth) len IN
  Done {| v_x := float2fix (fst src); v_y := float2fix (snd src);
          v_dx := vdx; v_dy := vdy |}.

Definition Vector2DAdvance (v : Vector2D) : Vector2D :=
  {| v_x := add (v_x v) (v_dx v); v_y := add (v_y v) (v_dy v);
     v_dx := v_dx v; v_dy := v_dy v |}.

(** Modelled from the spec: the bitmap collaborator has an "explicit
    create/destroy lifecycle" (its unit is not part of the sources), and
    the last-error slot is "set by every fallible operation".  Destroying a
    live bitmap releases it and records success; a null reference is
    refused as CheckBaseObject refuses it; a handle that already dangles
    is a use after release. *)
Definition TLN_DeleteBitmap (e : Engine) (p : bitmap_ptr)
  : outcome (Engine * bitmap_ptr) :=
  match p with
  | NullBitmap => Done (TLN_SetLastError e TLN_ERR_NULL_POINTER, NullBitmap)
  | LiveBitmap _ => Done (TLN_SetLastError e TLN_ERR_OK, FreedBitmap)
  | FreedBitmap => Crash UseAfterFree
  end.

(** Modelled from the spec: what TLN_CreateBitmap leaves in the last-error
    slot, success with the bitmap and "out-of-memory" with NULL. *)
Definition TLN_CreateBitmap_error (created : option TLN_Bitmap) : TLN_Error :=
  if non_null created then TLN_ERR_OK else TLN_ERR_OUT_OF_MEMORY.

(** Modelled from the spec: get_bitmap_ptr, the bitmap's "raw-pointer
    accessor into pixel storage" (its header is not part of the
    sources): the pixel at column [px] of row [py]. *)
Definition get_bitmap_ptr (bitmap : TLN_Bitmap) (px py : Z) : pixel_ptr :=
  {| base := bm_data bitmap; at_ := add (mul py (bm_pitch bitmap)) px |}.

Definition with_data (bitmap : TLN_Bitmap) (data : list Z) : TLN_Bitmap :=
  {| bm_type := bm_type bitmap; bm_width := bm_width bitmap;
     bm_height := bm_height bitmap; bm_pitch := bm_pitch bitmap;
     bm_data := data |}.

(** The bounding rectangle grown by one corner. *)
Definition grow_rect (rect : rect_t) (point : Point2D) : rect_t :=
  let rect := if m_ltb (fst point) (m_of_int (x1 rect))
              then set_x1 (m_to_int (fst point)) rect else rect in
  let rect := if m_ltb (m_of_int (x2 rect)) (fst point)
              then set_x2 (m_to_int (fst point)) rect else rect in
  let rect := if m_ltb (snd point) (m_of_int (y1 rect))
              then set_y1 (m_to_int (snd point)) rect else rect in
  let rect := if m_ltb (m_of_int (y2 rect)) (snd point)
              then set_y2 (m_to_int (snd point)) rect else rect in
  rect.

(** The inner loop [for (x = 0; x < spr_w; x++)], [n] iterations left. *)
Fixpoint scan_row (n : nat) (rotated : option TLN_Bitmap)
    (srcptr : option pixel_ptr) (xvect : Vector2D)
  : outcome (option TLN_Bitmap) :=
  match n with
  | O => Done rotated
  | S n' =>
      let tmpx := fix2int (v_x xvect) in
      let tmpy := fix2int (v_y xvect) in
      LET bitmap <- deref rotated IN
      let dstptr := get_bitmap_ptr bitmap tmpx tmpy in
      LET src <- deref srcptr IN
      LET pixel <- load (base src) (at_ src) IN
      LET data <- store (base dstptr) (at_ dstptr) pixel IN
      scan_row n' (Some (with_data bitmap data))
               (Some {| base := base src; at_ := add (at_ src) 1 |})
               (Vector2DAdvance xvect)
  end.

(** The outer loop [for (y = 0; y < spr_h; y++)], at row [row] with [n]
    iterations left. *)
Fixpoint scan_rows (n : nat) (row : Z) (spr_w : Z) (sprite : Sprite)
    (rotated : option TLN_Bitmap) (xvect yvect : Vector2D)
  : outcome (option TLN_Bitmap) :=
  match n with
  | O => Done rotated
  | S n' =>
      let xvect := {| v_x := v_x yvect; v_y := v_y yvect;
                      v_dx := v_dx xvect; v_dy := v_dy xvect |} in
      let srcptr :=
        match pixels sprite with
        | Some p => Some {| base := base p;
                            at_ := add (at_ p) (mul row (pitch sprite)) |}
        | None => None
        end in
      LET rotated <- scan_row (Z.to_nat spr_w) rotated srcptr xvect IN
      scan_rows n' (add row 1) spr_w sprite rotated xvect
                (Vector2DAdvance yvect)
  end.

(** One corner through the loop body of "multiplica los puntos por la
    matriz": transformed, then each coordinate rounded. *)
Definition transform_corner (matrix : Matrix3) (c : Point2D) : Point2D :=
  let p := Point2DMultiply c matrix in
  (m_roundf (fst p), m_roundf (snd p)).

(** "calcula matriz para rotar desde el centro" *)
Definition rotation_matrix (sprite : Sprite) (spr_w spr_h : Z)
    (angle : float) : Matrix3 :=
  let dx_ := sub (x sprite) (shr spr_w 1) in
  let dy_ := sub (y sprite) (shr spr_h 1) in
  let matrix := Matrix3SetIdentity in
  let transform :=
    Matrix3SetTranslation (m_of_int (neg dx_)) (m_of_int (neg dy_)) in
  let matrix := Matrix3Multiply matrix transform in
  let transform := Matrix3SetRotation (m_fmod360 angle) in
  let matrix := Matrix3Multiply matrix transform in
  let transform := Matrix3SetTranslation (m_of_int dx_) (m_of_int dy_) in
  Matrix3Multiply matrix transform.

(** "calcula 4 esquinas" and "multiplica los puntos por la matriz":
    corners 0 to 3 as the bounding-rectangle loop finds them. *)
Definition rotated_corners (sprite : Sprite) (spr_w spr_h : Z)
    (angle : float) : Point2D * Point2D * Point2D * Point2D :=
  let fx := m_of_int (x sprite) in
  let fy := m_of_int (y sprite) in
  let fx2 := m_sub (m_add fx (m_of_int spr_w)) (m_of_int 1) in
  let fy2 := m_sub (m_add fy (m_of_int spr_h)) (m_of_int 1) in
  let matrix := rotation_matrix sprite spr_w spr_h angle in
  (transform_corner matrix (fx, fy), transform_corner matrix (fx2, fy),
   transform_corner matrix (fx2, fy2), transform_corner matrix (fx, fy2)).

(** "obtiene rectangulo contenedor en pantalla" *)
Definition bounding_rect (c0 c1 c2 c3 : Point2D) : rect_t :=
  let rect := {| x1 := m_to_int (fst c0); y1 := m_to_int (snd c0);
                 x2 := m_to_int (fst c0); y2 := m_to_int (snd c0) |} in
  grow_rect (grow_rect (grow_rect rect c1) c2) c3.

(** *** bool TLN_SetSpriteRotation (int nsprite, float angle) *)
Definition TLN_SetSpriteRotation (e : Engine) (nsprite : Z) (angle : float)
  : outcome (Engine * bool) :=
  if numsprites e <=? nsprite
  then Done (TLN_SetLastError e TLN_ERR_IDX_SPRITE, false)
  else
    LET sprite <- get_sprite e nsprite IN
    (* borra anterior *)
    LET released <-
      match rotation_bitmap sprite with
      | NullBitmap => Done (e, NullBitmap)
      | p => TLN_DeleteBitmap e p
      end IN
    let e := fst released in
    let sprite := set_rotation_bitmap (snd released) sprite in
    (* calcula 4 esquinas *)
    LET info_ <- deref (info sprite) IN
    let spr_w := w info_ in
    let spr_h := h info_ in
    let '(c0, c1, c2, c3) := rotated_corners sprite spr_w spr_h angle in
    (* obtiene rectangulo contenedor en pantalla *)
    let rect := bounding_rect c0 c1 c2 c3 in
    let sprite := set_dstrect rect sprite in
    (* ajusta array de puntos a origen (0,0) para obtener tamano *)
    let local c := (m_sub (fst c) (m_of_int (x1 rect)),
                    m_sub (snd c) (m_of_int (y1 rect))) in
    let rotated :=
      TLN_CreateBitmap (add (sub (x2 rect) (x1 rect)) 1)
                       (add (sub (y2 rect) (y1 rect)) 1) 8 in
    let e := TLN_SetLastError e (TLN_CreateBitmap_error rotated) in
    (* inicia vectores de barrido *)
    LET xvect <- Vector2DSet (local c0) (local c1) spr_w IN
    LET yvect <- Vector2DSet (local c0) (local c3) spr_h IN
    (* dibuja bitmap de destino girado *)
    LET rotated <-
      scan_rows (Z.to_nat spr_h) 0 spr_w sprite rotated xvect yvect IN
    let sprite :=
      set_rotation_bitmap
        (match rotated with Some b => LiveBitmap b | None => NullBitmap end)
        sprite in
    let sprite := set_mode MODE_TRANSFORM sprite in
    let sprite := set_draw (Some (GetSpriteDraw (mode sprite))) sprite in
    LET e <- put_sprite e nsprite sprite IN
    Done (e, true).

(** *** bool TLN_ResetSpriteRotation (int nsprite) *)
Definition TLN_ResetSpriteRotation (e : Engine) (nsprite : Z)
  : outcome (Engine * bool) :=
  if numsprites e <=? nsprite
  then Done (TLN_SetLastError e TLN_ERR_IDX_SPRITE, false)
  else
    LET sprite <- get_sprite e nsprite IN
    LET released <-
      match rotation_bitmap sprite with
      | NullBitmap => Done (e, NullBitmap)
      | p => TLN_DeleteBitmap e p
      end IN
    let e := fst released in
    let sprite := set_rotation_bitmap (snd released) sprite in
    let sprite := set_mode MODE_NORMAL sprite in
    let sprite := set_draw (Some (GetSpriteDraw (mode sprite))) sprite in
    LET e <- put_sprite e nsprite sprite IN
    Done (e, true).

(** *** int TLN_GetSpritePicture (int nsprite) *)
Definition TLN_GetSpritePicture (e : Engine) (nsprite : Z)
  : outcome (Engine * Z) :=
  if numsprites e <=? nsprite
  then Done (TLN_SetLastError e TLN_ERR_IDX_SPRITE, 0)
  else
    LET sprite <- get_sprite e nsprite IN
    Done (TLN_SetLastError e TLN_ERR_OK, index sprite).

(** The loop of TLN_GetAvailableSprite at counter [c], [n] iterations
    left. *)
Fixpoint first_available (e : Engine) (n : nat) (c : Z) : outcome Z :=
  match n with
  | O => Done (-1)
  | S n' =>
      LET sprite <- get_sprite e c IN
      if negb (ok sprite) then Done c
      else first_available e n' (add c 1)
  end.

(** *** int TLN_GetAvailableSprite (void) *)
Definition TLN_GetAvailableSprite (e : Engine) : outcome (Engine * Z) :=
  let e := TLN_SetLastError e TLN_ERR_OK in
  LET c <- first_available e (Z.to_nat (numsprites e)) 0 IN
  Done (e, c).

(** *** bool TLN_EnableSpriteCollision (int nsprite, bool enable) *)
Definition TLN_EnableSpriteCollision (e : Engine) (nsprite : Z)
    (enable : bool) : outcome (Engine * bool) :=
  if numsprites e <=? nsprite
  then Done (TLN_SetLastError e TLN_ERR_IDX_SPRITE, false)
  else
    LET sprite <- get_sprite e nsprite IN
    LET e <- put_sprite e nsprite (set_do_collision enable sprite) IN
    Done (e, true).

(** *** bool TLN_GetSpriteCollision (int nsprite) *)
Definition TLN_GetSpriteCollision (e : Engine) (nsprite : Z)
  : outcome (Engine * bool) :=
  if numsprites e <=? nsprite
  then Done (TLN_SetLastError e TLN_ERR_IDX_SPRITE, false)
  else
    LET sprite <- get_sprite e nsprite IN
    Done (e, collision sprite).

(** *** bool TLN_DisableSprite (int nsprite) *)
Definition TLN_DisableSprite (e : Engine) (nsprite : Z)
  : outcome (Engine * bool) :=
  if numsprites e <=? nsprite
  then Done (TLN_SetLastError e TLN_ERR_IDX_SPRITE, false)
  else
    LET sprite <- get_sprite e nsprite IN
    LET e <- put_sprite e nsprite (set_ok false sprite) IN
    Done (TLN_SetLastError e TLN_ERR_OK, true).

(** *** Running a sequence of calls *)

Inductive operation : Type :=
| ConfigSprite (nsprite : Z) (spriteset_ : option TLN_Spriteset) (flags_ : Z)
| SetSpriteSet (nsprite : Z) (spriteset_ : option TLN_Spriteset)
| SetSpriteFlags (nsprite flags_ : Z)
| SetSpritePosition (nsprite x_ y_ : Z)
| SetSpritePicture (nsprite entry : Z)
| SetSpritePalette (nsprite : Z) (palette_ : option TLN_Palette)
| GetSpritePalette (nsprite : Z)
| SetSpriteBlendMode (nsprite mode_ factor : Z)
| SetSpriteScaling (nsprite : Z) (sx_ sy_ : float)
| ResetSpriteScaling (nsprite : Z)
| SetSpriteRotation (nsprite : Z) (angle : float)
| ResetSpriteRotation (nsprite : Z)
| GetSpritePicture (nsprite : Z)
| GetAvailableSprite
| EnableSpriteCollision (nsprite : Z) (enable : bool)
| GetSpriteCollision (nsprite : Z)
| DisableSprite (nsprite : Z).

(** What a call returns: [bool], a palette reference, or [int]. *)
Inductive retval : Type :=
| RBool (b : bool)
| RPalette (p : option TLN_Palette)
| RInt (z : Z).

(** "a sentinel failure value (false/zero/null)" *)
Definition is_failure (r : retval) : bool :=
  match r with
  | RBool b => negb b
  | RPalette p => negb (non_null p)
  | RInt z => z =? 0
  end.

Definition returning {A} (f : A -> retval) (r : outcome (Engine * A))
  : outcome (Engine * retval) :=
  LET p <- r IN Done (fst p, f (snd p)).

Definition call (e : Engine) (op : operation) : outcome (Engine * retval) :=
  match op with
  | ConfigSprite n s f => returning RBool (TLN_ConfigSprite e n s f)
  | SetSpriteSet n s => returning RBool (TLN_SetSpriteSet e n s)
  | SetSpriteFlags n f => returning RBool (TLN_SetSpriteFlags e n f)
  | SetSpritePosition n x_ y_ =>
      returning RBool (TLN_SetSpritePosition e n x_ y_)
  | SetSpritePicture n i => returning RBool (TLN_SetSpritePicture e n i)
  | SetSpritePalette n p => returning RBool (TLN_SetSpritePalette e n p)
  | GetSpritePalette n => returning RPalette (TLN_GetSpritePalette e n)
  | SetSpriteBlendMode n m f =>
      returning RBool (TLN_SetSpriteBlendMode e n m f)
  | SetSpriteScaling n a b => returning RBool (TLN_SetSpriteScaling e n a b)
  | ResetSpriteScaling n => returning RBool (TLN_ResetSpriteScaling e n)
  | SetSpriteRotation n a => returning RBool (TLN_SetSpriteRotation e n a)
  | ResetSpriteRotation n => returning RBool (TLN_ResetSpriteRotation e n)
  | GetSpritePicture n => returning RInt (TLN_GetSpritePicture e n)
  | GetAvailableSprite => returning RInt (TLN_GetAvailableSprite e)
  | EnableSpriteCollision n b =>
      returning RBool (TLN_EnableSpriteCollision e n b)
  | GetSpriteCollision n => returning RBool (TLN_GetSpriteCollision e n)
  | DisableSprite n => returning RBool (TLN_DisableSprite e n)
  end.

Fixpoint run (e : Engine) (ops : list operation) : outcome Engine :=
  match ops with
  | [] => Done e
  | op :: rest => LET r <- call e op IN run (fst r) rest
  end.

(** The sprite index a call is given; TLN_GetAvailableSprite takes
    none. *)
Definition sprite_index (op : operation) : option Z :=
  match op with
  | ConfigSprite n _ _ | SetSpriteSet n _ | SetSpriteFlags n _
  | SetSpritePosition n _ _ | SetSpritePicture n _ | SetSpritePalette n _
  | GetSpritePalette n | SetSpriteBlendMode n _ _ | SetSpriteScaling n _ _
  | ResetSpriteScaling n | SetSpriteRotation n _ | ResetSpriteRotation n
  | GetSpritePicture n | EnableSpriteCollision n _ | GetSpriteCollision n
  | DisableSprite n => Some n
  | GetAvailableSprite => None
  end.

(** The object references a call is given are live objects of the type
    it expects. *)
Definition valid_references (op : operation) : bool :=
  match op with
  | ConfigSprite _ s _ | SetSpriteSet _ s =>
      match s with
      | Some ss => ObjectType_eqb (ss_type ss) OT_SPRITESET
      | None => false
      end
  | SetSpritePalette _ p =>
      match p with
      | Some pal => ObjectType_eqb (pal_type pal) OT_PALETTE
      | None => false
      end
  | _ => true
  end.

(** Index [n] is one of an engine of capacity [cap], and slot [i] is the
    one it names. *)
Definition at_slot (cap n : Z) (i : nat) : bool :=
  (0 <=? n) && (n <? cap) && Nat.eqb (Z.to_nat n) i.

(** What a call that returns has done to the [ok] flag of slot [i] of an
    engine of capacity [cap]: [Some false], it has computed the flag from
    the two references; [Some true], it has cleared it; [None], it has left
    it.  The flag is written for an index in range only, and by
    TLN_SetSpriteSet, TLN_ConfigSprite and TLN_SetSpritePalette for a live
    object of the right type only. *)
Definition writes_ok (cap : Z) (i : nat) (op : operation) : option bool :=
  match op with
  | ConfigSprite n _ _ | SetSpriteSet n _ | SetSpritePalette n _ =>
      if at_slot cap n i && valid_references op then Some false else None
  | DisableSprite n => if at_slot cap n i then Some true else None
  | _ => None
  end.

(** Slot [i] stands disabled after [ops]: the last call that wrote its
    [ok] flag cleared it.  [d] is how the slot stood before [ops]. *)
Fixpoint disabled_after (cap : Z) (i : nat) (ops : list operation)
    (d : bool) : bool :=
  match ops with
  | [] => d
  | op :: rest =>
      disabled_after cap i rest
        match writes_ok cap i op with
        | Some b => b
        | None => d
        end
  end.

(** *** The engine as it starts *)

Definition zero_rect : rect_t := {| x1 := 0; y1 := 0; x2 := 0; y2 := 0 |}.

(** Modelled from the spec: a sprite slot before it is configured
    (engine initialization is not part of the sources): no spriteset, no
    palette, [ok] false, mode NORMAL, "scale factors (sx,sy, default
    1.0/1.0)". *)
Definition new_sprite : Sprite :=
  {| spriteset := None; palette := None; info := None; pixels := None;
     pitch := 0; num := 0; index := 0; x := 0; y := 0; dx := 0; dy := 0;
     sx := f_one; sy := f_one; srcrect := zero_rect; dstrect := zero_rect;
     mode := MODE_NORMAL; blend := None; flags := 0; draw := None;
     blitter := None; ok := false; do_collision := false;
     collision := false; rotation_bitmap := NullBitmap |}.

(** Modelled from the spec: the "fixed-capacity array sized at engine
    initialization", over a framebuffer of [hres] by [vres]. *)
Definition new_engine (hres vres : Z) (n : nat) : Engine :=
  {| numsprites := Z.of_nat n; sprites := repeat new_sprite n;
     framebuffer := {| width := hres; height := vres |};
     error := TLN_ERR_OK |}.

(** *** Vocabulary of the specification *)

(** "The sprite lies fully outside the framebuffer": the unclipped
    destination rectangle and the framebuffer share no pixel. *)
Definition fully_outside (fb : Framebuffer) (sprite : Sprite)
    (pic : SpriteEntry) : Prop :=
  x sprite + w pic <= 0 \/ width fb <= x sprite \/
  y sprite + h pic <= 0 \/ height fb <= y sprite.

(** No intermediate of the clipping arithmetic leaves the range of
    [int]. *)
Definition small (z : Z) : Prop := - 2 ^ 30 < z < 2 ^ 30.

(** The destination rectangle TLN_SetSpriteRotation computes for a
    picture of [spr_w] by [spr_h], and the bitmap it then asks for. *)
Definition rotation_rect (sprite : Sprite) (spr_w spr_h : Z) (angle : float)
  : rect_t :=
  let '(c0, c1, c2, c3) := rotated_corners sprite spr_w spr_h angle in
  bounding_rect c0 c1 c2 c3.

Definition rotation_request (rect : rect_t) : option TLN_Bitmap :=
  TLN_CreateBitmap (add (sub (x2 rect) (x1 rect)) 1)
                   (add (sub (y2 rect) (y1 rect)) 1) 8.






(** [ceil (side * sqrt 2)], for [0 <= side]. *)
Definition ceil_sqrt2 (side : Z) : Z := Z.sqrt_up (2 * side * side).

(** The sprite's [ok] flag agrees with its references. *)
Definition ok_iff_assigned (s : Sprite) : Prop :=
  ok s = true <-> (spriteset s <> None /\ palette s <> None).

Definition ok_implies_assigned (s : Sprite) : Prop :=
  ok s = true -> spriteset s <> None /\ palette s <> None.

(** Every field but the position is the same in both records. *)
Definition same_but_position (s s' : Sprite) : Prop :=
  spriteset s' = spriteset s /\ palette s' = palette s /\
  info s' = info s /\ pixels s' = pixels s /\ pitch s' = pitch s /\
  num s' = num s /\ index s' = index s /\ dx s' = dx s /\ dy s' = dy s /\
  sx s' = sx s /\ sy s' = sy s /\ srcrect s' = srcrect s /\
  dstrect s' = dstrect s /\ mode s' = mode s /\ blend s' = blend s /\
  flags s' = flags s /\ draw s' = draw s /\ blitter s' = blitter s /\
  ok s' = ok s /\ do_collision s' = do_collision s /\
  collision s' = collision s /\ rotation_bitmap s' = rotation_bitmap s.

(** *** Relations between sprite records and between engines *)

(** [s'] is [s] with its rectangles and steps rewritten. *)
Definition regeometry (s s' : Sprite) : Prop :=
  exists src dst a b,
    s' = set_dy b (set_dx a (set_dstrect dst (set_srcrect src s))).

(** [o], if it returns, returns a record related to [s]. *)
Definition yields (R : Sprite -> Sprite -> Prop) (s : Sprite)
    (o : outcome Sprite) : Prop :=
  forall s', o = Done s' -> R s s'.

(** The references of [s'] and its [ok] flag are those of [s]. *)
Definition keeps (s s' : Sprite) : Prop :=
  ok s' = ok s /\ spriteset s' = spriteset s /\ palette s' = palette s.

(** Every sprite of [e'] has the references of the sprite in its slot
    in [e]. *)
Definition preserves (e e' : Engine) : Prop :=
  forall i s', sprites e' !! i = Some s' ->
    exists s, sprites e !! i = Some s /\ keeps s s'.

(** [ok] has just been computed from the references. *)
Definition recomputed (s' : Sprite) : Prop :=
  ok s' = non_null (spriteset s') && non_null (palette s').

(** [ok] has just been cleared, the references are those of [s]. *)
Definition disabled (s s' : Sprite) : Prop :=
  ok s' = false /\ spriteset s' = spriteset s /\ palette s' = palette s.

(** [ok] is the conjunction of the references, unless the slot stands
    disabled. *)
Definition ok_unless (d : bool) (s : Sprite) : Prop :=
  ok s = non_null (spriteset s) && non_null (palette s) && negb d.

(** Slot by slot, [e'] has the [ok] flag written as [w] says. *)
Definition tracks (w : nat -> option bool) (e e' : Engine) : Prop :=
  forall i s', sprites e' !! i = Some s' ->
    exists s, sprites e !! i = Some s /\
      match w i with
      | None => keeps s s'
      | Some false => recomputed s'
      | Some true => disabled s s'
      end.

(** [Q] holds of every sprite slot. *)
Definition every_sprite (Q : Sprite -> Prop) (e : Engine) : Prop :=
  forall i s, sprites e !! i = Some s -> Q s.

(** *** Vocabulary for the properties of the calls *)

(** [e'] is [e] but for the record in slot [n] and the last error. *)
Definition only_slot (n : Z) (e e' : Engine) : Prop :=
  numsprites e' = numsprites e /\ framebuffer e' = framebuffer e /\
  length (sprites e') = length (sprites e) /\
  forall i, i <> Z.to_nat n -> sprites e' !! i = sprites e !! i.

(** The calls that answer a question about a sprite. *)
Definition is_query (op : operation) : bool :=
  match op with
  | GetSpritePalette _ | GetSpritePicture _ | GetAvailableSprite
  | GetSpriteCollision _ => true
  | _ => false
  end.

(** The calls that neither write the last-error slot on the path of an
    index in range nor call a unit that does. *)
Definition leaves_error (op : operation) : bool :=
  match op with
  | SetSpriteScaling _ _ _ | EnableSpriteCollision _ _
  | GetSpriteCollision _ => true
  | _ => false
  end.

(** The calls that end in [TLN_SetLastError (TLN_ERR_OK)]. *)
Definition reports_success (op : operation) : bool :=
  match op with
  | SetSpriteScaling _ _ _ | SetSpriteRotation _ _ | ResetSpriteRotation _
  | EnableSpriteCollision _ _ | GetSpriteCollision _ => false
  | _ => true
  end.

(** [r] does not reach beyond the framebuffer on any side. *)
Definition within (fb : Framebuffer) (r : rect_t) : Prop :=
  0 <= x1 r /\ 0 <= y1 r /\ x2 r <= width fb /\ y2 r <= height fb.

(** The rectangles and steps of [r] written into [t], as the branch of
    UpdateSprite for mode [m] writes them. *)
Definition transplant (m : draw_t) (r t : Sprite) : Sprite :=
  if negb (ok t) then t
  else match m with
       | MODE_NORMAL => set_dstrect (dstrect r) (set_srcrect (srcrect r) t)
       | MODE_SCALING =>
           set_dy (dy r) (set_dx (dx r)
             (set_dstrect (dstrect r) (set_srcrect (srcrect r) t)))
       | MODE_TRANSFORM => set_srcrect (srcrect r) t
       end.

(** The blitter is the one SelectBlitter picks for the record as it
    stands. *)
Definition blitter_selected (s : Sprite) : Prop :=
  blitter s =
  Some (GetBlitter 32 true (draw_t_eqb (mode s) MODE_SCALING)
                   (non_null (blend s))).

(** The calls that end in SelectBlitter. *)
Definition selects_blitter (op : operation) : bool :=
  match op with
  | SetSpriteBlendMode _ _ _ | SetSpriteScaling _ _ _
  | ResetSpriteScaling _ => true
  | _ => false
  end.

(** The calls that rotate, and undo it. *)
Definition is_rotation (op : operation) : bool :=
  match op with
  | SetSpriteRotation _ _ | ResetSpriteRotation _ => true
  | _ => false
  end.

(** The draw routine is the one of the record's mode. *)
Definition draw_selected (s : Sprite) : Prop :=
  draw s = Some (GetSpriteDraw (mode s)).

(** Mode and draw routine of [s'] are those of [s]. *)
Definition same_dispatch (s s' : Sprite) : Prop :=
  mode s' = mode s /\ draw s' = draw s.

(** Slot by slot, a call has left mode and draw routine alone or has set
    the draw routine of the mode it leaves. *)
Definition dispatches (e e' : Engine) : Prop :=
  forall i s', sprites e' !! i = Some s' ->
    exists s, sprites e !! i = Some s /\
      (same_dispatch s s' \/ draw_selected s').

(** [b] is the bitmap [a] with other pixels in its storage, or both are
    NULL. *)
Definition repainted (a b : option TLN_Bitmap) : Prop :=
  match a, b with
  | Some x, Some y =>
      exists data, y = with_data x data /\ length data = length (bm_data x)
  | None, None => True
  | _, _ => False
  end.

End WithPlatform.
End Sprite.

(* ===================================================================== *)
(** ** A reference platform *)
(* ===================================================================== *)

(** An executable instance of [Sprite.Platform], on which calls are run
    on concrete inputs: 16 fractional bits, [math2d_t] is [float],
    matrices act on row vectors, and a bitmap is created as long as its
    pixels fit the memory that is left. *)
Module Reference.
Import C Sprite.

(** binary64, for the trigonometric functions of the C library *)
Definition dprec : Z := 53.
Definition demax : Z := 1024.
Definition d_of_int (z : Z) : spec_float := binary_normalize dprec demax z 0 false.
Definition dmul := SFmul dprec demax.
Definition dadd := SFadd dprec demax.
Definition ddiv := SFdiv dprec demax.

Definition double_of_float (f : float) : spec_float := f.

Definition float_of_double (d : spec_float) : float :=
  match d with
  | S754_finite s m e =>
      binary_normalize prec emax (if s then Zneg m else Zpos m) e s
  | _ => d
  end.

(** [sum_{k<n} term], with [term_{k+1} = - term_k * r2 / ((i+1)(i+2))]:
    the power series of cosine from [(term, i) = (1, 0)] and of sine from
    [(r, 1)]. *)
Fixpoint series (n : nat) (r2 term : spec_float) (i : Z) : spec_float :=
  match n with
  | O => d_of_int 0
  | S n' =>
      dadd term
           (series n' r2
                   (SFopp (ddiv (dmul term r2) (d_of_int ((i + 1) * (i + 2)))))
                   (i + 2))
  end.

Definition deg2rad (a : spec_float) : spec_float :=
  ddiv (dmul a (ddiv (d_of_int 3141592653589793) (d_of_int 1000000000000000)))
       (d_of_int 180).

Definition cosine (a : float) : float :=
  let r := deg2rad (double_of_float a) in
  float_of_double (series 24 (dmul r r) (d_of_int 1) 0).

Definition sine (a : float) : float :=
  let r := deg2rad (double_of_float a) in
  float_of_double (series 24 (dmul r r) r 1).

(** roundf: to the nearest integer, halfway cases away from zero. *)
Definition roundf (f : float) : float :=
  match f with
  | S754_finite s m (Zneg p) =>
      let q := Z.shiftr (Zpos m + Z.shiftl 1 (Zpos p - 1)) (Zpos p) in
      if q =? 0 then S754_zero s
      else binary_normalize prec emax (if s then - q else q) 0 s
  | _ => f
  end.

(** fmod (angle, 360.0f): the remainder has the sign of [angle] and is
    exact. *)
Definition fmod360 (angle : float) : float :=
  match angle with
  | S754_finite s m e =>
      let '(num, e') :=
        match e with
        | Zneg p => (Z.rem (Zpos m) (360 * 2 ^ Zpos p), e)
        | _ => (Z.rem (Zpos m * 2 ^ e) 360, 0)
        end in
      if num =? 0 then S754_zero s
      else binary_normalize prec emax (if s then - num else num) e' s
  | S754_zero _ => angle
  | _ => S754_nan
  end.

(** Modelled from the spec: Matrix3. *)
Record matrix3 : Type := {
  m00 : float; m01 : float; m02 : float;
  m10 : float; m11 : float; m12 : float;
  m20 : float; m21 : float; m22 : float
}.

(** Modelled from the spec: the Geometry Kernel's "3x3 affine matrices"
    (Math2D is not part of the sources), acting on row vectors: identity,
    translation, rotation by an angle in degrees, product, and a point
    through a matrix. *)
Definition identity : matrix3 :=
  {| m00 := f_one; m01 := f_zero; m02 := f_zero;
     m10 := f_zero; m11 := f_one; m12 := f_zero;
     m20 := f_zero; m21 := f_zero; m22 := f_one |}.

(** Modelled from the spec: Matrix3SetTranslation. *)
Definition translation (tx ty : float) : matrix3 :=
  {| m00 := f_one; m01 := f_zero; m02 := f_zero;
     m10 := f_zero; m11 := f_one; m12 := f_zero;
     m20 := tx; m21 := ty; m22 := f_one |}.

(** Modelled from the spec: Matrix3SetRotation. *)
Definition rotation (angle : float) : matrix3 :=
  let c := cosine angle in
  let s := sine angle in
  {| m00 := c; m01 := s; m02 := f_zero;
     m10 := SFopp s; m11 := c; m12 := f_zero;
     m20 := f_zero; m21 := f_zero; m22 := f_one |}.

Definition dot3 (a b c d e f : float) : float :=
  fadd (fadd (fmul a b) (fmul c d)) (fmul e f).

(** Modelled from the spec: Matrix3Multiply, [a] times [b]. *)
Definition multiply (a b : matrix3) : matrix3 :=
  {| m00 := dot3 (m00 a) (m00 b) (m01 a) (m10 b) (m02 a) (m20 b);
     m01 := dot3 (m00 a) (m01 b) (m01 a) (m11 b) (m02 a) (m21 b);
     m02 := dot3 (m00 a) (m02 b) (m01 a) (m12 b) (m02 a) (m22 b);
     m10 := dot3 (m10 a) (m00 b) (m11 a) (m10 b) (m12 a) (m20 b);
     m11 := dot3 (m10 a) (m01 b) (m11 a) (m11 b) (m12 a) (m21 b);
     m12 := dot3 (m10 a) (m02 b) (m11 a) (m12 b) (m12 a) (m22 b);
     m20 := dot3 (m20 a) (m00 b) (m21 a) (m10 b) (m22 a) (m20 b);
     m21 := dot3 (m20 a) (m01 b) (m21 a) (m11 b) (m22 a) (m21 b);
     m22 := dot3 (m20 a) (m02 b) (m21 a) (m12 b) (m22 a) (m22 b) |}.

(** Modelled from the spec: Point2DMultiply. *)
Definition point_multiply (p : float * float) (m : matrix3) : float * float :=
  (dot3 (fst p) (m00 m) (snd p) (m10 m) f_one (m20 m),
   dot3 (fst p) (m01 m) (snd p) (m11 m) f_one (m21 m)).

(** Modelled from the spec: TLN_CreateBitmap (the bitmap unit is not part
    of the sources).  A zeroed bitmap, rows padded to a multiple of 4
    bytes; NULL when the size is not positive or exceeds [memory]. *)
Definition create_bitmap (memory : Z) (width_ height_ bpp : Z)
  : option TLN_Bitmap :=
  let pitch_ := Z.land (width_ * (bpp / 8) + 3) (Z.lnot 3) in
  if (0 <? width_) && (0 <? height_) && (pitch_ * height_ <=? memory)
  then Some {| bm_type := OT_BITMAP; bm_width := width_;
               bm_height := height_; bm_pitch := pitch_;
               bm_data := repeat 0 (Z.to_nat (pitch_ * height_)) |}
  else None.

(** Modelled from the spec: the collaborators of section 6 (Math2D,
    bitmap creation, blend table lookup, blit routine catalog), whose
    units are not part of the sources, with [memory] bytes left for
    bitmaps. *)
Definition platform (memory : Z) : Platform :=
  {| FIXED_BITS := 16;
     math2d_t := float;
     Matrix3 := matrix3;
     m_of_int := float_of_int;
     m_to_int := int_of_float;
     m_add := fadd;
     m_sub := fsub;
     m_ltb := fltb;
     m_roundf := roundf;
     m_fmod360 := fmod360;
     float2fix := fun f => int_of_float (fmul f (float_of_int (shl 1 16)));
     Matrix3SetIdentity := identity;
     Matrix3SetTranslation := translation;
     Matrix3SetRotation := rotation;
     Matrix3Multiply := multiply;
     Point2DMultiply := point_multiply;
     TLN_CreateBitmap := create_bitmap memory;
     ScanDrawPtr := draw_t;
     ScanBlitPtr := Z * bool * bool * bool;
     BlendTable := Z;
     GetSpriteDraw := fun m => m;
     GetBlitter := fun bpp key scaling blend_ => (bpp, key, scaling, blend_);
     SelectBlendTable := fun m => if m =? 0 then None else Some m |}.

End Reference.

(* ===================================================================== *)
(** ** LoadTileset.c: the XML parser callback *)
(* ===================================================================== *)

Module LoadTileset.
Import C.
Local Open Scope string_scope.
Local Open Scope Z_scope.

(* properties *)
Inductive Property : Type := PROPERTY_NONE | PROPERTY_TYPE | PROPERTY_PRIORITY.

(** Modelled from the spec: the events of the XML parser (its header is
    not part of the sources), as the callback's [switch] names them. *)
Inductive SimpleXmlEvent : Type :=
| ADD_SUBTAG | ADD_ATTRIBUTE | FINISH_ATTRIBUTES | ADD_CONTENT | FINISH_TAG.

(** Modelled from the spec: the per-tile attributes (declared in the
    public header, which is not part of the sources), with the two fields
    the callback writes: a [uint8_t] type and the priority flag. *)
Record TLN_TileAttributes : Type := { type : Z; priority : bool }.

(** Modelled from the spec: one frame of an animation, with the two
    fields the callback writes. *)
Record TLN_SequenceFrame : Type := { index : Z; delay : Z }.

(** Modelled from the spec: what TLN_CreateSequence is given (the sequence
    unit is not part of the sources): the target tile and the frames
    collected so far. *)
Record TLN_Sequence : Type := {
  target : Z;
  count : Z;
  seq_frames : list TLN_SequenceFrame
}.

(* load manager *)
Record Loader : Type := {
  source : string;
  tilewidth : Z;
  tileheight : Z;
  spacing : Z;
  margin : Z;
  tile_id : Z;
  property : Property;
  attributes : option (list TLN_TileAttributes);
  sp : option (list TLN_Sequence);
  frames : list TLN_SequenceFrame;
  frame_count : Z
}.

Definition set_source v (l : Loader) : Loader :=
  let '(Build_Loader _ b c d e f g i j k m) := l in Build_Loader v b c d e f g i j k m.
Definition set_tilewidth v (l : Loader) : Loader :=
  let '(Build_Loader a _ c d e f g i j k m) := l in Build_Loader a v c d e f g i j k m.
Definition set_tileheight v (l : Loader) : Loader :=
  let '(Build_Loader a b _ d e f g i j k m) := l in Build_Loader a b v d e f g i j k m.
Definition set_spacing v (l : Loader) : Loader :=
  let '(Build_Loader a b c _ e f g i j k m) := l in Build_Loader a b c v e f g i j k m.
Definition set_margin v (l : Loader) : Loader :=
  let '(Build_Loader a b c d _ f g i j k m) := l in Build_Loader a b c d v f g i j k m.
Definition set_tile_id v (l : Loader) : Loader :=
  let '(Build_Loader a b c d e _ g i j k m) := l in Build_Loader a b c d e v g i j k m.
Definition set_property v (l : Loader) : Loader :=
  let '(Build_Loader a b c d e f _ i j k m) := l in Build_Loader a b c d e f v i j k m.
Definition set_attributes v (l : Loader) : Loader :=
  let '(Build_Loader a b c d e f g _ j k m) := l in Build_Loader a b c d e f g v j k m.
Definition set_sp v (l : Loader) : Loader :=
  let '(Build_Loader a b c d e f g i _ k m) := l in Build_Loader a b c d e f g i v k m.
Definition set_frames v (l : Loader) : Loader :=
  let '(Build_Loader a b c d e f g i j _ m) := l in Build_Loader a b c d e f g i j v m.
Definition set_frame_count v (l : Loader) : Loader :=
  let '(Build_Loader a b c d e f g i j k _) := l in Build_Loader a b c d e f g i j k v.

(** *** atoi *)

Definition isspace (c : ascii) : bool :=
  let n := Z.of_N (N_of_ascii c) in
  (n =? 32) || ((9 <=? n) && (n <=? 13)).

Fixpoint skip_space (s : string) : string :=
  match s with
  | String c s' => if isspace c then skip_space s' else s
  | EmptyString => s
  end.

Fixpoint digits (s : string) (acc : Z) : Z :=
  match s with
  | String c s' =>
      let n := Z.of_N (N_of_ascii c) in
      if (48 <=? n) && (n <=? 57) then digits s' (acc * 10 + (n - 48))
      else acc
  | EmptyString => acc
  end.

(** [long] has 64 bits on the targets of the library. *)
Definition LONG_MIN : Z := - 2 ^ 63.
Definition LONG_MAX : Z := 2 ^ 63 - 1.

(** strtol (s, NULL, 10): white space, a sign, the longest run of decimal
    digits; a value outside [long] comes back as LONG_MIN or LONG_MAX. *)
Definition strtol (s : string) : Z :=
  let v := match skip_space s with
           | String "-" s' => - digits s' 0
           | String "+" s' => digits s' 0
           | s' => digits s' 0
           end in
  Z.max LONG_MIN (Z.min LONG_MAX v).

(** atoi (s) is [(int) strtol (s, NULL, 10)]: the conversion to [int]
    keeps the low 32 bits. *)
Definition atoi (s : string) : Z := wrap (strtol s).

(** strncpy (loader.source, szValue, 64): at most 64 characters are
    copied.  (A value of 64 characters or more fills the array and leaves
    it without its terminator; the model keeps those 64 characters.) *)
Definition strncpy (src : string) (n : nat) : string := substring 0 n src.

(** Modelled from the spec: sizeof (TLN_TileAttributes), a [uint8_t]
    and a [bool] (the public header is not part of the sources). *)
Definition sizeof_TLN_TileAttributes : Z := 2.

(** [malloc (size_attribs)] then [memset (.., 0, size_attribs)], with
    [size_attribs] an [int].  Below zero it converts to a [size_t] that no
    allocation satisfies: malloc returns NULL and memset writes through
    it.  A request that fits [int] is taken to be granted; it holds
    [size_attribs / sizeof (TLN_TileAttributes)] zeroed elements. *)
Definition alloc_attributes (size_attribs : Z)
  : outcome (list TLN_TileAttributes) :=
  if size_attribs <? 0 then Crash NullPointer
  else Done (repeat {| type := 0; priority := false |}
                    (Z.to_nat (size_attribs / sizeof_TLN_TileAttributes))).

(** [loader.attributes[loader.tile_id].f = v] *)
Definition update_attributes (loader : Loader)
    (f : TLN_TileAttributes -> TLN_TileAttributes) : outcome Loader :=
  LET a <- deref (attributes loader) IN
  LET old <- load a (tile_id loader) IN
  LET a' <- store a (tile_id loader) (f old) IN
  Done (set_attributes (Some a') loader).

Definition set_type v (a : TLN_TileAttributes) : TLN_TileAttributes :=
  {| type := v; priority := priority a |}.
Definition set_priority v (a : TLN_TileAttributes) : TLN_TileAttributes :=
  {| type := type a; priority := v |}.

(** [loader.frames[loader.frame_count].f = v] *)
Definition update_frame (loader : Loader)
    (f : TLN_SequenceFrame -> TLN_SequenceFrame) : outcome Loader :=
  LET old <- load (frames loader) (frame_count loader) IN
  LET fr <- store (frames loader) (frame_count loader) (f old) IN
  Done (set_frames fr loader).

(** *** static void* handler (SimpleXmlParser parser, SimpleXmlEvent evt,
        const char* szName, const char* szAttribute, const char* szValue)

    The callback always returns itself; the result here is the loader
    it leaves behind. *)
Definition handler (loader : Loader) (evt : SimpleXmlEvent)
    (szName szAttribute szValue : string) : outcome Loader :=
  match evt with
  | ADD_SUBTAG =>
      (* <animation> *)
      if strcasecmp szName "animation" =? 0
      then Done (set_frame_count 0 loader)
      else Done loader
  | ADD_ATTRIBUTE =>
      (* <tileset ...> *)
      if strcasecmp szName "tileset" =? 0 then
        if strcasecmp szAttribute "tilewidth" =? 0
        then Done (set_tilewidth (atoi szValue) loader)
        else if strcasecmp szAttribute "tileheight" =? 0
        then Done (set_tileheight (atoi szValue) loader)
        else if strcasecmp szAttribute "margin" =? 0
        then Done (set_margin (atoi szValue) loader)
        else if strcasecmp szAttribute "spacing" =? 0
        then Done (set_spacing (atoi szValue) loader)
        else if strcasecmp szAttribute "tilecount" =? 0
        then
          let tilecount := atoi szValue in
          let size_attribs := mul tilecount sizeof_TLN_TileAttributes in
          LET a <- alloc_attributes size_attribs IN
          Done (set_attributes (Some a) loader)
        else Done loader
      (* <image source=... /> *)
      else if strcasecmp szName "image" =? 0 then
        if strcasecmp szAttribute "source" =? 0
        then Done (set_source (strncpy szValue 64) loader)
        else Done loader
      (* <tile id="314"> *)
      else if strcasecmp szName "tile" =? 0 then
        if strcasecmp szAttribute "id" =? 0
        then Done (set_tile_id (atoi szValue) loader)
        else Done loader
      (* <property name="type" type="int" value="12"/> *)
      else if strcasecmp szName "property" =? 0 then
        if strcasecmp szAttribute "name" =? 0 then
          if strcasecmp szValue "type" =? 0
          then Done (set_property PROPERTY_TYPE loader)
          else if strcasecmp szValue "priority" =? 0
          then Done (set_property PROPERTY_PRIORITY loader)
          else Done (set_property PROPERTY_NONE loader)
        else if strcasecmp szAttribute "value" =? 0 then
          match property loader with
          | PROPERTY_TYPE =>
              update_attributes loader (set_type (atoi szValue mod 256))
          | PROPERTY_PRIORITY =>
              if strcasecmp szValue "true" =? 0
              then update_attributes loader (set_priority true)
              else update_attributes loader (set_priority true)
          | PROPERTY_NONE => Done loader
          end
        else Done loader
      (* <frame tileid="50" duration="100"/> *)
      else if strcasecmp szName "frame" =? 0 then
        if strcasecmp szAttribute "tileid" =? 0
        then update_frame loader
               (fun f => {| index := atoi szValue; delay := delay f |})
        else if strcasecmp szAttribute "duration" =? 0
        then update_frame loader
               (fun f => {| index := index f;
                            delay := Z.quot (mul (atoi szValue) 60) 1000 |})
        else Done loader
      else Done loader
  | FINISH_ATTRIBUTES => Done loader
  | ADD_CONTENT => Done loader
  | FINISH_TAG =>
      if strcasecmp szName "frame" =? 0
      then Done (set_frame_count (add (frame_count loader) 1) loader)
      else if strcasecmp szName "animation" =? 0
      then
        let sequence :=
          {| target := tile_id loader; count := frame_count loader;
             seq_frames := firstn (Z.to_nat (frame_count loader))
                                  (frames loader) |} in
        let pack := match sp loader with Some p => p | None => [] end in
        Done (set_sp (Some (app pack [sequence])) loader)
      else Done loader
  end.

(** The parser's calls for one attribute list, in order. *)
Fixpoint feed (loader : Loader)
    (evts : list (SimpleXmlEvent * string * string * string))
  : outcome Loader :=
  match evts with
  | [] => Done loader
  | (evt, szName, szAttribute, szValue) :: rest =>
      LET loader <- handler loader evt szName szAttribute szValue IN
      feed loader rest
  end.

(** *** TLN_LoadTileset *)

(** The error codes TLN_LoadTileset records, and any other code a callee
    may have left. *)
Inductive TLN_Error : Type :=
| TLN_ERR_OK
| TLN_ERR_OUT_OF_MEMORY
| TLN_ERR_FILE_NOT_FOUND
| TLN_ERR_WRONG_FORMAT
| TLN_ERR_OTHER (code : Z).

(** What TLN_LoadTileset calls in units outside the sources.  A callee
    of the engine may record an error of its own: it takes the last error
    and gives it back. *)
Class Host : Type := {
  (* LoadFile.h *)
  SIZE_MAX : Z;                                  (* (size_t) -1 *)
  LoadFile : string -> option (list Z) * Z;      (* the data, and *size *)
  (* simplexml.h *)
  SimpleXmlParser : Type;
  simpleXmlCreateParser : list Z -> Z -> option SimpleXmlParser;
  (* simpleXmlParse: the calls it makes to the callback, in order, and
     its result *)
  simpleXmlParse_calls :
    SimpleXmlParser -> list (SimpleXmlEvent * string * string * string);
  simpleXmlParse_result : SimpleXmlParser -> Z;
  simpleXmlDestroyParser : option SimpleXmlParser -> outcome unit;
  (* Tilengine.h *)
  TLN_Bitmap : Type;
  TLN_Palette : Type;
  TLN_Tileset : Type;
  uint8_ptr : Type;                              (* uint8_t* *)
  TLN_LoadBitmap : string -> TLN_Error -> option TLN_Bitmap * TLN_Error;
  TLN_GetBitmapWidth : TLN_Bitmap -> TLN_Error -> Z * TLN_Error;
  TLN_GetBitmapHeight : TLN_Bitmap -> TLN_Error -> Z * TLN_Error;
  TLN_GetBitmapPitch : TLN_Bitmap -> Z;
  TLN_GetBitmapPalette :
    TLN_Bitmap -> TLN_Error -> option TLN_Palette * TLN_Error;
  TLN_GetBitmapPtr : TLN_Bitmap -> Z -> Z -> uint8_ptr;
  TLN_ClonePalette :
    option TLN_Palette -> TLN_Error -> option TLN_Palette * TLN_Error;
  TLN_CreateTileset :
    Z -> Z -> Z -> option TLN_Palette -> option (list TLN_Sequence) ->
    option (list TLN_TileAttributes) -> TLN_Error ->
    option TLN_Tileset * TLN_Error;
  TLN_SetTilesetPixels : TLN_Tileset -> Z -> uint8_ptr -> Z -> TLN_Tileset
}.

(** [memset (&loader, 0, sizeof(loader))] *)
Definition zeroed : Loader :=
  {| source := EmptyString; tilewidth := 0; tileheight := 0; spacing := 0;
     margin := 0; tile_id := 0; property := PROPERTY_NONE;
     attributes := None; sp := None;
     frames := repeat {| index := 0; delay := 0 |} 100;
     frame_count := 0 |}.

Section WithHost.
Context {H : Host}.

(** The body of the inner loop: tile [id] takes its pixels from column
    [x] of row [y] of the grid. *)
Definition load_tile (loader : Loader) (bitmap : TLN_Bitmap)
    (dx dy pitch : Z) (tileset : TLN_Tileset) (tile : Z * Z * Z)
  : TLN_Tileset :=
  let '(id, x, y) := tile in
  let srcptr :=
    TLN_GetBitmapPtr bitmap (add (margin loader) (mul x dx))
                            (add (margin loader) (mul y dy)) in
  TLN_SetTilesetPixels tileset id srcptr pitch.

(** The inner loop [for (x=0; x<htiles; x++, id++)] of row [y], at column
    [x] with [n] iterations left: the tileset and the next id. *)
Fixpoint load_row (n : nat) (loader : Loader) (bitmap : TLN_Bitmap)
    (dx dy pitch : Z) (y x id : Z) (tileset : TLN_Tileset)
  : TLN_Tileset * Z :=
  match n with
  | O => (tileset, id)
  | S n' =>
      let tileset := load_tile loader bitmap dx dy pitch tileset (id, x, y) in
      load_row n' loader bitmap dx dy pitch y (add x 1) (add id 1) tileset
  end.

(** The outer loop [for (id=1, y=0; y<vtiles; y++)], at row [y] with [n]
    iterations left. *)
Fixpoint load_rows (n : nat) (loader : Loader) (bitmap : TLN_Bitmap)
    (dx dy pitch htiles : Z) (y id : Z) (tileset : TLN_Tileset)
  : TLN_Tileset :=
  match n with
  | O => tileset
  | S n' =>
      let '(tileset, id) :=
        load_row (Z.to_nat htiles) loader bitmap dx dy pitch y 0 id tileset in
      load_rows n' loader bitmap dx dy pitch htiles (add y 1) id tileset
  end.

(** "create tileset" and "load tiles", once the picture is there.  The
    error slot is threaded through the calls up to [TLN_CreateTileset],
    whose failure returns with what they recorded; past it the closing
    [TLN_SetLastError (TLN_ERR_OK)] overwrites whatever the pixel calls
    record.  [TLN_DeleteBitmap (bitmap)] and [free (loader.attributes)]
    release storage and have no part in the result. *)
Definition create_tileset (loader : Loader) (bitmap : TLN_Bitmap)
    (err : TLN_Error) : outcome (option TLN_Tileset * TLN_Error) :=
  let dx := add (tilewidth loader) (spacing loader) in
  let dy := add (tileheight loader) (spacing loader) in
  let '(width, err) := TLN_GetBitmapWidth bitmap err in
  LET htiles <-
    div (add (sub width (mul (margin loader) 2)) (spacing loader)) dx IN
  let '(height, err) := TLN_GetBitmapHeight bitmap err in
  LET vtiles <-
    div (add (sub height (mul (margin loader) 2)) (spacing loader)) dy IN
  let '(palette, err) := TLN_GetBitmapPalette bitmap err in
  let '(palette, err) := TLN_ClonePalette palette err in
  let '(tileset, err) :=
    TLN_CreateTileset (mul htiles vtiles) (tilewidth loader)
      (tileheight loader) palette (sp loader) (attributes loader) err in
  match tileset with
  | None => Done (None, err)
  | Some tileset =>
      let pitch := TLN_GetBitmapPitch bitmap in
      (* load tiles *)
      let tileset :=
        load_rows (Z.to_nat vtiles) loader bitmap dx dy pitch htiles 0 1
                  tileset in
      Done (Some tileset, TLN_ERR_OK)
  end.

(** "parse": the loader the callback leaves and the last error, or the
    error of the early return. *)
Definition parse (data : list Z) (size : Z) (err : TLN_Error)
  : outcome (Loader * TLN_Error + TLN_Error) :=
  let loader := zeroed in
  let parser := simpleXmlCreateParser data size in
  LET parsed <-
    match parser with
    | Some p =>
        LET loader <- feed loader (simpleXmlParse_calls p) IN
        if negb (simpleXmlParse_result p =? 0)
        then
          LET _ <- simpleXmlDestroyParser parser IN
          Done (inr TLN_ERR_WRONG_FORMAT)
        else Done (inl (loader, err))
    | None => Done (inl (loader, TLN_ERR_OUT_OF_MEMORY))
    end IN
  match parsed with
  | inr e => Done (inr e)
  | inl r =>
      LET _ <- simpleXmlDestroyParser parser IN
      Done (inl r)
  end.

(** *** TLN_Tileset TLN_LoadTileset (const char* filename)

    The result is the tileset, NULL as [None], and the last error. *)
Definition TLN_LoadTileset (filename : string) (err : TLN_Error)
  : outcome (option TLN_Tileset * TLN_Error) :=
  (* load file *)
  let '(data, size) := LoadFile filename in
  match data with
  | None =>
      if size =? 0 then Done (None, TLN_ERR_FILE_NOT_FOUND)
      else if size =? SIZE_MAX then Done (None, TLN_ERR_OUT_OF_MEMORY)
      else Done (None, err)
  | Some data =>
      (* parse *)
      LET parsed <- parse data size err IN
      match parsed with
      | inr e => Done (None, e)
      | inl (loader, err) =>
          (* check filename *)
          match source loader with
          | EmptyString => Done (None, TLN_ERR_WRONG_FORMAT)
          | String _ _ =>
              (* load picture *)
              let '(bitmap, err) := TLN_LoadBitmap (source loader) err in
              match bitmap with
              | None => Done (None, err)
              | Some bitmap => create_tileset loader bitmap err
              end
          end
      end
  end.

End WithHost.

(** *** Vocabulary *)

(** The tiles of a grid of [htiles] by [vtiles] as the loops visit them:
    id, column, row. *)
Definition placements (htiles vtiles : Z) : list (Z * Z * Z) :=
  flat_map (fun y => map (fun x => (1 + y * htiles + x, x, y))
                         (seqZ 0 htiles))
           (seqZ 0 vtiles).

(** [l'] is [l] but for the property being read and the attribute
    array. *)
Definition same_but_properties (l l' : Loader) : Prop :=
  source l' = source l /\ tilewidth l' = tilewidth l /\
  tileheight l' = tileheight l /\ spacing l' = spacing l /\
  margin l' = margin l /\ tile_id l' = tile_id l /\ sp l' = sp l /\
  frames l' = frames l /\ frame_count l' = frame_count l.

(** The call is the [source] attribute of an <image> tag. *)
Definition names_source (c : SimpleXmlEvent * string * string * string)
  : bool :=
  let '(evt, szName, szAttribute, _) := c in
  match evt with
  | ADD_ATTRIBUTE =>
      negb (strcasecmp szName "tileset" =? 0) &&
      (strcasecmp szName "image" =? 0) &&
      (strcasecmp szAttribute "source" =? 0)
  | _ => false
  end.

(** The calls for one <frame> and for one <animation>, by the tile id
    and the duration of each frame as the document spells them. *)
Definition frame_calls (f : string * string)
  : list (SimpleXmlEvent * string * string * string) :=
  [(ADD_ATTRIBUTE, "frame", "tileid", fst f);
   (ADD_ATTRIBUTE, "frame", "duration", snd f);
   (FINISH_TAG, "frame", "", "")].

Definition animation_calls (fs : list (string * string))
  : list (SimpleXmlEvent * string * string * string) :=
  (ADD_SUBTAG, "animation", "", "") ::
  flat_map frame_calls fs ++ [(FINISH_TAG, "animation", "", "")].

(** The frame the callback stores for tile id [t] and duration [d]. *)
Definition frame_of (f : string * string) : TLN_SequenceFrame :=
  {| index := atoi (fst f);
     delay := Z.quot (mul (atoi (snd f)) 60) 1000 |}.

End LoadTileset.

(* ===================================================================== *)
(** ** Concrete objects *)
(* ===================================================================== *)

Module Examples.
Import C Sprite.

(** The reference platform with 64 KiB left for bitmaps, and with none. *)
Definition roomy : Platform := Reference.platform 65536.
Definition exhausted : Platform := Reference.platform 0.

Definition palette_a : TLN_Palette := {| pal_type := OT_PALETTE; pal_data := [1] |}.
Definition palette_b : TLN_Palette := {| pal_type := OT_PALETTE; pal_data := [2] |}.

(** A spriteset of one square picture of side [n], with a palette. *)
Definition square_bitmap (n : Z) : TLN_Bitmap :=
  {| bm_type := OT_BITMAP; bm_width := n; bm_height := n; bm_pitch := n;
     bm_data := repeat 7 (Z.to_nat (n * n)) |}.

Definition square_set (n : Z) (pal : option TLN_Palette) : TLN_Spriteset :=
  {| ss_type := OT_SPRITESET; ss_bitmap := Some (square_bitmap n);
     ss_palette := pal; ss_data := [ {| w := n; h := n; offset := 0 |} ] |}.

Definition screen : Framebuffer := {| width := 256; height := 224 |}.

(** A configured sprite in NORMAL mode showing a 16x16 picture. *)
Definition sprite_at (P : Platform) (px py : Z) : @Sprite P :=
  set_ok true
    (set_palette (Some palette_a)
       (set_spriteset (Some (square_set 16 (Some palette_a)))
          (set_info (Some {| w := 16; h := 16; offset := 0 |})
             (set_y py (set_x px new_sprite))))).

Definition configure_then_disable : list operation :=
  [SetSpriteSet 0 (Some (square_set 16 (Some palette_a))); DisableSprite 0].

Definition disable_then_palette : list operation :=
  [SetSpriteSet 0 (Some (square_set 16 (Some palette_a)));
   DisableSprite 0; DisableSprite 1; DisableSprite 7;
   SetSpritePalette 0 (Some palette_b)].

Definition palette_then_spriteset : list operation :=
  [SetSpritePalette 0 (Some palette_b);
   SetSpriteSet 0 (Some (square_set 16 (Some palette_a)))].

(** A sprite slot showing a square picture of side [n] at (100,100). *)
Definition show_square (n : Z) : list operation :=
  [SetSpriteSet 0 (Some (square_set n (Some palette_a)));
   SetSpritePosition 0 100 100].

Definition angle_45 : float := float_of_int 45.

(** 1/32 as a [float]. *)
Definition one_32nd : float := S754_finite false 8388608 (-28).

Definition show_16 : list operation :=
  [SetSpriteSet 0 (Some (square_set 16 (Some palette_a)))].

Definition bitmap_size (p : bitmap_ptr) : option (Z * Z) :=
  match p with
  | LiveBitmap b => Some (bm_width b, bm_height b)
  | _ => None
  end.

(** Sprite 0 shows a square of side [n] at (100,100) and is rotated by 45
    degrees: its destination rectangle, and the size of its bitmap. *)
Definition rotated_square (n : Z) : outcome (rect_t * option (Z * Z)) :=
  LET e <- @run roomy (@new_engine roomy 256 224 1)
             (show_square n ++ [SetSpriteRotation 0 angle_45]) IN
  LET s <- @get_sprite roomy e 0 IN
  Done (@dstrect roomy s, bitmap_size (@rotation_bitmap roomy s)).

(** A loader in the middle of a tileset of four tiles, at tile 2. *)
Definition some_loader : LoadTileset.Loader :=
  {| LoadTileset.source := EmptyString;
     LoadTileset.tilewidth := 8; LoadTileset.tileheight := 8;
     LoadTileset.spacing := 0; LoadTileset.margin := 0;
     LoadTileset.tile_id := 2;
     LoadTileset.property := LoadTileset.PROPERTY_NONE;
     LoadTileset.attributes :=
       Some (repeat {| LoadTileset.type := 0;
                       LoadTileset.priority := false |} 4);
     LoadTileset.sp := None; LoadTileset.frames := [];
     LoadTileset.frame_count := 0 |}.

(** The engine after [ops] on one sprite slot, and the sprite in it. *)
Definition engine_after (ops : list operation) : @Engine roomy :=
  match @run roomy (@new_engine roomy 256 224 1) ops with
  | Done e => e
  | Crash _ => @new_engine roomy 256 224 1
  end.

Definition sprite_after (ops : list operation) : @Sprite roomy :=
  match @sprites roomy (engine_after ops) with
  | s :: _ => s
  | [] => @new_sprite roomy
  end.

Definition one_slot : @Engine roomy := @new_engine roomy 256 224 1.
Definition two_slots : @Engine roomy := @new_engine roomy 256 224 2.

(** The engine a call leaves; the engine it was given when the call does
    not return. *)
Definition left_by {A} (e : @Engine roomy)
    (r : outcome (@Engine roomy * A)) : @Engine roomy :=
  match r with
  | Done (e', _) => e'
  | Crash _ => e
  end.

(** One slot, after a call with an index past the capacity. *)
Definition after_refusal : @Engine roomy :=
  left_by one_slot (@TLN_SetSpritePosition roomy one_slot 5 0 0).

(** The record in slot 0. *)
Definition slot_0 (e : @Engine roomy) : @Sprite roomy :=
  match @sprites roomy e with
  | s :: _ => s
  | [] => @new_sprite roomy
  end.

(** An engine of one slot that holds [s]. *)
Definition engine_with (s : @Sprite roomy) : @Engine roomy :=
  {| numsprites := 1; sprites := [s]; framebuffer := screen;
     error := TLN_ERR_OK |}.

(** A configured sprite as a rotation leaves it: MODE_TRANSFORM, a
    destination rectangle around the picture and a bitmap of its own. *)
Definition rotated_sprite : @Sprite roomy :=
  set_rotation_bitmap (LiveBitmap (square_bitmap 23))
    (set_mode MODE_TRANSFORM
       (set_dstrect {| x1 := 7; y1 := 7; x2 := 29; y2 := 29 |}
          (sprite_at roomy 10 10))).

(** 2.0 as a [float], and a configured sprite scaled by it. *)
Definition two : float := float_of_int 2.

Definition scaled_sprite : @Sprite roomy :=
  set_mode MODE_SCALING (set_sy two (set_sx two (sprite_at roomy 10 10))).

(** Slot 0 shows a spriteset with palette_a, is given palette_b and is
    scaled by two; then the spriteset is assigned again. *)
Definition overridden_and_scaled : list operation :=
  [SetSpriteSet 0 (Some (square_set 16 (Some palette_a)));
   SetSpritePalette 0 (Some palette_b);
   SetSpriteScaling 0 two two].

Definition assigned_again : @Engine roomy :=
  left_by (engine_after overridden_and_scaled)
    (@TLN_SetSpriteSet roomy (engine_after overridden_and_scaled) 0
       (Some (square_set 16 (Some palette_a)))).

(** A slot whose draw routine is the one of its mode. *)
Definition drawn_sprite : @Sprite roomy :=
  set_draw (Some (@GetSpriteDraw roomy MODE_NORMAL)) (@new_sprite roomy).

(** The engine after sprite 0, showing a square of side [n] at
    (100,100), is turned by 45 degrees. *)
Definition turned (n : Z) : @Engine roomy :=
  left_by (engine_after (show_square n))
    (@TLN_SetSpriteRotation roomy (engine_after (show_square n)) 0 angle_45).

Definition turned_1 : @Engine roomy := turned 1.

Definition turned_pixel : @Sprite roomy := slot_0 turned_1.


End Examples.

Module TilesetExamples.
Import C LoadTileset.
Local Open Scope string_scope.
Local Open Scope Z_scope.

(** A host with one file, "tiles.tsx": its parser, when it can be
    created, makes the calls [calls] and succeeds; any picture loads as one
    of [wd] by [ht]; a tileset is the list of the pixels it was given, by
    tile id. *)
Definition disk (calls : list (SimpleXmlEvent * string * string * string))
    (parser : bool) (wd ht : Z) : Host :=
  {| SIZE_MAX := 2 ^ 64 - 1;
     LoadFile name :=
       if String.eqb name "tiles.tsx" then (Some [60], 1) else (None, 0);
     SimpleXmlParser := unit;
     simpleXmlCreateParser _ _ := if parser then Some tt else None;
     simpleXmlParse_calls _ := calls;
     simpleXmlParse_result _ := 0;
     simpleXmlDestroyParser _ := Done tt;
     TLN_Bitmap := Z * Z;
     TLN_Palette := unit;
     TLN_Tileset := list (Z * (Z * Z));
     uint8_ptr := Z * Z;
     TLN_LoadBitmap _ err := (Some (wd, ht), err);
     TLN_GetBitmapWidth b _ := (fst b, TLN_ERR_OK);
     TLN_GetBitmapHeight b _ := (snd b, TLN_ERR_OK);
     TLN_GetBitmapPitch b := fst b;
     TLN_GetBitmapPalette _ _ := (Some tt, TLN_ERR_OK);
     TLN_GetBitmapPtr _ x y := (x, y);
     TLN_ClonePalette p _ := (p, TLN_ERR_OK);
     TLN_CreateTileset _ _ _ _ _ _ _ := (Some [], TLN_ERR_OK);
     TLN_SetTilesetPixels tileset id srcptr _ := app tileset [(id, srcptr)] |}.

(** The calls for a tileset of 8x8 tiles cut from "a.png". *)
Definition tiles_8x8 : list (SimpleXmlEvent * string * string * string) :=
  [(ADD_ATTRIBUTE, "tileset", "tilewidth", "8");
   (ADD_ATTRIBUTE, "tileset", "tileheight", "8");
   (ADD_ATTRIBUTE, "image", "source", "a.png")].

(** The same with no tile size, and with no image. *)
Definition no_tile_size : list (SimpleXmlEvent * string * string * string) :=
  [(ADD_ATTRIBUTE, "image", "source", "a.png")].

Definition no_image : list (SimpleXmlEvent * string * string * string) :=
  [(ADD_ATTRIBUTE, "tileset", "tilewidth", "8");
   (ADD_ATTRIBUTE, "tileset", "tileheight", "8")].

(** The loader the callback leaves after [calls]. *)
Definition loader_after
    (calls : list (SimpleXmlEvent * string * string * string)) : Loader :=
  match feed zeroed calls with
  | Done l => l
  | Crash _ => zeroed
  end.

End TilesetExamples.

(* ===================================================================== *)
(** ** Properties of Sprite.c *)
(* ===================================================================== *)

Module SpriteProofs.
Import C Sprite.

(** *** Arithmetic and arrays *)

Lemma wrap_small z : INT_MIN <= z <= INT_MAX -> wrap z = z.
Proof.
  unfold wrap, INT_MIN, INT_MAX. intros Hz.
  rewrite Z.mod_small by lia. lia.
Qed.

Lemma add_small a b : INT_MIN <= a + b <= INT_MAX -> add a b = a + b.
Proof. apply wrap_small. Qed.

Lemma sub_small a b : INT_MIN <= a - b <= INT_MAX -> sub a b = a - b.
Proof. apply wrap_small. Qed.

Ltac bounds := unfold small, is_int, INT_MIN, INT_MAX in *.

Lemma load_lookup {A} (l : list A) (i : Z) (v : A) :
  0 <= i -> l !! Z.to_nat i = Some v -> load l i = Done v.
Proof.
  intros Hi Hl. unfold load. rewrite Hl.
  apply lookup_lt_Some in Hl.
  destruct (i <? 0) eqn:E1; [lia|].
  destruct (Z.of_nat (length l) <=? i) eqn:E2; [lia|]. reflexivity.
Qed.

Lemma store_lookup {A} (l : list A) (i : Z) (v u : A) :
  0 <= i -> l !! Z.to_nat i = Some v ->
  store l i u = Done (<[Z.to_nat i := u]> l).
Proof.
  intros Hi Hl. unfold store.
  apply lookup_lt_Some in Hl.
  destruct (i <? 0) eqn:E1; [lia|].
  destruct (Z.of_nat (length l) <=? i) eqn:E2; [lia|]. reflexivity.
Qed.

Lemma load_negative {A} (l : list A) (i : Z) :
  i < 0 -> load l i = Crash OutOfBounds.
Proof. intros Hi. unfold load. destruct (i <? 0) eqn:E; [reflexivity|lia]. Qed.

Lemma load_Done {A} (l : list A) i v :
  load l i = Done v -> 0 <= i /\ l !! Z.to_nat i = Some v.
Proof.
  unfold load. destruct (Z.ltb_spec i 0); simpl; [discriminate|].
  destruct (Z.of_nat (length l) <=? i); simpl; [discriminate|].
  destruct (l !! Z.to_nat i); [|discriminate].
  intros H'; inversion H'; subst. split; [assumption|reflexivity].
Qed.

Lemma store_Done {A} (l l' : list A) i v :
  store l i v = Done l' -> l' = <[Z.to_nat i := v]> l.
Proof.
  unfold store. destruct ((i <? 0) || (Z.of_nat (length l) <=? i)); [discriminate|].
  intros H; inversion H; reflexivity.
Qed.

(** Inversion of a computation that is known to return. *)
Ltac returns H :=
  repeat
    (cbn [bind] in H;
     match type of H with
     | bind ?m _ = Done _ =>
         let E := fresh "E" in
         destruct m eqn:E; [|discriminate H]
     | (if ?c then _ else _) = Done _ =>
         let E := fresh "E" in destruct c eqn:E
     | (let '(_, _) := ?p in _) = Done _ =>
         let E := fresh "E" in destruct p eqn:E
     | Crash _ = Done _ => discriminate H
     end).

Section WithPlatform.
Context {P : Platform}.

Lemma UpdateSprite_not_ok fb (sprite : Sprite) :
  ok sprite = false -> UpdateSprite fb sprite = Done sprite.
Proof. intros H. unfold UpdateSprite. rewrite H. reflexivity. Qed.

(** The NORMAL branch with its arithmetic in Z: both rectangles in
    closed form. *)
Lemma UpdateSprite_normal fb (sprite : Sprite) pic :
  ok sprite = true -> mode sprite = MODE_NORMAL -> info sprite = Some pic ->
  small (x sprite) -> small (y sprite) -> small (w pic) -> small (h pic) ->
  0 <= width fb < 2 ^ 30 -> 0 <= height fb < 2 ^ 30 ->
  UpdateSprite fb sprite =
  Done (set_dstrect
          {| x1 := Z.max (x sprite) 0; y1 := Z.max (y sprite) 0;
             x2 := Z.min (x sprite + w pic) (width fb);
             y2 := Z.min (y sprite + h pic) (height fb) |}
          (set_srcrect
             {| x1 := Z.max (x sprite) 0 - x sprite;
                y1 := Z.max (y sprite) 0 - y sprite;
                x2 := w pic + (Z.min (x sprite + w pic) (width fb)
                               - (x sprite + w pic));
                y2 := h pic + (Z.min (y sprite + h pic) (height fb)
                               - (y sprite + h pic)) |}
             sprite)).
Proof.
  unfold small. intros Hok Hmode Hinfo Hx Hy Hw Hh Hfw Hfh.
  unfold UpdateSprite. rewrite Hok, Hinfo, Hmode. simpl.
  rewrite (add_small (x sprite)), (add_small (y sprite)) by (bounds; lia).
  destruct (Z.ltb_spec (y sprite) 0); simpl;
  destruct (Z.ltb_spec (height fb) (y sprite + h pic)); simpl;
  destruct (Z.ltb_spec (x sprite) 0); simpl;
  destruct (Z.ltb_spec (width fb) (x sprite + w pic)); simpl;
  repeat match goal with
         | |- context [sub ?a ?b] => rewrite (sub_small a b) by (bounds; lia)
         end;
  unfold set_x1, set_x2, set_y1, set_y2; simpl;
  repeat f_equal; lia.
Qed.

Lemma srcrect_set_dstrect r (s : Sprite) : srcrect (set_dstrect r s) = srcrect s.
Proof. destruct s; reflexivity. Qed.
Lemma dstrect_set_dstrect r (s : Sprite) : dstrect (set_dstrect r s) = r.
Proof. destruct s; reflexivity. Qed.
Lemma srcrect_set_srcrect r (s : Sprite) : srcrect (set_srcrect r s) = r.
Proof. destruct s; reflexivity. Qed.

(** C1.  In NORMAL mode the destination rectangle of a configured
    sprite is its position plus the picture dimensions, each edge
    clipped to the framebuffer, and each source edge has moved from the
    full picture extent by exactly the amount its destination edge has
    moved.  A 16x16 picture at (-5,-5) on a 256x224 framebuffer gives
    source (5,5)-(16,16) and destination (0,0)-(11,11). *)
Theorem UpdateSprite_normal_clips_source_with_destination :
  (forall fb (sprite : Sprite) pic,
      ok sprite = true -> mode sprite = MODE_NORMAL ->
      info sprite = Some pic ->
      small (x sprite) -> small (y sprite) ->
      small (w pic) -> small (h pic) ->
      0 <= width fb < 2 ^ 30 -> 0 <= height fb < 2 ^ 30 ->
      exists s',
        UpdateSprite fb sprite = Done s' /\
        x1 (dstrect s') = Z.max (x sprite) 0 /\
        y1 (dstrect s') = Z.max (y sprite) 0 /\
        x2 (dstrect s') = Z.min (x sprite + w pic) (width fb) /\
        y2 (dstrect s') = Z.min (y sprite + h pic) (height fb) /\
        x1 (srcrect s') - 0 = x1 (dstrect s') - x sprite /\
        y1 (srcrect s') - 0 = y1 (dstrect s') - y sprite /\
        x2 (srcrect s') - w pic = x2 (dstrect s') - (x sprite + w pic) /\
        y2 (srcrect s') - h pic = y2 (dstrect s') - (y sprite + h pic))
  /\
  (forall (sprite : Sprite) at_offset,
      ok sprite = true -> mode sprite = MODE_NORMAL ->
      info sprite = Some {| w := 16; h := 16; offset := at_offset |} ->
      x sprite = -5 -> y sprite = -5 ->
      exists s',
        UpdateSprite {| width := 256; height := 224 |} sprite = Done s' /\
        srcrect s' = {| x1 := 5; y1 := 5; x2 := 16; y2 := 16 |} /\
        dstrect s' = {| x1 := 0; y1 := 0; x2 := 11; y2 := 11 |}).
Proof.
  split.
  - intros fb sprite pic Hok Hmode Hinfo Hx Hy Hw Hh Hfw Hfh.
    eexists. split.
    + apply UpdateSprite_normal; eassumption.
    + rewrite dstrect_set_dstrect, srcrect_set_dstrect, srcrect_set_srcrect.
      simpl. repeat split; lia.
  - intros sprite at_offset Hok Hmode Hinfo Hx Hy.
    eexists. split.
    + apply (UpdateSprite_normal _ sprite _ Hok Hmode Hinfo);
        rewrite ?Hx, ?Hy; simpl; unfold small; lia.
    + rewrite dstrect_set_dstrect, srcrect_set_dstrect, srcrect_set_srcrect.
      rewrite Hx, Hy. split; reflexivity.
Qed.

(** C6, as the code has it.  For a configured sprite in NORMAL mode
    that lies fully outside the framebuffer, the destination rectangle
    is empty on one axis: x2 <= x1 or y2 <= y1.  The extent is not
    brought to zero; it is negative unless the sprite abuts the edge. *)
Theorem UpdateSprite_normal_offscreen_is_empty :
  forall fb (sprite : Sprite) pic,
    ok sprite = true -> mode sprite = MODE_NORMAL ->
    info sprite = Some pic ->
    small (x sprite) -> small (y sprite) ->
    small (w pic) -> small (h pic) ->
    0 <= width fb < 2 ^ 30 -> 0 <= height fb < 2 ^ 30 ->
    fully_outside fb sprite pic ->
    exists s',
      UpdateSprite fb sprite = Done s' /\
      (x2 (dstrect s') - x1 (dstrect s') <= 0 \/
       y2 (dstrect s') - y1 (dstrect s') <= 0).
Proof.
  intros fb sprite pic Hok Hmode Hinfo Hx Hy Hw Hh Hfw Hfh Hout.
  eexists. split.
  - apply UpdateSprite_normal; eassumption.
  - rewrite dstrect_set_dstrect. simpl.
    unfold fully_outside in Hout. lia.
Qed.

Lemma in_capacity (e : Engine) nsprite :
  nsprite < numsprites e -> (numsprites e <=? nsprite) = false.
Proof. intros. apply Z.leb_gt. assumption. Qed.

Lemma beyond_capacity (e : Engine) nsprite :
  numsprites e <= nsprite -> (numsprites e <=? nsprite) = true.
Proof. intros. apply Z.leb_le. assumption. Qed.

Lemma get_sprite_negative (e : Engine) nsprite :
  nsprite < 0 -> get_sprite e nsprite = Crash OutOfBounds.
Proof. apply load_negative. Qed.

Lemma CheckBaseObject_valid (e : Engine) t :
  CheckBaseObject e (Some t) t = (e, true).
Proof. unfold CheckBaseObject. destruct t; reflexivity. Qed.

Lemma ObjectType_eqb_eq a b : ObjectType_eqb a b = true -> a = b.
Proof. destruct a, b; simpl; congruence. Qed.

(** C3, on the code.  The check [nsprite >= engine->numsprites] lets every
    negative index through: with live object arguments, each per-sprite
    call then reaches [engine->sprites[nsprite]] out of bounds.  It does
    not return the failure sentinel, and it records no error. *)
Theorem negative_index_is_not_rejected :
  forall (e : Engine) (op : operation) (nsprite : Z),
    sprite_index op = Some nsprite ->
    nsprite < 0 -> 0 <= numsprites e ->
    valid_references op = true ->
    call e op = Crash OutOfBounds.
Proof.
  intros e op nsprite Hi Hneg Hnum Hv.
  assert (Hc : (numsprites e <=? nsprite) = false) by (apply in_capacity; lia).
  destruct op; simpl in Hi; inversion Hi; subst; simpl in Hv; simpl;
    unfold TLN_ConfigSprite, TLN_SetSpriteSet, TLN_SetSpriteFlags,
      TLN_SetSpritePosition, TLN_SetSpritePicture, TLN_SetSpritePalette,
      TLN_GetSpritePalette, TLN_SetSpriteBlendMode, TLN_SetSpriteScaling,
      TLN_ResetSpriteScaling, TLN_SetSpriteRotation,
      TLN_ResetSpriteRotation, TLN_GetSpritePicture,
      TLN_EnableSpriteCollision, TLN_GetSpriteCollision, TLN_DisableSprite;
    rewrite Hc;
    try (destruct spriteset_ as [ss|]; [|discriminate];
         apply ObjectType_eqb_eq in Hv;
         unfold fmap, option_fmap, option_map; rewrite Hv,
           CheckBaseObject_valid; simpl);
    try (destruct palette_ as [pal|]; [|discriminate];
         apply ObjectType_eqb_eq in Hv;
         unfold fmap, option_fmap, option_map; rewrite Hv,
           CheckBaseObject_valid; simpl);
    rewrite (get_sprite_negative _ _ Hneg); reflexivity.
Qed.

(** An index at or beyond the capacity is rejected by every call:
    failure sentinel, index error recorded, sprites untouched. *)
Lemma index_beyond_capacity_is_rejected :
  forall (e : Engine) (op : operation) (nsprite : Z),
    sprite_index op = Some nsprite ->
    numsprites e <= nsprite ->
    exists r,
      call e op = Done (TLN_SetLastError e TLN_ERR_IDX_SPRITE, r) /\
      is_failure r = true.
Proof.
  intros e op nsprite Hi Hge.
  pose proof (beyond_capacity _ _ Hge) as Hc.
  destruct op; simpl in Hi; inversion Hi; subst; simpl;
    unfold TLN_ConfigSprite, TLN_SetSpriteSet, TLN_SetSpriteFlags,
      TLN_SetSpritePosition, TLN_SetSpritePicture, TLN_SetSpritePalette,
      TLN_GetSpritePalette, TLN_SetSpriteBlendMode, TLN_SetSpriteScaling,
      TLN_ResetSpriteScaling, TLN_SetSpriteRotation,
      TLN_ResetSpriteRotation, TLN_GetSpritePicture,
      TLN_EnableSpriteCollision, TLN_GetSpriteCollision, TLN_DisableSprite;
    rewrite Hc; simpl; eexists; split; reflexivity.
Qed.

Lemma get_sprite_lookup (e : Engine) nsprite (sprite : Sprite) :
  0 <= nsprite -> sprites e !! Z.to_nat nsprite = Some sprite ->
  get_sprite e nsprite = Done sprite.
Proof. apply load_lookup. Qed.

Lemma put_sprite_lookup (e : Engine) nsprite (sprite s' : Sprite) :
  0 <= nsprite -> sprites e !! Z.to_nat nsprite = Some sprite ->
  put_sprite e nsprite s' =
  Done (set_sprites (<[Z.to_nat nsprite := s']> (sprites e)) e).
Proof.
  intros Hn Hl. unfold put_sprite.
  rewrite (store_lookup _ _ _ _ Hn Hl). reflexivity.
Qed.

(** C10.  For a valid index whose sprite has [ok] false,
    TLN_SetSpritePosition returns true and records no error, stores x and
    y, and leaves both rectangles and every other field of the record as
    they were: UpdateSprite returns at once whenever [ok] is false, for
    every caller. *)
Theorem SetSpritePosition_not_ok_stores_position_only :
  (forall (e : Engine) nsprite px py (sprite : Sprite),
      0 <= nsprite < numsprites e ->
      sprites e !! Z.to_nat nsprite = Some sprite ->
      ok sprite = false ->
      exists s',
        TLN_SetSpritePosition e nsprite px py =
        Done (TLN_SetLastError
                (set_sprites (<[Z.to_nat nsprite := s']> (sprites e)) e)
                TLN_ERR_OK, true) /\
        x s' = px /\ y s' = py /\
        srcrect s' = srcrect sprite /\ dstrect s' = dstrect sprite /\
        same_but_position sprite s')
  /\
  (forall fb (sprite : Sprite),
      ok sprite = false -> UpdateSprite fb sprite = Done sprite).
Proof.
  split; [|apply @UpdateSprite_not_ok].
  intros e nsprite px py sprite [Hlo Hhi] Hl Hok.
  exists (set_y py (set_x px sprite)). split.
  - unfold TLN_SetSpritePosition.
    rewrite (in_capacity _ _ Hhi), (get_sprite_lookup _ _ _ Hlo Hl). simpl.
    rewrite UpdateSprite_not_ok by (destruct sprite; exact Hok). simpl.
    rewrite (put_sprite_lookup _ _ _ _ Hlo Hl). reflexivity.
  - destruct sprite; simpl. unfold same_but_position; simpl.
    repeat split; reflexivity.
Qed.

Lemma regeometry_refl (s : Sprite) : regeometry s s.
Proof. exists (srcrect s), (dstrect s), (dx s), (dy s). destruct s; reflexivity. Qed.

Lemma regeometry_normal src dst (s : Sprite) :
  regeometry s (set_dstrect dst (set_srcrect src s)).
Proof. exists src, dst, (dx s), (dy s). destruct s; reflexivity. Qed.

Lemma regeometry_scaling src dst a b (s : Sprite) :
  regeometry s (set_dy b (set_dx a (set_dstrect dst (set_srcrect src s)))).
Proof. exists src, dst, a, b. reflexivity. Qed.

Lemma regeometry_transform src (s : Sprite) : regeometry s (set_srcrect src s).
Proof. exists src, (dstrect s), (dx s), (dy s). destruct s; reflexivity. Qed.

Lemma yields_Done R (s s' : Sprite) : R s s' -> yields R s (Done s').
Proof. intros H t Ht. inversion Ht; subst. assumption. Qed.

Lemma yields_bind {A} R (s : Sprite) (m : outcome A) k :
  (forall a, yields R s (k a)) -> yields R s (bind m k).
Proof. intros H. destruct m; simpl; [apply H|]. intros t Ht. discriminate. Qed.

Lemma yields_pair {A B} R (s : Sprite) (p : A * B) k :
  (forall a b, yields R s (k a b)) -> yields R s (let '(a, b) := p in k a b).
Proof. intros H. destruct p. apply H. Qed.

Lemma UpdateSprite_regeometry fb (s s' : Sprite) :
  UpdateSprite fb s = Done s' -> regeometry s s'.
Proof.
  revert s'. change (yields regeometry s (UpdateSprite fb s)).
  unfold UpdateSprite.
  destruct (negb (ok s)); [apply yields_Done, regeometry_refl|].
  apply yields_bind; intros pic.
  destruct (mode s).
  - do 4 (apply yields_pair; intros ? ?).
    apply yields_Done, regeometry_normal.
  - do 2 (apply yields_bind; intros ?).
    do 4 (apply yields_pair; intros ? ?).
    apply yields_Done, regeometry_scaling.
  - apply yields_Done, regeometry_transform.
Qed.

(** Outside SCALING mode the update has no way to fail once the picture
    is there. *)
Lemma UpdateSprite_returns fb (s : Sprite) pic :
  info s = Some pic -> mode s <> MODE_SCALING ->
  exists s', UpdateSprite fb s = Done s'.
Proof.
  intros Hinfo Hmode. unfold UpdateSprite. rewrite Hinfo.
  destruct (negb (ok s)); [eexists; reflexivity|]. cbn [bind deref].
  destruct (mode s); [|congruence|eexists; reflexivity].
  repeat match goal with
         | |- context [if ?c then ?a else ?b] =>
             let p := fresh "p" in
             generalize (if c then a else b); intros p; destruct p
         end.
  eexists; reflexivity.
Qed.

Lemma lookup_head {A} (v : A) tl : load (v :: tl) 0 = Done v.
Proof. apply load_lookup; [lia|reflexivity]. Qed.

Lemma keeps_refl (s : Sprite) : keeps s s.
Proof. repeat split. Qed.

Lemma keeps_trans (a b c : Sprite) : keeps a b -> keeps b c -> keeps a c.
Proof.
  unfold keeps. intros (H1 & H2 & H3) (H4 & H5 & H6).
  repeat split; congruence.
Qed.

Create HintDb keeps.

Lemma keeps_set_info v (s t : Sprite) : keeps s t -> keeps s (set_info v t).
Proof. destruct t; exact id. Qed.
Lemma keeps_set_pixels v (s t : Sprite) : keeps s t -> keeps s (set_pixels v t).
Proof. destruct t; exact id. Qed.
Lemma keeps_set_pitch v (s t : Sprite) : keeps s t -> keeps s (set_pitch v t).
Proof. destruct t; exact id. Qed.
Lemma keeps_set_num v (s t : Sprite) : keeps s t -> keeps s (set_num v t).
Proof. destruct t; exact id. Qed.
Lemma keeps_set_index v (s t : Sprite) : keeps s t -> keeps s (set_index v t).
Proof. destruct t; exact id. Qed.
Lemma keeps_set_x v (s t : Sprite) : keeps s t -> keeps s (set_x v t).
Proof. destruct t; exact id. Qed.
Lemma keeps_set_y v (s t : Sprite) : keeps s t -> keeps s (set_y v t).
Proof. destruct t; exact id. Qed.
Lemma keeps_set_dx v (s t : Sprite) : keeps s t -> keeps s (set_dx v t).
Proof. destruct t; exact id. Qed.
Lemma keeps_set_dy v (s t : Sprite) : keeps s t -> keeps s (set_dy v t).
Proof. destruct t; exact id. Qed.
Lemma keeps_set_sx v (s t : Sprite) : keeps s t -> keeps s (set_sx v t).
Proof. destruct t; exact id. Qed.
Lemma keeps_set_sy v (s t : Sprite) : keeps s t -> keeps s (set_sy v t).
Proof. destruct t; exact id. Qed.
Lemma keeps_set_srcrect v (s t : Sprite) : keeps s t -> keeps s (set_srcrect v t).
Proof. destruct t; exact id. Qed.
Lemma keeps_set_dstrect v (s t : Sprite) : keeps s t -> keeps s (set_dstrect v t).
Proof. destruct t; exact id. Qed.
Lemma keeps_set_mode v (s t : Sprite) : keeps s t -> keeps s (set_mode v t).
Proof. destruct t; exact id. Qed.
Lemma keeps_set_blend v (s t : Sprite) : keeps s t -> keeps s (set_blend v t).
Proof. destruct t; exact id. Qed.
Lemma keeps_set_flags v (s t : Sprite) : keeps s t -> keeps s (set_flags v t).
Proof. destruct t; exact id. Qed.
Lemma keeps_set_draw v (s t : Sprite) : keeps s t -> keeps s (set_draw v t).
Proof. destruct t; exact id. Qed.
Lemma keeps_set_blitter v (s t : Sprite) : keeps s t -> keeps s (set_blitter v t).
Proof. destruct t; exact id. Qed.
Lemma keeps_set_do_collision v (s t : Sprite) : keeps s t -> keeps s (set_do_collision v t).
Proof. destruct t; exact id. Qed.
Lemma keeps_set_rotation_bitmap v (s t : Sprite) : keeps s t -> keeps s (set_rotation_bitmap v t).
Proof. destruct t; exact id. Qed.
#[local] Hint Resolve keeps_set_info keeps_set_pixels keeps_set_pitch keeps_set_num keeps_set_index keeps_set_x keeps_set_y keeps_set_dx keeps_set_dy keeps_set_sx keeps_set_sy keeps_set_srcrect keeps_set_dstrect keeps_set_mode keeps_set_blend keeps_set_flags keeps_set_draw keeps_set_blitter keeps_set_do_collision keeps_set_rotation_bitmap : keeps.


Lemma keeps_SelectBlitter (s t : Sprite) : keeps s t -> keeps s (SelectBlitter t).
Proof. unfold SelectBlitter. apply keeps_set_blitter. Qed.

Lemma regeometry_keeps (s s' : Sprite) : regeometry s s' -> keeps s s'.
Proof. intros (src & dst & a & b & ->). destruct s; repeat split. Qed.

Lemma keeps_UpdateSprite fb (s t t' : Sprite) :
  UpdateSprite fb t = Done t' -> keeps s t -> keeps s t'.
Proof.
  intros H Hk. eapply keeps_trans; [exact Hk|].
  apply regeometry_keeps. eapply UpdateSprite_regeometry; exact H.
Qed.

Lemma preserves_refl (e : Engine) : preserves e e.
Proof. intros i s' H. exists s'. split; [assumption|apply keeps_refl]. Qed.

Lemma preserves_trans (a b c : Engine) :
  preserves a b -> preserves b c -> preserves a c.
Proof.
  intros Hab Hbc i s'' H. destruct (Hbc i s'' H) as (s' & H' & K').
  destruct (Hab i s' H') as (s & H0 & K). exists s. split; [assumption|].
  eapply keeps_trans; eassumption.
Qed.

Lemma put_sprite_sprites (e e' : Engine) n (s' : Sprite) :
  put_sprite e n s' = Done e' ->
  sprites e' = <[Z.to_nat n := s']> (sprites e) /\
  numsprites e' = numsprites e /\ framebuffer e' = framebuffer e /\
  error e' = error e.
Proof.
  unfold put_sprite. intros H. returns H. inversion H; subst; clear H.
  apply store_Done in E. subst. repeat split.
Qed.

(** One slot rewritten: the others are as they were. *)
Lemma put_sprite_lookup_inv (e e' : Engine) n (s s' t' : Sprite) i :
  get_sprite e n = Done s -> put_sprite e n s' = Done e' ->
  sprites e' !! i = Some t' ->
  (i = Z.to_nat n /\ t' = s') \/ (i <> Z.to_nat n /\ sprites e !! i = Some t').
Proof.
  intros Hg Hp Hi.
  apply load_Done in Hg as [Hn Hg].
  apply put_sprite_sprites in Hp as (Hs & _). rewrite Hs in Hi.
  destruct (decide (Z.to_nat n = i)) as [<-|Hne].
  - rewrite list_lookup_insert_eq in Hi by (eapply lookup_lt_Some; eassumption).
    inversion Hi; subst. left. split; reflexivity.
  - rewrite list_lookup_insert_ne in Hi by assumption.
    right. split; [congruence|assumption].
Qed.

Lemma preserves_put (e e0 e' : Engine) n (s s' : Sprite) :
  sprites e0 = sprites e ->
  get_sprite e n = Done s -> put_sprite e0 n s' = Done e' ->
  keeps s s' -> preserves e e'.
Proof.
  intros He Hg Hp HR i t' Hi.
  assert (Hg0 : get_sprite e0 n = Done s)
    by (unfold get_sprite in *; rewrite He; exact Hg).
  destruct (put_sprite_lookup_inv _ _ _ _ _ _ _ Hg0 Hp Hi) as [[-> ->]|[_ H]].
  - apply load_Done in Hg as [_ Hg]. exists s. split; assumption.
  - rewrite He in H. exists t'. split; [assumption|apply keeps_refl].
Qed.

Lemma preserves_error (e e' : Engine) err :
  preserves e e' -> preserves e (TLN_SetLastError e' err).
Proof. exact id. Qed.

(** Most calls rewrite at most the record of their sprite, and leave
    its references alone. *)
Ltac preserving :=
  let H := fresh "H" in
  intros H; returns H; inversion H; subst; clear H;
  try apply preserves_error;
  try apply preserves_refl;
  try (eapply preserves_put; [reflexivity|eassumption..|];
       eauto 12 using keeps_refl, keeps_UpdateSprite, keeps_SelectBlitter
                with keeps).

Lemma SetSpriteFlags_preserves e n f e' r :
  TLN_SetSpriteFlags e n f = Done (e', r) -> preserves e e'.
Proof. unfold TLN_SetSpriteFlags. preserving. Qed.

Lemma SetSpritePosition_preserves e n px py e' r :
  TLN_SetSpritePosition e n px py = Done (e', r) -> preserves e e'.
Proof. unfold TLN_SetSpritePosition. preserving. Qed.

Lemma CheckBaseObject_sprites (e e' : Engine) tag t b :
  CheckBaseObject e tag t = (e', b) ->
  sprites e' = sprites e /\ numsprites e' = numsprites e /\
  framebuffer e' = framebuffer e.
Proof.
  unfold CheckBaseObject. destruct tag as [t0|].
  - destruct (ObjectType_eqb t0 t); intros H; inversion H; repeat split.
  - intros H; inversion H; repeat split.
Qed.

Lemma SetSpritePicture_preserves e n i e' r :
  TLN_SetSpritePicture e n i = Done (e', r) -> preserves e e'.
Proof.
  unfold TLN_SetSpritePicture. intros H. returns H; inversion H; subst; clear H.
  - apply preserves_error, preserves_refl.
  - apply CheckBaseObject_sprites in E1 as (Hs & _).
    intros j s' Hj. simpl in Hj. rewrite Hs in Hj. exists s'.
    split; [assumption|apply keeps_refl].
  - apply CheckBaseObject_sprites in E1 as (Hs & Hn & Hf).
    apply preserves_error.
    eapply preserves_put; [exact Hs|eassumption..|].
    eauto 12 using keeps_refl, keeps_UpdateSprite with keeps.
Qed.

Lemma GetSpritePalette_preserves e n e' r :
  TLN_GetSpritePalette e n = Done (e', r) -> preserves e e'.
Proof. unfold TLN_GetSpritePalette. preserving. Qed.

Lemma SetSpriteBlendMode_preserves e n m f e' r :
  TLN_SetSpriteBlendMode e n m f = Done (e', r) -> preserves e e'.
Proof. unfold TLN_SetSpriteBlendMode. preserving. Qed.

Lemma SetSpriteScaling_preserves e n a b e' r :
  TLN_SetSpriteScaling e n a b = Done (e', r) -> preserves e e'.
Proof. unfold TLN_SetSpriteScaling. preserving. Qed.

Lemma ResetSpriteScaling_preserves e n e' r :
  TLN_ResetSpriteScaling e n = Done (e', r) -> preserves e e'.
Proof. unfold TLN_ResetSpriteScaling. preserving. Qed.

(** "borra anterior": the engine comes back with its sprites as they
    were, whatever TLN_DeleteBitmap recorded. *)
Lemma release_engine (e : Engine) (p : bitmap_ptr) r :
  (match p with
   | NullBitmap => Done (e, NullBitmap)
   | LiveBitmap b => TLN_DeleteBitmap e (LiveBitmap b)
   | FreedBitmap => TLN_DeleteBitmap e FreedBitmap
   end) = Done r ->
  sprites (fst r) = sprites e /\ numsprites (fst r) = numsprites e /\
  framebuffer (fst r) = framebuffer e.
Proof.
  destruct p; simpl; intros H; inversion H; subst; repeat split.
Qed.

Lemma SetSpriteRotation_preserves e n a e' r :
  TLN_SetSpriteRotation e n a = Done (e', r) -> preserves e e'.
Proof.
  unfold TLN_SetSpriteRotation. intros H. returns H; inversion H; subst; clear H.
  - apply preserves_error, preserves_refl.
  - apply release_engine in E1 as (Hs & _).
    eapply preserves_put; [|eassumption..|];
      [exact Hs|eauto 12 using keeps_refl with keeps].
Qed.

Lemma ResetSpriteRotation_preserves e n e' r :
  TLN_ResetSpriteRotation e n = Done (e', r) -> preserves e e'.
Proof.
  unfold TLN_ResetSpriteRotation. intros H. returns H; inversion H; subst; clear H.
  - apply preserves_error, preserves_refl.
  - apply release_engine in E1 as (Hs & _).
    eapply preserves_put; [|eassumption..|];
      [exact Hs|eauto 12 using keeps_refl with keeps].
Qed.

Lemma GetSpritePicture_preserves e n e' r :
  TLN_GetSpritePicture e n = Done (e', r) -> preserves e e'.
Proof. unfold TLN_GetSpritePicture. preserving. Qed.

Lemma GetAvailableSprite_preserves e e' r :
  TLN_GetAvailableSprite e = Done (e', r) -> preserves e e'.
Proof. unfold TLN_GetAvailableSprite. preserving. Qed.

Lemma EnableSpriteCollision_preserves e n b e' r :
  TLN_EnableSpriteCollision e n b = Done (e', r) -> preserves e e'.
Proof. unfold TLN_EnableSpriteCollision. preserving. Qed.

Lemma GetSpriteCollision_preserves e n e' r :
  TLN_GetSpriteCollision e n = Done (e', r) -> preserves e e'.
Proof. unfold TLN_GetSpriteCollision. preserving. Qed.

(** C8, as the code has it.  For a valid index and a valid spriteset,
    TLN_SetSpriteSet is the rectangle update of the record it has
    prepared, written back to the slot: whenever it returns, in any mode,
    it has returned true, assigned the spriteset, adopted the spriteset's
    palette when the spriteset has one, whatever palette the sprite had
    (the sprite's own palette stays only when the spriteset has none),
    recomputed [ok] and selected picture 0.  It returns for every sprite
    outside SCALING mode; in SCALING mode the update divides by the scaled
    extent, and the call returns exactly when the update does. *)
Theorem SetSpriteSet_adopts_the_spriteset_palette :
  forall (e : Engine) nsprite ss bitmap pic tl (sprite : Sprite),
    0 <= nsprite < numsprites e ->
    sprites e !! Z.to_nat nsprite = Some sprite ->
    ss_type ss = OT_SPRITESET -> ss_bitmap ss = Some bitmap ->
    ss_data ss = pic :: tl ->
    let adopted := match ss_palette ss with
                   | Some pal => Some pal
                   | None => palette sprite
                   end in
    (forall (e' : Engine) b,
        TLN_SetSpriteSet e nsprite (Some ss) = Done (e', b) ->
        b = true /\ error e' = TLN_ERR_OK /\
        exists s' : Sprite,
          sprites e' = <[Z.to_nat nsprite := s']> (sprites e) /\
          spriteset s' = Some ss /\ palette s' = adopted /\
          ok s' = non_null adopted /\
          index s' = 0 /\ info s' = Some pic /\ mode s' = mode sprite)
    /\
    (exists selected : Sprite,
        spriteset selected = Some ss /\ palette selected = adopted /\
        ok selected = non_null adopted /\
        index selected = 0 /\ info selected = Some pic /\
        mode selected = mode sprite /\
        x selected = x sprite /\ y selected = y sprite /\
        sx selected = sx sprite /\ sy selected = sy sprite /\
        TLN_SetSpriteSet e nsprite (Some ss) =
        LET s' <- UpdateSprite (framebuffer e) selected IN
        Done (TLN_SetLastError
                (set_sprites (<[Z.to_nat nsprite := s']> (sprites e)) e)
                TLN_ERR_OK, true))
    /\
    (mode sprite <> MODE_SCALING ->
     exists e' : Engine, TLN_SetSpriteSet e nsprite (Some ss) = Done (e', true)).
Proof.
  intros e nsprite ss bitmap pic tl sprite [Hlo Hhi] Hl Hty Hbm Hdata pal'.
  set (s1 := set_num nsprite
               (set_ok (non_null pal')
                  (set_palette pal'
                     (set_pitch (bm_pitch bitmap)
                        (set_spriteset (Some ss) sprite))))).
  set (s2 := set_pixels (Some {| base := bm_data bitmap; at_ := offset pic |})
               (set_info (Some pic) (set_index 0 s1))).
  assert (Hcall :
    TLN_SetSpriteSet e nsprite (Some ss) =
    LET s' <- UpdateSprite (framebuffer e) s2 IN
    Done (TLN_SetLastError
            (set_sprites (<[Z.to_nat nsprite := s']> (sprites e)) e)
            TLN_ERR_OK, true)).
  { unfold TLN_SetSpriteSet.
    rewrite (in_capacity _ _ Hhi).
    unfold fmap, option_fmap, option_map. rewrite Hty, CheckBaseObject_valid.
    cbn [negb]. rewrite (get_sprite_lookup _ _ _ Hlo Hl).
    cbn [bind deref]. rewrite Hbm. cbn [bind deref].
    assert (Hs1 :
      set_num nsprite
        (set_ok
           (non_null (spriteset
                        match ss_palette ss with
                        | Some pal =>
                            set_palette (Some pal)
                              (set_pitch (bm_pitch bitmap)
                                 (set_spriteset (Some ss) sprite))
                        | None =>
                            set_pitch (bm_pitch bitmap)
                              (set_spriteset (Some ss) sprite)
                        end) &&
            non_null (palette
                        match ss_palette ss with
                        | Some pal =>
                            set_palette (Some pal)
                              (set_pitch (bm_pitch bitmap)
                                 (set_spriteset (Some ss) sprite))
                        | None =>
                            set_pitch (bm_pitch bitmap)
                              (set_spriteset (Some ss) sprite)
                        end))
           match ss_palette ss with
           | Some pal =>
               set_palette (Some pal)
                 (set_pitch (bm_pitch bitmap) (set_spriteset (Some ss) sprite))
           | None =>
               set_pitch (bm_pitch bitmap) (set_spriteset (Some ss) sprite)
           end) = s1).
    { unfold s1, pal'. destruct sprite, (ss_palette ss); reflexivity. }
    rewrite Hs1.
    rewrite (put_sprite_lookup _ _ _ s1 Hlo Hl). cbn [bind].
    unfold TLN_SetSpritePicture.
    cbn [numsprites set_sprites]. rewrite (in_capacity _ _ Hhi).
    assert (Hl1 : sprites (set_sprites (<[Z.to_nat nsprite := s1]> (sprites e)) e)
                  !! Z.to_nat nsprite = Some s1).
    { cbn [sprites set_sprites]. apply list_lookup_insert_eq.
      eapply lookup_lt_Some; exact Hl. }
    rewrite (get_sprite_lookup _ _ _ Hlo Hl1). cbn [bind].
    assert (Hss : spriteset s1 = Some ss) by (destruct sprite; reflexivity).
    rewrite Hss. unfold fmap, option_fmap, option_map.
    rewrite Hty, CheckBaseObject_valid. cbn [negb bind deref].
    rewrite Hdata, lookup_head. cbn [bind]. rewrite Hbm. cbn [bind deref].
    fold s2. cbn [framebuffer set_sprites].
    destruct (UpdateSprite (framebuffer e) s2) as [s'|f]; cbn [bind];
      [|reflexivity].
    rewrite (put_sprite_lookup _ _ _ s' Hlo Hl1). cbn [bind].
    cbn [sprites set_sprites]. rewrite list_insert_insert_eq. reflexivity. }
  split; [|split].
  - intros e' b Hrun. rewrite Hcall in Hrun.
    destruct (UpdateSprite (framebuffer e) s2) as [s'|f] eqn:Hs';
      cbn [bind] in Hrun; [|discriminate Hrun].
    inversion Hrun; subst e' b; clear Hrun.
    split; [reflexivity|]. split; [reflexivity|].
    exists s'. split; [reflexivity|].
    apply UpdateSprite_regeometry in Hs' as (src & dst & a & b & ->).
    unfold s2, s1. destruct sprite; cbn. repeat split; reflexivity.
  - exists s2. unfold s2, s1.
    repeat (split; [destruct sprite; reflexivity|]). exact Hcall.
  - intros Hmode.
    destruct (UpdateSprite_returns (framebuffer e) s2 pic) as [s' Hs'].
    { destruct sprite; reflexivity. }
    { destruct sprite; exact Hmode. }
    rewrite Hcall, Hs'. cbn [bind]. eexists. reflexivity.
Qed.

Lemma wrap_is_int z : is_int (wrap z).
Proof.
  unfold is_int, wrap, INT_MIN, INT_MAX.
  pose proof (Z.mod_pos_bound (z + 2 ^ 31) (2 ^ 32) ltac:(lia)). lia.
Qed.

Lemma sub_diag z : sub z z = 0.
Proof. unfold sub. rewrite Z.sub_diag. reflexivity. Qed.

Lemma add_0_r_wrapped a b : add (add a b) 0 = add a b.
Proof.
  unfold add at 1. rewrite Z.add_0_r. apply wrap_small, wrap_is_int.
Qed.

(** The scaled size truncates to zero: the step computation divides by a
    zero destination span. *)
Lemma UpdateSprite_scaling_zero_span fb (sprite : Sprite) pic :
  ok sprite = true -> mode sprite = MODE_SCALING -> info sprite = Some pic ->
  int_of_float (fmul (float_of_int (w pic)) (sx sprite)) = 0 ->
  UpdateSprite fb sprite = Crash DivisionByZero.
Proof.
  intros Hok Hmode Hinfo Hw. unfold UpdateSprite.
  rewrite Hok, Hinfo, Hmode. cbn [negb bind deref]. rewrite Hw.
  cbn [x1 x2 y1 y2].
  rewrite add_0_r_wrapped, sub_diag. reflexivity.
Qed.

Lemma div_Done a b q : div a b = Done q -> b <> 0 /\ q = Z.quot a b.
Proof.
  unfold div. destruct (Z.eqb_spec b 0); [discriminate|].
  destruct ((a =? INT_MIN) && (b =? -1)); [discriminate|].
  intros H; inversion H; subst. split; [assumption|reflexivity].
Qed.

Lemma dx_regeometry_scaling src dst a b (s : Sprite) :
  dx (set_dy b (set_dx a (set_dstrect dst (set_srcrect src s)))) = a /\
  dy (set_dy b (set_dx a (set_dstrect dst (set_srcrect src s)))) = b.
Proof. destruct s; split; reflexivity. Qed.

(** In SCALING mode the update returns only when both destination spans
    are other than zero, and the steps are then the quotients of the
    fixed-point source spans by the destination spans. *)
Lemma UpdateSprite_scaling_steps fb (sprite s' : Sprite) pic :
  ok sprite = true -> mode sprite = MODE_SCALING -> info sprite = Some pic ->
  UpdateSprite fb sprite = Done s' ->
  let w_ := int_of_float (fmul (float_of_int (w pic)) (sx sprite)) in
  let h_ := int_of_float (fmul (float_of_int (h pic)) (sy sprite)) in
  let dx1 := add (x sprite) (shr (sub (w pic) w_) 1) in
  let dy1 := add (y sprite) (shr (sub (h pic) h_) 1) in
  let dstw := sub (add dx1 w_) dx1 in
  let dsth := sub (add dy1 h_) dy1 in
  let srcw := sub (int2fix (w pic)) (int2fix 0) in
  let srch := sub (int2fix (h pic)) (int2fix 0) in
  dstw <> 0 /\ dsth <> 0 /\
  dx s' = Z.quot srcw dstw /\ dy s' = Z.quot srch dsth.
Proof.
  intros Hok Hmode Hinfo H w_ h_ dx1 dy1 dstw dsth srcw srch.
  revert s' H.
  change (yields (fun _ s' => dstw <> 0 /\ dsth <> 0 /\
                              dx s' = Z.quot srcw dstw /\
                              dy s' = Z.quot srch dsth)
                 sprite (UpdateSprite fb sprite)).
  unfold UpdateSprite.
  rewrite Hok, Hinfo, Hmode. cbn [negb bind deref x1 x2 y1 y2].
  fold w_ h_. fold dx1 dy1. fold dstw dsth srcw srch.
  destruct (div srcw dstw) as [dx_|] eqn:Ex; [|intros ? ?; discriminate].
  destruct (div srch dsth) as [dy_|] eqn:Ey; [|intros ? ?; discriminate].
  cbn [bind].
  apply div_Done in Ex as [Hx ->]. apply div_Done in Ey as [Hy ->].
  do 4 (apply yields_pair; intros ? ?).
  apply yields_Done.
  rewrite (proj1 (dx_regeometry_scaling _ _ _ _ _)),
    (proj2 (dx_regeometry_scaling _ _ _ _ _)).
  repeat split; assumption.
Qed.

(** C4, on the code.  TLN_SetSpriteScaling stores the factors and the mode
    and recomputes the rectangles without looking at the scaled size: for
    a configured sprite whose scaled width truncates to zero, the step
    computation divides by a destination span of zero.  No guard, no
    rejection, no return. *)
Theorem SetSpriteScaling_zero_span_divides :
  forall (e : Engine) nsprite sx_ sy_ (sprite : Sprite) pic,
  0 <= nsprite < numsprites e ->
  sprites e !! Z.to_nat nsprite = Some sprite ->
  ok sprite = true -> info sprite = Some pic ->
  int_of_float (fmul (float_of_int (w pic)) sx_) = 0 ->
  TLN_SetSpriteScaling e nsprite sx_ sy_ = Crash DivisionByZero.
Proof.
  intros e nsprite sx_ sy_ sprite pic [Hlo Hhi] Hl Hok Hinfo Hw.
  unfold TLN_SetSpriteScaling.
  rewrite (in_capacity _ _ Hhi), (get_sprite_lookup _ _ _ Hlo Hl). cbn [bind].
  rewrite (UpdateSprite_scaling_zero_span _ _ pic); [reflexivity|..];
    destruct sprite; first [assumption|reflexivity].
Qed.

Lemma div_positive a b : 0 < b -> div a b = Done (Z.quot a b).
Proof.
  intros Hb. unfold div.
  destruct (Z.eqb_spec b 0); [lia|].
  destruct (Z.eqb_spec b (-1)); [lia|].
  rewrite andb_false_r. reflexivity.
Qed.

Lemma Vector2DSet_positive (src dst : Point2D) len :
  0 < len -> exists v, Vector2DSet src dst len = Done v.
Proof.
  intros Hlen. unfold Vector2DSet.
  rewrite !div_positive by assumption. eexists; reflexivity.
Qed.

Lemma scan_row_null n srcptr xvect :
  (0 < n)%nat -> scan_row n None srcptr xvect = Crash NullPointer.
Proof. destruct n; [lia|reflexivity]. Qed.

Lemma scan_rows_null n row spr_w (sprite : Sprite) xvect yvect :
  (0 < n)%nat -> 0 < spr_w ->
  scan_rows n row spr_w sprite None xvect yvect = Crash NullPointer.
Proof.
  intros Hn Hw. destruct n; [lia|]. cbn [scan_rows].
  rewrite scan_row_null by lia. reflexivity.
Qed.

(** C5, on the code.  TLN_SetSpriteRotation does not look at what
    TLN_CreateBitmap returned: when the bitmap cannot be created, the
    first pixel of the scan is written through the null reference.  The
    call neither returns failure nor leaves the sprite as it was. *)
Theorem SetSpriteRotation_allocation_failure_dereferences_null :
  forall (e : Engine) nsprite angle (sprite : Sprite) pic,
    0 <= nsprite < numsprites e ->
    sprites e !! Z.to_nat nsprite = Some sprite ->
    rotation_bitmap sprite <> FreedBitmap ->
    info sprite = Some pic -> 0 < w pic -> 0 < h pic ->
    rotation_request (rotation_rect sprite (w pic) (h pic) angle) = None ->
    TLN_SetSpriteRotation e nsprite angle = Crash NullPointer.
Proof.
  intros e nsprite angle sprite pic [Hlo Hhi] Hl Hfree Hinfo Hw Hh Halloc.
  unfold TLN_SetSpriteRotation.
  rewrite (in_capacity _ _ Hhi), (get_sprite_lookup _ _ _ Hlo Hl). cbn [bind].
  assert (Hrel : exists r,
             match rotation_bitmap sprite with
             | NullBitmap => Done (e, NullBitmap)
             | p => TLN_DeleteBitmap e p
             end = Done r).
  { destruct (rotation_bitmap sprite); [eexists; reflexivity..|congruence]. }
  destruct Hrel as [[e1 released] ->]. cbn [bind fst snd].
  assert (Hi : info (set_rotation_bitmap released sprite) = Some pic)
    by (destruct sprite; exact Hinfo).
  rewrite Hi. cbn [bind deref].
  assert (Hc : rotated_corners (set_rotation_bitmap released sprite)
                 (w pic) (h pic) angle
               = rotated_corners sprite (w pic) (h pic) angle)
    by (destruct sprite; reflexivity).
  rewrite Hc. unfold rotation_rect, rotation_request in Halloc.
  destruct (rotated_corners sprite (w pic) (h pic) angle) as [[[c0 c1] c2] c3].
  rewrite Halloc.
  match goal with
  | |- bind (Vector2DSet ?a ?b _) _ = _ =>
      destruct (Vector2DSet_positive a b (w pic) Hw) as [xv ->]
  end. cbn [bind].
  match goal with
  | |- bind (Vector2DSet ?a ?b _) _ = _ =>
      destruct (Vector2DSet_positive a b (h pic) Hh) as [yv ->]
  end. cbn [bind].
  rewrite scan_rows_null by lia. reflexivity.
Qed.






















(** *** Further properties of the calls *)

Lemma only_slot_refl n (e : Engine) : only_slot n e e.
Proof. repeat split. Qed.

Lemma only_slot_trans n (a b c : Engine) :
  only_slot n a b -> only_slot n b c -> only_slot n a c.
Proof.
  intros (H1 & H2 & H3 & H4) (K1 & K2 & K3 & K4).
  repeat split; try congruence.
  intros i Hi. rewrite K4, H4 by assumption. reflexivity.
Qed.

Lemma only_slot_error n (e e' : Engine) err :
  only_slot n e e' -> only_slot n e (TLN_SetLastError e' err).
Proof. exact id. Qed.

Lemma only_slot_put n (e e' : Engine) (s : Sprite) :
  put_sprite e n s = Done e' -> only_slot n e e'.
Proof.
  intros H. apply put_sprite_sprites in H as (Hs & Hn & Hf & _).
  repeat split; try assumption.
  - rewrite Hs. apply length_insert.
  - intros i Hi. rewrite Hs. apply list_lookup_insert_ne. congruence.
Qed.

Lemma only_slot_check n (e e' : Engine) tag t b :
  CheckBaseObject e tag t = (e', b) -> only_slot n e e'.
Proof.
  intros H. apply CheckBaseObject_sprites in H as (Hs & Hn & Hf).
  repeat split; try assumption; rewrite Hs; reflexivity.
Qed.

Ltac slot :=
  let H := fresh "H" in
  intros H; returns H; inversion H; subst; clear H;
  repeat match goal with
         | |- only_slot _ _ (TLN_SetLastError _ _) => apply only_slot_error
         | |- only_slot _ ?e ?e => apply only_slot_refl
         | H : put_sprite ?e _ _ = Done ?e' |- only_slot _ ?e ?e' =>
             exact (only_slot_put _ _ _ _ H)
         | H : CheckBaseObject ?e _ _ = (?e', _) |- only_slot _ ?e ?e' =>
             exact (only_slot_check _ _ _ _ _ _ H)
         | H : CheckBaseObject ?e _ _ = (?e0, _) |- only_slot _ ?e ?e' =>
             apply (only_slot_trans _ _ _ _ (only_slot_check _ _ _ _ _ _ H))
         end.

Lemma SetSpriteFlags_slot e n f e' r :
  TLN_SetSpriteFlags e n f = Done (e', r) -> only_slot n e e'.
Proof. unfold TLN_SetSpriteFlags. slot. Qed.

Lemma SetSpritePosition_slot e n px py e' r :
  TLN_SetSpritePosition e n px py = Done (e', r) -> only_slot n e e'.
Proof. unfold TLN_SetSpritePosition. slot. Qed.

Lemma SetSpritePicture_slot e n i e' r :
  TLN_SetSpritePicture e n i = Done (e', r) -> only_slot n e e'.
Proof. unfold TLN_SetSpritePicture. slot. Qed.

Lemma SetSpriteSet_slot e n ss e' r :
  TLN_SetSpriteSet e n ss = Done (e', r) -> only_slot n e e'.
Proof.
  unfold TLN_SetSpriteSet. intros H. returns H.
  - inversion H; subst. apply only_slot_error, only_slot_refl.
  - inversion H; subst. exact (only_slot_check _ _ _ _ _ _ E0).
  - apply SetSpritePicture_slot in H.
    eapply only_slot_trans; [exact (only_slot_check _ _ _ _ _ _ E0)|].
    eapply only_slot_trans; [exact (only_slot_put _ _ _ _ E5)|exact H].
Qed.

Lemma SetSpritePalette_slot e n p e' r :
  TLN_SetSpritePalette e n p = Done (e', r) -> only_slot n e e'.
Proof. unfold TLN_SetSpritePalette. slot. Qed.

Lemma ConfigSprite_slot e n ss f e' r :
  TLN_ConfigSprite e n ss f = Done (e', r) -> only_slot n e e'.
Proof.
  unfold TLN_ConfigSprite. intros H. returns H; destruct a as [e1 b].
  - eapply only_slot_trans;
      [eapply SetSpriteSet_slot; exact E|eapply SetSpriteFlags_slot; exact H].
  - inversion H; subst. eapply SetSpriteSet_slot; exact E.
Qed.

Lemma GetSpritePalette_slot e n e' r :
  TLN_GetSpritePalette e n = Done (e', r) -> only_slot n e e'.
Proof. unfold TLN_GetSpritePalette. slot. Qed.

Lemma SetSpriteBlendMode_slot e n m f e' r :
  TLN_SetSpriteBlendMode e n m f = Done (e', r) -> only_slot n e e'.
Proof. unfold TLN_SetSpriteBlendMode. slot. Qed.

Lemma SetSpriteScaling_slot e n a b e' r :
  TLN_SetSpriteScaling e n a b = Done (e', r) -> only_slot n e e'.
Proof. unfold TLN_SetSpriteScaling. slot. Qed.

Lemma ResetSpriteScaling_slot e n e' r :
  TLN_ResetSpriteScaling e n = Done (e', r) -> only_slot n e e'.
Proof. unfold TLN_ResetSpriteScaling. slot. Qed.

Lemma only_slot_release n (e : Engine) (p : bitmap_ptr) r :
  (match p with
   | NullBitmap => Done (e, NullBitmap)
   | LiveBitmap b => TLN_DeleteBitmap e (LiveBitmap b)
   | FreedBitmap => TLN_DeleteBitmap e FreedBitmap
   end) = Done r ->
  only_slot n e (fst r).
Proof.
  intros H. apply release_engine in H as (Hs & Hn & Hf).
  repeat split; try assumption; rewrite Hs; reflexivity.
Qed.

Ltac slot_released :=
  let H := fresh "H" in
  intros H; returns H; inversion H; subst; clear H;
  [apply only_slot_error, only_slot_refl|];
  match goal with
  | R : _ = Done ?r, U : put_sprite _ _ _ = Done ?e' |- only_slot _ _ ?e' =>
      apply (only_slot_trans _ _ _ _ (only_slot_release _ _ _ _ R));
      exact (only_slot_put _ _ _ _ U)
  end.

Lemma SetSpriteRotation_slot e n a e' r :
  TLN_SetSpriteRotation e n a = Done (e', r) -> only_slot n e e'.
Proof. unfold TLN_SetSpriteRotation. slot_released. Qed.

Lemma ResetSpriteRotation_slot e n e' r :
  TLN_ResetSpriteRotation e n = Done (e', r) -> only_slot n e e'.
Proof. unfold TLN_ResetSpriteRotation. slot_released. Qed.

Lemma GetSpritePicture_slot e n e' r :
  TLN_GetSpritePicture e n = Done (e', r) -> only_slot n e e'.
Proof. unfold TLN_GetSpritePicture. slot. Qed.

Lemma EnableSpriteCollision_slot e n b e' r :
  TLN_EnableSpriteCollision e n b = Done (e', r) -> only_slot n e e'.
Proof. unfold TLN_EnableSpriteCollision. slot. Qed.

Lemma GetSpriteCollision_slot e n e' r :
  TLN_GetSpriteCollision e n = Done (e', r) -> only_slot n e e'.
Proof. unfold TLN_GetSpriteCollision. slot. Qed.

Lemma DisableSprite_slot e n e' r :
  TLN_DisableSprite e n = Done (e', r) -> only_slot n e e'.
Proof. unfold TLN_DisableSprite. slot. Qed.

(** *** The calls that write [ok] *)

Lemma preserves_tracks w (e e' : Engine) :
  (forall i, w i = None) -> preserves e e' -> tracks w e e'.
Proof.
  intros Hw H i s' Hi. destruct (H i s' Hi) as (s & Hs & K).
  exists s. split; [assumption|]. rewrite Hw. exact K.
Qed.

Lemma tracks_preserves w (e e1 e' : Engine) :
  tracks w e e1 -> preserves e1 e' -> tracks w e e'.
Proof.
  intros H1 H2 i s'' Hi.
  destruct (H2 i s'' Hi) as (s' & Hs' & (K1 & K2 & K3)).
  destruct (H1 i s' Hs') as (s & Hs & R).
  exists s. split; [assumption|].
  destruct (w i) as [[|]|].
  - destruct R as (D1 & D2 & D3). unfold disabled. repeat split; congruence.
  - unfold recomputed in *. congruence.
  - eapply keeps_trans; [exact R|repeat split; assumption].
Qed.

Lemma tracks_put w (e e0 e' : Engine) n (s s' : Sprite) :
  sprites e0 = sprites e ->
  get_sprite e n = Done s -> put_sprite e0 n s' = Done e' ->
  (forall i, i <> Z.to_nat n -> w i = None) ->
  match w (Z.to_nat n) with
  | None => keeps s s'
  | Some false => recomputed s'
  | Some true => disabled s s'
  end ->
  tracks w e e'.
Proof.
  intros He Hg Hp Hw HR i t' Hi.
  assert (Hg0 : get_sprite e0 n = Done s)
    by (unfold get_sprite in *; rewrite He; exact Hg).
  destruct (put_sprite_lookup_inv _ _ _ _ _ _ _ Hg0 Hp Hi) as [[-> ->]|[Hne H]].
  - apply load_Done in Hg as [_ Hg]. exists s. split; assumption.
  - rewrite He in H. exists t'. split; [assumption|].
    rewrite Hw by assumption. apply keeps_refl.
Qed.

Lemma tracks_error w (e e' : Engine) err :
  tracks w e e' -> tracks w e (TLN_SetLastError e' err).
Proof. exact id. Qed.

Lemma recomputed_set_ok (s : Sprite) :
  recomputed (set_ok (non_null (spriteset s) && non_null (palette s)) s).
Proof. destruct s; reflexivity. Qed.

Lemma recomputed_set_num v (s : Sprite) : recomputed s -> recomputed (set_num v s).
Proof. destruct s; exact id. Qed.

Lemma disabled_set_ok (s : Sprite) : disabled s (set_ok false s).
Proof. destruct s; repeat split. Qed.

(** Which slot a call writes the flag of. *)
Lemma at_slot_beyond cap n i :
  (cap <=? n) = true -> at_slot cap n i = false.
Proof.
  intros H. apply Z.leb_le in H. unfold at_slot.
  destruct (Z.ltb_spec n cap); [lia|]. rewrite andb_false_r. reflexivity.
Qed.

Lemma at_slot_other cap n i : i <> Z.to_nat n -> at_slot cap n i = false.
Proof.
  intros H. unfold at_slot.
  destruct (Nat.eqb_spec (Z.to_nat n) i); [congruence|].
  apply andb_false_r.
Qed.

Lemma at_slot_same cap n :
  0 <= n -> (cap <=? n) = false -> at_slot cap n (Z.to_nat n) = true.
Proof.
  intros Hlo H. apply Z.leb_gt in H. unfold at_slot.
  destruct (Z.leb_spec 0 n); [|lia]. destruct (Z.ltb_spec n cap); [|lia].
  rewrite Nat.eqb_refl. reflexivity.
Qed.

(** What CheckBaseObject answers is [valid_references]. *)
Lemma CheckBaseObject_spriteset (e e' : Engine) n ss b :
  CheckBaseObject e (ss_type <$> ss) OT_SPRITESET = (e', b) ->
  valid_references (SetSpriteSet n ss) = b.
Proof.
  unfold CheckBaseObject. destruct ss as [ss|]; simpl.
  - destruct (ObjectType_eqb (ss_type ss) OT_SPRITESET);
      intros H; inversion H; reflexivity.
  - intros H; inversion H; reflexivity.
Qed.

Lemma CheckBaseObject_palette (e e' : Engine) n pal b :
  CheckBaseObject e (pal_type <$> pal) OT_PALETTE = (e', b) ->
  valid_references (SetSpritePalette n pal) = b.
Proof.
  unfold CheckBaseObject. destruct pal as [pal|]; simpl.
  - destruct (ObjectType_eqb (pal_type pal) OT_PALETTE);
      intros H; inversion H; reflexivity.
  - intros H; inversion H; reflexivity.
Qed.

Lemma SetSpriteSet_tracks e n ss e' r :
  TLN_SetSpriteSet e n ss = Done (e', r) ->
  tracks (fun i => writes_ok (numsprites e) i (SetSpriteSet n ss)) e e'.
Proof.
  unfold TLN_SetSpriteSet. intros H. returns H.
  - inversion H; subst; clear H.
    apply preserves_tracks; [|apply preserves_error, preserves_refl].
    intros i. unfold writes_ok. rewrite at_slot_beyond by assumption.
    reflexivity.
  - inversion H; subst; clear H.
    apply CheckBaseObject_spriteset with (n := n) in E0 as Hv.
    apply negb_true_iff in E1. subst b.
    apply CheckBaseObject_sprites in E0 as (Hs & _).
    apply preserves_tracks.
    + intros i. unfold writes_ok. rewrite Hv, andb_false_r. reflexivity.
    + intros j s' Hj. rewrite Hs in Hj. exists s'.
      split; [assumption|apply keeps_refl].
  - apply CheckBaseObject_spriteset with (n := n) in E0 as Hv.
    apply negb_false_iff in E1. subst b.
    apply CheckBaseObject_sprites in E0 as (Hs & Hn & _).
    apply SetSpritePicture_preserves in H.
    eapply tracks_preserves; [|exact H].
    unfold get_sprite in E2. rewrite Hs in E2.
    pose proof (load_Done _ _ _ E2) as [Hlo _].
    eapply tracks_put; [exact Hs|exact E2|exact E5| |].
    + intros i Hi. unfold writes_ok. rewrite at_slot_other by assumption.
      reflexivity.
    + unfold writes_ok. rewrite at_slot_same, Hv by assumption. cbn [andb].
      apply recomputed_set_num, recomputed_set_ok.
Qed.

Lemma SetSpritePalette_tracks e n p e' r :
  TLN_SetSpritePalette e n p = Done (e', r) ->
  tracks (fun i => writes_ok (numsprites e) i (SetSpritePalette n p)) e e'.
Proof.
  unfold TLN_SetSpritePalette. intros H. returns H; inversion H; subst; clear H.
  - apply preserves_tracks; [|apply preserves_error, preserves_refl].
    intros i. unfold writes_ok. rewrite at_slot_beyond by assumption.
    reflexivity.
  - apply CheckBaseObject_palette with (n := n) in E0 as Hv.
    apply negb_true_iff in E1. subst b.
    apply CheckBaseObject_sprites in E0 as (Hs & _).
    apply preserves_tracks.
    + intros i. unfold writes_ok. rewrite Hv, andb_false_r. reflexivity.
    + intros j s' Hj. rewrite Hs in Hj. exists s'.
      split; [assumption|apply keeps_refl].
  - apply CheckBaseObject_palette with (n := n) in E0 as Hv.
    apply negb_false_iff in E1. subst b.
    apply CheckBaseObject_sprites in E0 as (Hs & Hn & _).
    unfold get_sprite in E2. rewrite Hs in E2.
    pose proof (load_Done _ _ _ E2) as [Hlo _].
    apply tracks_error.
    eapply tracks_put; [exact Hs|exact E2|exact E3| |].
    + intros i Hi. unfold writes_ok. rewrite at_slot_other by assumption.
      reflexivity.
    + unfold writes_ok. rewrite at_slot_same, Hv by assumption. cbn [andb].
      apply recomputed_set_ok.
Qed.

Lemma ConfigSprite_tracks e n ss f e' r :
  TLN_ConfigSprite e n ss f = Done (e', r) ->
  tracks (fun i => writes_ok (numsprites e) i (ConfigSprite n ss f)) e e'.
Proof.
  unfold TLN_ConfigSprite. intros H. returns H.
  - destruct a as [e1 b]. apply SetSpriteSet_tracks in E.
    apply SetSpriteFlags_preserves in H.
    eapply tracks_preserves; [exact E|exact H].
  - inversion H; subst. destruct a as [e1 b].
    apply SetSpriteSet_tracks in E. exact E.
Qed.

Lemma DisableSprite_tracks e n e' r :
  TLN_DisableSprite e n = Done (e', r) ->
  tracks (fun i => writes_ok (numsprites e) i (DisableSprite n)) e e'.
Proof.
  unfold TLN_DisableSprite. intros H. returns H; inversion H; subst; clear H.
  - apply preserves_tracks; [|apply preserves_error, preserves_refl].
    intros i. unfold writes_ok. rewrite at_slot_beyond by assumption.
    reflexivity.
  - pose proof (load_Done _ _ _ E0) as [Hlo _].
    apply tracks_error.
    eapply tracks_put; [reflexivity|eassumption..| |].
    + intros i Hi. unfold writes_ok. rewrite at_slot_other by assumption.
      reflexivity.
    + unfold writes_ok. rewrite at_slot_same by assumption.
      apply disabled_set_ok.
Qed.

Lemma call_tracks e op e' r :
  call e op = Done (e', r) ->
  tracks (fun i => writes_ok (numsprites e) i op) e e'.
Proof.
  destruct op; simpl; unfold returning; intros H; returns H;
    inversion H; subst; clear H; destruct a as [e1 r1]; simpl;
    first [ eapply ConfigSprite_tracks; eassumption
          | eapply SetSpriteSet_tracks; eassumption
          | eapply SetSpritePalette_tracks; eassumption
          | eapply DisableSprite_tracks; eassumption
          | apply preserves_tracks; [reflexivity|];
            eauto using SetSpriteFlags_preserves,
              SetSpritePosition_preserves, SetSpritePicture_preserves,
              GetSpritePalette_preserves, SetSpriteBlendMode_preserves,
              SetSpriteScaling_preserves, ResetSpriteScaling_preserves,
              SetSpriteRotation_preserves, ResetSpriteRotation_preserves,
              GetSpritePicture_preserves, GetAvailableSprite_preserves,
              EnableSpriteCollision_preserves, GetSpriteCollision_preserves ].
Qed.

(** No call changes the capacity. *)
Lemma call_numsprites e op e' r :
  call e op = Done (e', r) -> numsprites e' = numsprites e.
Proof.
  intros H. destruct (sprite_index op) as [n|] eqn:Hi.
  - destruct op; simpl in Hi; inversion Hi; subst; simpl in H;
      unfold returning in H; returns H; inversion H; subst; clear H;
      destruct a as [e1 r1]; simpl;
      refine (proj1 (_ : only_slot n e e1));
      eauto using SetSpriteFlags_slot, SetSpritePosition_slot,
        SetSpritePicture_slot, SetSpriteSet_slot, SetSpritePalette_slot,
        ConfigSprite_slot, GetSpritePalette_slot, SetSpriteBlendMode_slot,
        SetSpriteScaling_slot, ResetSpriteScaling_slot,
        SetSpriteRotation_slot, ResetSpriteRotation_slot,
        GetSpritePicture_slot, EnableSpriteCollision_slot,
        GetSpriteCollision_slot, DisableSprite_slot.
  - destruct op; try discriminate Hi. simpl in H. unfold returning in H.
    returns H. inversion H; subst; clear H. destruct a as [e1 r1]. simpl.
    unfold TLN_GetAvailableSprite in E. returns E. inversion E; subst.
    reflexivity.
Qed.

Lemma run_tracks (ops : list operation) :
  forall (e e' : Engine) (d : nat -> bool),
    run e ops = Done e' ->
    (forall i s, sprites e !! i = Some s -> ok_unless (d i) s) ->
    forall i s, sprites e' !! i = Some s ->
      ok_unless (disabled_after (numsprites e) i ops (d i)) s.
Proof.
  induction ops as [|op ops IH]; intros e e' d Hrun Hall i s Hi;
    simpl in Hrun.
  - inversion Hrun; subst. apply Hall, Hi.
  - returns Hrun. destruct a as [e1 r]. simpl in Hrun.
    pose proof (call_tracks _ _ _ _ E) as Ht.
    pose proof (call_numsprites _ _ _ _ E) as Hn.
    cbn [disabled_after].
    pose (d' := fun j => match writes_ok (numsprites e) j op with
                         | Some b => b
                         | None => d j
                         end).
    change (ok_unless (disabled_after (numsprites e) i ops (d' i)) s).
    rewrite <- Hn. apply (IH e1 e' d' Hrun); [|exact Hi].
    intros j t Hj. destruct (Ht j t Hj) as (t0 & Ht0 & R).
    specialize (Hall j t0 Ht0). unfold d', ok_unless in *.
    destruct (writes_ok (numsprites e) j op) as [[|]|].
    + destruct R as (-> & _). rewrite andb_false_r. reflexivity.
    + unfold recomputed in R. rewrite R, andb_true_r. reflexivity.
    + destruct R as (-> & -> & ->). exact Hall.
Qed.

Lemma lookup_repeat {A} (v u : A) n i : repeat v n !! i = Some u -> u = v.
Proof.
  revert i. induction n as [|n IH]; intros [|i]; simpl; try discriminate.
  - intros H; inversion H; reflexivity.
  - apply IH.
Qed.

Lemma non_null_true {A} (p : option A) : non_null p = true <-> p <> None.
Proof. destruct p; simpl; split; congruence. Qed.

(** C2, as the code has it.  From the engine's start and after any
    sequence of calls that returns, a sprite's [ok] flag is set exactly
    when its spriteset and its palette are both assigned and the slot does
    not stand disabled: the last call that wrote the flag of that slot is
    not a TLN_DisableSprite that was let through.  So a set flag always
    has both references behind it, and the equivalence of the claim holds
    for every slot but those a TLN_DisableSprite has cleared since their
    references were last assigned (it clears [ok] and leaves the
    references). *)
Theorem ok_tracks_references_until_disabled :
  forall hres vres n (ops : list operation) (e' : Engine) i (s : Sprite),
    run (new_engine hres vres n) ops = Done e' ->
    sprites e' !! i = Some s ->
    ok s = non_null (spriteset s) && non_null (palette s) &&
           negb (disabled_after (Z.of_nat n) i ops false) /\
    ok_implies_assigned s /\
    (disabled_after (Z.of_nat n) i ops false = false -> ok_iff_assigned s) /\
    (disabled_after (Z.of_nat n) i ops false = true -> ok s = false).
Proof.
  intros hres vres n ops e' i s Hrun Hi.
  assert (H : ok_unless (disabled_after (Z.of_nat n) i ops false) s).
  { apply (run_tracks ops (new_engine hres vres n) e' (fun _ => false) Hrun);
      [|exact Hi].
    intros j t Hj. simpl in Hj. apply lookup_repeat in Hj as ->.
    reflexivity. }
  unfold ok_unless in H. split; [exact H|].
  unfold ok_implies_assigned, ok_iff_assigned. rewrite H.
  rewrite !andb_true_iff, !non_null_true.
  split; [tauto|]. split.
  - intros ->. cbn [negb]. tauto.
  - intros ->. apply andb_false_r.
Qed.

(** X3.  A call that takes a sprite index and returns has rewritten at
    most the record in that slot: every other slot, the capacity and the
    framebuffer are as they were. *)
Theorem call_rewrites_its_own_slot_only :
  forall (e e' : Engine) (op : operation) (n : Z) (r : retval),
    call e op = Done (e', r) -> sprite_index op = Some n ->
    only_slot n e e'.
Proof.
  intros e e' op n r H Hi.
  destruct op; simpl in Hi; inversion Hi; subst; simpl in H;
    unfold returning in H; returns H; inversion H; subst; clear H;
    destruct a as [e1 r1]; simpl;
    eauto using SetSpriteFlags_slot, SetSpritePosition_slot,
      SetSpritePicture_slot, SetSpriteSet_slot, SetSpritePalette_slot,
      ConfigSprite_slot, GetSpritePalette_slot, SetSpriteBlendMode_slot,
      SetSpriteScaling_slot, ResetSpriteScaling_slot, SetSpriteRotation_slot,
      ResetSpriteRotation_slot, GetSpritePicture_slot,
      EnableSpriteCollision_slot, GetSpriteCollision_slot, DisableSprite_slot.
Qed.

(** X4.  TLN_GetSpritePalette, TLN_GetSpritePicture,
    TLN_GetAvailableSprite and TLN_GetSpriteCollision change no sprite
    record, nor the capacity, nor the framebuffer. *)
Theorem queries_leave_every_sprite_alone :
  forall (e e' : Engine) (op : operation) (r : retval),
    call e op = Done (e', r) -> is_query op = true ->
    sprites e' = sprites e /\ numsprites e' = numsprites e /\
    framebuffer e' = framebuffer e.
Proof.
  intros e e' op r H Hq.
  destruct op; try discriminate Hq; simpl in H; unfold returning in H;
    returns H; inversion H; subst; clear H; destruct a as [e1 r1]; simpl.
  - unfold TLN_GetSpritePalette in E. returns E; inversion E; subst; repeat split.
  - unfold TLN_GetSpritePicture in E. returns E; inversion E; subst; repeat split.
  - unfold TLN_GetAvailableSprite in E. returns E; inversion E; subst; repeat split.
  - unfold TLN_GetSpriteCollision in E. returns E; inversion E; subst; repeat split.
Qed.

Lemma put_sprite_error (e e' : Engine) n (s : Sprite) :
  put_sprite e n s = Done e' -> error e' = error e.
Proof. intros H. apply put_sprite_sprites in H as (_ & _ & _ & He). exact He. Qed.

(** X5.  TLN_SetSpriteScaling, TLN_EnableSpriteCollision and
    TLN_GetSpriteCollision return without TLN_SetLastError and call no
    unit that writes the slot: for an index below the capacity the error of
    an earlier call stays.  Every call that ends in
    TLN_SetLastError (TLN_ERR_OK) has recorded it when it does not return
    false.  (The two rotation calls belong to neither group: they write
    nothing themselves, and the bitmap calls they make do.) *)
Theorem last_error_after_a_call :
  forall (e e' : Engine) (op : operation) (r : retval),
    call e op = Done (e', r) ->
    (forall n, sprite_index op = Some n -> n < numsprites e) ->
    (leaves_error op = true -> error e' = error e) /\
    (reports_success op = true -> r <> RBool false ->
     error e' = TLN_ERR_OK).
Proof.
  intros e e' op r H Hn.
  assert (Hc : forall n, sprite_index op = Some n ->
                         (numsprites e <=? n) = false)
    by (intros n Hi; apply in_capacity, Hn, Hi).
  split; intros Hr.
  - destruct op; try discriminate Hr; simpl in Hc; specialize (Hc _ eq_refl);
      simpl in H; unfold returning in H; returns H; inversion H; subst; clear H;
      destruct a as [e1 r1]; simpl.
    + unfold TLN_SetSpriteScaling in E. rewrite Hc in E. returns E.
      inversion E; subst. eapply put_sprite_error; eassumption.
    + unfold TLN_EnableSpriteCollision in E. rewrite Hc in E. returns E.
      inversion E; subst. eapply put_sprite_error; eassumption.
    + unfold TLN_GetSpriteCollision in E. rewrite Hc in E. returns E.
      inversion E; subst. reflexivity.
  - intros Hnf.
    assert (Hpic : forall e0 n i e1 b,
               TLN_SetSpritePicture e0 n i = Done (e1, b) -> b <> false ->
               error e1 = TLN_ERR_OK).
    { intros e0 n i e1 b E Hb. unfold TLN_SetSpritePicture in E.
      returns E; inversion E; subst; try congruence; reflexivity. }
    assert (Hfl : forall e0 n f e1 b,
               TLN_SetSpriteFlags e0 n f = Done (e1, b) -> b <> false ->
               error e1 = TLN_ERR_OK).
    { intros e0 n f e1 b E Hb. unfold TLN_SetSpriteFlags in E.
      returns E; inversion E; subst; try congruence; reflexivity. }
    assert (Hset : forall e0 n ss e1 b,
               TLN_SetSpriteSet e0 n ss = Done (e1, b) -> b <> false ->
               error e1 = TLN_ERR_OK).
    { intros e0 n ss e1 b E Hb. unfold TLN_SetSpriteSet in E.
      returns E; try (inversion E; subst; congruence).
      eapply Hpic; eassumption. }
    destruct op; try discriminate Hr;
      try (simpl in Hc; specialize (Hc _ eq_refl));
      simpl in H; unfold returning in H; returns H; inversion H; subst; clear H;
      destruct a as [e1 r1]; simpl in *.
    + unfold TLN_ConfigSprite in E. returns E; destruct a as [e2 b2].
      * eapply Hfl; [exact E|congruence].
      * inversion E; subst. congruence.
    + eapply Hset; [exact E|congruence].
    + eapply Hfl; [exact E|congruence].
    + unfold TLN_SetSpritePosition in E. rewrite Hc in E. returns E.
      inversion E; subst. reflexivity.
    + eapply Hpic; [exact E|congruence].
    + unfold TLN_SetSpritePalette in E. rewrite Hc in E.
      returns E; inversion E; subst; try congruence; reflexivity.
    + unfold TLN_GetSpritePalette in E. rewrite Hc in E. returns E.
      inversion E; subst. reflexivity.
    + unfold TLN_SetSpriteBlendMode in E. rewrite Hc in E. returns E.
      inversion E; subst. reflexivity.
    + unfold TLN_ResetSpriteScaling in E. rewrite Hc in E. returns E.
      inversion E; subst. reflexivity.
    + unfold TLN_GetSpritePicture in E. rewrite Hc in E. returns E.
      inversion E; subst. reflexivity.
    + unfold TLN_GetAvailableSprite in E. returns E.
      inversion E; subst. reflexivity.
    + unfold TLN_DisableSprite in E. rewrite Hc in E. returns E.
      inversion E; subst. reflexivity.
Qed.

Lemma add_1_small c : 0 <= c < INT_MAX -> add c 1 = c + 1.
Proof. intros H. apply add_small. unfold INT_MIN, INT_MAX in *. lia. Qed.

(** The search loop: from counter [c] with [n] slots left, it stops at the
    first slot whose [ok] is clear. *)
Lemma first_available_spec (e : Engine) :
  forall n c,
    0 <= c -> c + Z.of_nat n = Z.of_nat (length (sprites e)) ->
    Z.of_nat (length (sprites e)) <= INT_MAX ->
    exists r,
      first_available e n c = Done r /\
      ((r = -1 /\
        forall i s, (Z.to_nat c <= i)%nat -> sprites e !! i = Some s ->
                    ok s = true) \/
       (c <= r < Z.of_nat (length (sprites e)) /\
        (exists s, sprites e !! Z.to_nat r = Some s /\ ok s = false) /\
        forall i s, (Z.to_nat c <= i < Z.to_nat r)%nat ->
                    sprites e !! i = Some s -> ok s = true)).
Proof.
  induction n as [|n IH]; intros c Hc Hlen Hmax; simpl.
  - exists (-1). split; [reflexivity|]. left. split; [reflexivity|].
    intros i s Hi Hs. apply lookup_lt_Some in Hs. lia.
  - destruct (lookup_lt_is_Some_2 (sprites e) (Z.to_nat c)) as [s Hs]; [lia|].
    unfold get_sprite. rewrite (load_lookup _ _ _ Hc Hs). cbn [bind].
    destruct (ok s) eqn:Hok; simpl.
    + rewrite add_1_small by lia.
      destruct (IH (c + 1)) as (r & Hr & Hcase); [lia|lia|lia|].
      exists r. split; [exact Hr|].
      destruct Hcase as [[-> Hall]|(Hrange & Hfound & Hbefore)].
      * left. split; [reflexivity|]. intros i t Hi Ht.
        destruct (decide (i = Z.to_nat c)) as [->|Hne].
        -- congruence.
        -- apply (Hall i t); [lia|exact Ht].
      * right. split; [lia|]. split; [exact Hfound|].
        intros i t Hi Ht.
        destruct (decide (i = Z.to_nat c)) as [->|Hne].
        -- congruence.
        -- apply (Hbefore i t); [lia|exact Ht].
    + exists c. split; [reflexivity|]. right. split; [lia|].
      split; [exists s; split; assumption|]. intros i t Hi. lia.
Qed.

Lemma GetAvailable_spec (e : Engine) :
  Z.of_nat (length (sprites e)) = numsprites e -> numsprites e <= INT_MAX ->
  exists c,
    TLN_GetAvailableSprite e = Done (TLN_SetLastError e TLN_ERR_OK, c) /\
    ((c = -1 /\
      forall i s, sprites e !! i = Some s -> ok s = true) \/
     (0 <= c < numsprites e /\
      (exists s, sprites e !! Z.to_nat c = Some s /\ ok s = false) /\
      forall i s, (i < Z.to_nat c)%nat -> sprites e !! i = Some s ->
                  ok s = true)).
Proof.
  intros Hlen Hmax. unfold TLN_GetAvailableSprite.
  destruct (first_available_spec (TLN_SetLastError e TLN_ERR_OK)
              (Z.to_nat (numsprites e)) 0) as (r & Hr & Hcase);
    simpl; [lia|lia|lia|].
  exists r. simpl in Hr. rewrite Hr. split; [reflexivity|].
  simpl in Hcase.
  destruct Hcase as [[-> Hall]|(Hrange & Hfound & Hbefore)].
  - left. split; [reflexivity|]. intros i s Hs. apply (Hall i s); [lia|exact Hs].
  - right. split; [lia|]. split; [exact Hfound|].
    intros i s Hi Hs. apply (Hbefore i s); [lia|exact Hs].
Qed.

(** X6.  TLN_GetAvailableSprite records TLN_ERR_OK and returns the
    lowest index whose sprite has [ok] clear, every slot below it being in
    use; it returns -1 exactly when every sprite has [ok] set. *)
Theorem GetAvailableSprite_finds_the_first_unused_slot :
  forall (e : Engine),
    Z.of_nat (length (sprites e)) = numsprites e -> numsprites e <= INT_MAX ->
    exists c,
      TLN_GetAvailableSprite e = Done (TLN_SetLastError e TLN_ERR_OK, c) /\
      ((c = -1 /\
        forall i s, sprites e !! i = Some s -> ok s = true) \/
       (0 <= c < numsprites e /\
        (exists s, sprites e !! Z.to_nat c = Some s /\ ok s = false) /\
        forall i s, (i < Z.to_nat c)%nat -> sprites e !! i = Some s ->
                    ok s = true)).
Proof.
  intros e Hlen Hmax. unfold TLN_GetAvailableSprite.
  destruct (first_available_spec (TLN_SetLastError e TLN_ERR_OK)
              (Z.to_nat (numsprites e)) 0) as (r & Hr & Hcase);
    simpl; [lia|lia|lia|].
  exists r. simpl in Hr. rewrite Hr. split; [reflexivity|].
  simpl in Hcase.
  destruct Hcase as [[-> Hall]|(Hrange & Hfound & Hbefore)].
  - left. split; [reflexivity|]. intros i s Hs. apply (Hall i s); [lia|exact Hs].
  - right. split; [lia|]. split; [exact Hfound|].
    intros i s Hi Hs. apply (Hbefore i s); [lia|exact Hs].
Qed.


Lemma in_range_lookup (e : Engine) n :
  Z.of_nat (length (sprites e)) = numsprites e -> 0 <= n < numsprites e ->
  exists s, sprites e !! Z.to_nat n = Some s.
Proof. intros Hlen Hn. apply lookup_lt_is_Some_2. lia. Qed.

(** X7.  TLN_DisableSprite then TLN_GetAvailableSprite: the disabled
    slot is offered, unless a lower slot was free already. *)
Theorem a_disabled_sprite_is_available :
  forall (e : Engine) n,
    Z.of_nat (length (sprites e)) = numsprites e -> numsprites e <= INT_MAX ->
    0 <= n < numsprites e ->
    exists e1 e2 c,
      TLN_DisableSprite e n = Done (e1, true) /\
      TLN_GetAvailableSprite e1 = Done (e2, c) /\
      0 <= c <= n /\
      (forall i s, (i < Z.to_nat c)%nat -> sprites e !! i = Some s ->
                   ok s = true).
Proof.
  intros e n Hlen Hmax [Hlo Hhi].
  destruct (in_range_lookup e n Hlen (conj Hlo Hhi)) as [sprite Hs].
  unfold TLN_DisableSprite.
  rewrite (in_capacity _ _ Hhi), (get_sprite_lookup _ _ _ Hlo Hs). cbn [bind].
  rewrite (put_sprite_lookup _ _ _ _ Hlo Hs). cbn [bind].
  set (e1 := TLN_SetLastError _ TLN_ERR_OK).
  assert (Hl1 : length (sprites e1) = length (sprites e))
    by (simpl; apply length_insert).
  assert (Hn1 : sprites e1 !! Z.to_nat n = Some (set_ok false sprite)).
  { simpl. apply list_lookup_insert_eq. eapply lookup_lt_Some; exact Hs. }
  assert (Hok1 : ok (set_ok false sprite) = false) by (destruct sprite; reflexivity).
  unfold TLN_GetAvailableSprite.
  destruct (first_available_spec (TLN_SetLastError e1 TLN_ERR_OK)
              (Z.to_nat (numsprites e)) 0) as (r & Hr & Hcase);
    [lia|simpl; rewrite length_insert; lia|simpl; rewrite length_insert; lia|].
  exists e1, (TLN_SetLastError e1 TLN_ERR_OK), r.
  split; [reflexivity|]. split; [simpl in Hr |- *; rewrite Hr; reflexivity|].
  destruct Hcase as [[-> Hall]|(Hrange & Hfound & Hbefore)].
  - specialize (Hall (Z.to_nat n) _ ltac:(lia) Hn1). congruence.
  - assert (Hle : r <= n).
    { destruct (Z_le_gt_dec r n) as [Hle|Hgt]; [exact Hle|].
      specialize (Hbefore (Z.to_nat n) _ ltac:(lia) Hn1). congruence. }
    split; [lia|]. intros i s Hi Hsi.
    apply (Hbefore i s); [lia|].
    simpl. rewrite list_lookup_insert_ne by lia. exact Hsi.
Qed.


(** TLN_SetSpritePicture returning true, read backwards. *)
Lemma SetSpritePicture_true (e e' : Engine) n i :
  TLN_SetSpritePicture e n i = Done (e', true) ->
  exists (s s' : Sprite) ss pic bitmap,
    0 <= n /\ sprites e !! Z.to_nat n = Some s /\
    spriteset s = Some ss /\ ss_bitmap ss = Some bitmap /\
    0 <= i /\ ss_data ss !! Z.to_nat i = Some pic /\
    UpdateSprite (framebuffer e)
      (set_pixels (Some {| base := bm_data bitmap; at_ := offset pic |})
         (set_info (Some pic) (set_index i s))) = Done s' /\
    e' = TLN_SetLastError
           (set_sprites (<[Z.to_nat n := s']> (sprites e)) e) TLN_ERR_OK.
Proof.
  unfold TLN_SetSpritePicture. intros H. returns H; try (inversion H; fail).
  simpl in H. inversion H; subst; clear H.
  apply load_Done in E0 as [Hn Hs].
  apply load_Done in E4 as [Hi Hpic].
  destruct (spriteset a) as [ss|] eqn:Hss; [|discriminate].
  inversion E3; subst; clear E3.
  destruct (ss_bitmap a0) as [bitmap|] eqn:Hb; [|discriminate].
  inversion E5; subst; clear E5.
  assert (e0 = e) as ->.
  { unfold CheckBaseObject in E1. simpl in E1.
    destruct (ObjectType_eqb (ss_type a0) OT_SPRITESET);
      inversion E1; subst; [reflexivity|discriminate]. }
  apply put_sprite_sprites in E7 as (Hs1 & Hn1 & Hf1 & He1).
  exists a, a3, a0, a1, a2.
  repeat (split; [first [assumption|reflexivity]|]).
  destruct a4; simpl in *; subst. reflexivity.
Qed.

(** What TLN_SetSpriteSet leaves in the slot when it returns true. *)
Lemma SetSpriteSet_true (e e' : Engine) n ss :
  TLN_SetSpriteSet e n (Some ss) = Done (e', true) ->
  exists s' : Sprite,
    sprites e' !! Z.to_nat n = Some s' /\
    spriteset s' = Some ss /\
    ok s' = non_null (palette s') /\
    (forall pal, ss_palette ss = Some pal -> palette s' = Some pal).
Proof.
  unfold TLN_SetSpriteSet. intros H. returns H; try (inversion H; fail).
  simpl in H. inversion E3; subst a0; clear E3.
  apply SetSpritePicture_true in H
    as (s & s' & ss' & pic & bitmap & Hn & Hs & Hss & Hb & _ & Hpic & Hu & ->).
  pose proof (put_sprite_sprites _ _ _ _ E5) as (Hs2 & _).
  apply load_Done in E2 as [_ Ha]. apply lookup_lt_Some in Ha.
  rewrite Hs2, list_lookup_insert_eq in Hs by exact Ha.
  assert (Hk : keeps s s').
  { eapply keeps_UpdateSprite; [exact Hu|].
    auto using keeps_refl with keeps. }
  destruct Hk as (Hk1 & Hk2 & Hk3).
  exists s'. split.
  - simpl. apply list_lookup_insert_eq. rewrite Hs2, length_insert. exact Ha.
  - rewrite Hk1, Hk2, Hk3. inversion Hs; subst s; clear Hs.
    destruct (ss_palette ss) as [pal|]; destruct a; simpl;
      repeat split; try reflexivity; try (intros ? [=]; subst; reflexivity);
      try discriminate.
Qed.

(** X8.  TLN_GetAvailableSprite, TLN_SetSpriteSet on the slot it gave
    with a spriteset that has a palette, and TLN_GetAvailableSprite
    again: the second search returns a higher slot or -1. *)
Theorem a_configured_slot_is_not_offered_again :
  forall (e e1 e2 : Engine) c ss pal,
    Z.of_nat (length (sprites e)) = numsprites e -> numsprites e <= INT_MAX ->
    TLN_GetAvailableSprite e = Done (e1, c) -> 0 <= c ->
    ss_palette ss = Some pal ->
    TLN_SetSpriteSet e1 c (Some ss) = Done (e2, true) ->
    exists e3 c',
      TLN_GetAvailableSprite e2 = Done (e3, c') /\ (c' = -1 \/ c < c').
Proof.
  intros e e1 e2 c ss pal Hlen Hmax Hget Hc Hpal Hset.
  destruct (GetAvailable_spec e Hlen Hmax) as (c0 & Hget0 & Hcase).
  rewrite Hget0 in Hget. inversion Hget; subst c0 e1; clear Hget.
  destruct Hcase as [[-> _]|(Hrange & _ & Hbefore)]; [lia|].
  pose proof (SetSpriteSet_slot _ _ _ _ _ Hset) as (Hn2 & _ & Hl2 & Hother).
  destruct (SetSpriteSet_true _ _ _ _ Hset) as (s' & Hs' & _ & Hok & Hp).
  rewrite (Hp _ Hpal) in Hok. simpl in Hok, Hn2, Hl2, Hother.
  destruct (GetAvailable_spec e2) as (c' & Hget' & Hcase'); [lia|lia|].
  exists (TLN_SetLastError e2 TLN_ERR_OK), c'. split; [exact Hget'|].
  destruct Hcase' as [[-> _]|(Hrange' & (t & Ht & Htok) & _)]; [left; reflexivity|].
  right.
  destruct (Z_lt_ge_dec c c') as [Hlt|Hge]; [exact Hlt|exfalso].
  destruct (Z.eq_dec c' c) as [->|Hne].
  - congruence.
  - rewrite Hother in Ht by lia.
    specialize (Hbefore (Z.to_nat c') t ltac:(lia) Ht). congruence.
Qed.

(** X9.  TLN_SetSpritePalette with a palette stores it, recomputes [ok]
    from the spriteset, records TLN_ERR_OK and leaves both rectangles
    alone; TLN_GetSpritePalette then returns that palette. *)
Theorem SetSpritePalette_then_GetSpritePalette :
  forall (e : Engine) n (sprite : Sprite) pal,
    0 <= n < numsprites e -> sprites e !! Z.to_nat n = Some sprite ->
    pal_type pal = OT_PALETTE ->
    exists (e' : Engine) (s' : Sprite),
      TLN_SetSpritePalette e n (Some pal) = Done (e', true) /\
      error e' = TLN_ERR_OK /\
      sprites e' = <[Z.to_nat n := s']> (sprites e) /\
      palette s' = Some pal /\ spriteset s' = spriteset sprite /\
      ok s' = non_null (spriteset sprite) /\
      srcrect s' = srcrect sprite /\ dstrect s' = dstrect sprite /\
      TLN_GetSpritePalette e' n = Done (e', Some pal).
Proof.
  intros e n sprite pal [Hlo Hhi] Hs Hty.
  unfold TLN_SetSpritePalette.
  rewrite (in_capacity _ _ Hhi).
  unfold fmap, option_fmap, option_map. rewrite Hty, CheckBaseObject_valid.
  cbn [negb]. rewrite (get_sprite_lookup _ _ _ Hlo Hs). cbn [bind].
  rewrite (put_sprite_lookup _ _ _ _ Hlo Hs). cbn [bind].
  eexists _, _. split; [reflexivity|]. split; [reflexivity|].
  split; [reflexivity|].
  repeat (split; [destruct sprite; simpl; rewrite ?andb_true_r; reflexivity|]).
  unfold TLN_GetSpritePalette. cbn [numsprites TLN_SetLastError set_sprites].
  rewrite (in_capacity _ _ Hhi).
  unfold get_sprite. cbn [sprites TLN_SetLastError set_sprites].
  erewrite load_lookup; [|exact Hlo|].
  2:{ apply list_lookup_insert_eq. eapply lookup_lt_Some; exact Hs. }
  cbn [bind]. destruct sprite; reflexivity.
Qed.

(** X10.  TLN_SetSpritePicture with an index inside the picture table of
    the sprite's spriteset stores the index, the picture's descriptor and
    the address of its pixels; TLN_GetSpritePicture then returns that
    index.  (Outside MODE_SCALING, where the update divides.) *)
Theorem SetSpritePicture_then_GetSpritePicture :
  forall (e : Engine) n (sprite : Sprite) ss bitmap pic entry,
    0 <= n < numsprites e -> sprites e !! Z.to_nat n = Some sprite ->
    spriteset sprite = Some ss -> ss_type ss = OT_SPRITESET ->
    ss_bitmap ss = Some bitmap ->
    0 <= entry -> ss_data ss !! Z.to_nat entry = Some pic ->
    mode sprite <> MODE_SCALING ->
    exists (e' : Engine) (s' : Sprite),
      TLN_SetSpritePicture e n entry = Done (e', true) /\
      error e' = TLN_ERR_OK /\
      sprites e' = <[Z.to_nat n := s']> (sprites e) /\
      index s' = entry /\ info s' = Some pic /\
      pixels s' = Some {| base := bm_data bitmap; at_ := offset pic |} /\
      TLN_GetSpritePicture e' n = Done (e', entry).
Proof.
  intros e n sprite ss bitmap pic entry [Hlo Hhi] Hs Hss Hty Hb He Hpic Hmode.
  unfold TLN_SetSpritePicture.
  rewrite (in_capacity _ _ Hhi), (get_sprite_lookup _ _ _ Hlo Hs). cbn [bind].
  rewrite Hss. unfold fmap, option_fmap, option_map.
  rewrite Hty, CheckBaseObject_valid. cbn [negb deref bind].
  rewrite (load_lookup _ _ _ He Hpic), Hb. cbn [bind deref].
  set (t := set_pixels _ _).
  destruct (UpdateSprite_returns (framebuffer e) t pic) as [s' Hu].
  { subst t. destruct sprite; reflexivity. }
  { subst t. destruct sprite; exact Hmode. }
  rewrite Hu. cbn [bind].
  rewrite (put_sprite_lookup _ _ _ _ Hlo Hs). cbn [bind].
  exists (TLN_SetLastError
            (set_sprites (<[Z.to_nat n := s']> (sprites e)) e) TLN_ERR_OK), s'.
  split; [reflexivity|]. split; [reflexivity|]. split; [reflexivity|].
  apply UpdateSprite_regeometry in Hu as (src & dst & a & b & ->).
  subst t.
  repeat (split; [destruct sprite; reflexivity|]).
  unfold TLN_GetSpritePicture. cbn [numsprites TLN_SetLastError set_sprites].
  rewrite (in_capacity _ _ Hhi).
  unfold get_sprite. cbn [sprites TLN_SetLastError set_sprites].
  erewrite load_lookup; [|exact Hlo|].
  2:{ apply list_lookup_insert_eq. eapply lookup_lt_Some; exact Hs. }
  cbn [bind]. destruct sprite; reflexivity.
Qed.

(** X11.  TLN_SetSpritePicture does not compare the index with the size
    of the picture table: a negative index and one past the table read
    [spriteset->data[entry]] outside the table. *)
Theorem SetSpritePicture_outside_the_table :
  forall (e : Engine) n (sprite : Sprite) ss entry,
    0 <= n < numsprites e -> sprites e !! Z.to_nat n = Some sprite ->
    spriteset sprite = Some ss -> ss_type ss = OT_SPRITESET ->
    entry < 0 \/ Z.of_nat (length (ss_data ss)) <= entry ->
    TLN_SetSpritePicture e n entry = Crash OutOfBounds.
Proof.
  intros e n sprite ss entry [Hlo Hhi] Hs Hss Hty Hout.
  unfold TLN_SetSpritePicture.
  rewrite (in_capacity _ _ Hhi), (get_sprite_lookup _ _ _ Hlo Hs). cbn [bind].
  rewrite Hss. unfold fmap, option_fmap, option_map.
  rewrite Hty, CheckBaseObject_valid. cbn [negb deref bind].
  unfold load.
  destruct (Z.ltb_spec entry 0); [reflexivity|].
  destruct (Z.leb_spec (Z.of_nat (length (ss_data ss))) entry); [reflexivity|lia].
Qed.


Lemma dstrect_set_dx v (s : Sprite) : dstrect (set_dx v s) = dstrect s.
Proof. destruct s; reflexivity. Qed.
Lemma dstrect_set_dy v (s : Sprite) : dstrect (set_dy v s) = dstrect s.
Proof. destruct s; reflexivity. Qed.

(** X12.  In MODE_NORMAL and in MODE_SCALING, whenever UpdateSprite
    returns for a configured sprite the destination rectangle does not
    reach beyond the framebuffer on any side, whatever the arithmetic
    before the clipping gave. *)
Theorem UpdateSprite_clips_to_the_framebuffer :
  forall fb (s s' : Sprite),
    ok s = true -> mode s <> MODE_TRANSFORM ->
    UpdateSprite fb s = Done s' ->
    within fb (dstrect s').
Proof.
  intros fb s s' Hok Hmode. unfold UpdateSprite. rewrite Hok. cbn [negb].
  destruct (info s) as [pic|]; [|discriminate]. cbn [deref bind].
  destruct (mode s); [| |congruence].
  - cbn [x1 y1 x2 y2 set_x1 set_y1 set_x2 set_y2].
    destruct (Z.ltb_spec (y s) 0); cbn [x1 y1 x2 y2 set_x1 set_y1 set_x2 set_y2];
    destruct (Z.ltb_spec (height fb) (add (y s) (h pic)));
      cbn [x1 y1 x2 y2 set_x1 set_y1 set_x2 set_y2];
    destruct (Z.ltb_spec (x s) 0); cbn [x1 y1 x2 y2 set_x1 set_y1 set_x2 set_y2];
    destruct (Z.ltb_spec (width fb) (add (x s) (w pic)));
      cbn [x1 y1 x2 y2 set_x1 set_y1 set_x2 set_y2];
    intros H'; inversion H'; subst; clear H';
    rewrite dstrect_set_dstrect; unfold within; simpl; lia.
  - cbn [x1 y1 x2 y2 set_x1 set_y1 set_x2 set_y2].
    destruct (div _ _) as [dx_|]; [|discriminate]. cbn [bind].
    destruct (div _ _) as [dy_|]; [|discriminate]. cbn [bind].
    set (w_ := int_of_float (fmul (float_of_int (w pic)) (sx s))).
    set (h_ := int_of_float (fmul (float_of_int (h pic)) (sy s))).
    set (dx1 := add (x s) _). set (dy1 := add (y s) _).
    destruct (Z.ltb_spec dy1 0); cbn [x1 y1 x2 y2 set_x1 set_y1 set_x2 set_y2];
    destruct (Z.ltb_spec (height fb) (add dy1 h_));
      cbn [x1 y1 x2 y2 set_x1 set_y1 set_x2 set_y2];
    destruct (Z.ltb_spec dx1 0); cbn [x1 y1 x2 y2 set_x1 set_y1 set_x2 set_y2];
    destruct (Z.ltb_spec (width fb) (add dx1 w_));
      cbn [x1 y1 x2 y2 set_x1 set_y1 set_x2 set_y2];
    intros H'; inversion H'; subst; clear H';
    rewrite dstrect_set_dy, dstrect_set_dx, dstrect_set_dstrect;
    unfold within; simpl; lia.
Qed.

Ltac pairs :=
  repeat match goal with
         | |- context [if ?c then ?a else ?b] =>
             let p := fresh "p" in
             generalize (if c then a else b); intros p; destruct p
         end.

(** The update reads [ok], the picture, the mode, the position and the
    scale factors, and nothing else. *)
Lemma UpdateSprite_reads fb (s t : Sprite) :
  ok s = ok t -> info s = info t -> mode s = mode t ->
  x s = x t -> y s = y t -> sx s = sx t -> sy s = sy t ->
  UpdateSprite fb t =
  LET r <- UpdateSprite fb s IN Done (transplant (mode t) r t).
Proof.
  intros Hok Hinfo Hmode Hx Hy Hsx Hsy.
  unfold UpdateSprite, transplant. rewrite Hok, Hinfo, Hmode, Hx, Hy, Hsx, Hsy.
  destruct (ok t); cbn [negb bind]; [|reflexivity].
  destruct (info t) as [pic|]; [|reflexivity]. cbn [deref bind].
  destruct (mode t).
  - pairs. cbn [bind].
    rewrite dstrect_set_dstrect, srcrect_set_dstrect, srcrect_set_srcrect.
    reflexivity.
  - destruct (div _ _); [|reflexivity]. cbn [bind].
    destruct (div _ _); [|reflexivity]. cbn [bind].
    pairs. cbn [bind]. destruct s; reflexivity.
  - cbn [bind]. rewrite srcrect_set_srcrect. reflexivity.
Qed.

Lemma UpdateSprite_forgets fb (s s1 : Sprite) xa ya xb yb :
  UpdateSprite fb (set_y ya (set_x xa s)) = Done s1 ->
  UpdateSprite fb (set_y yb (set_x xb s1)) =
  UpdateSprite fb (set_y yb (set_x xb s)).
Proof.
  intros H.
  pose proof (UpdateSprite_reads fb _ (set_y ya (set_x xa s))
                eq_refl eq_refl eq_refl eq_refl eq_refl eq_refl eq_refl) as Ha.
  rewrite H in Ha. cbn [bind] in Ha.
  assert (Hs1 : s1 = transplant (mode (set_y ya (set_x xa s))) s1
                       (set_y ya (set_x xa s))) by congruence.
  clear Ha.
  rewrite (UpdateSprite_reads fb (set_y yb (set_x xb s))
             (set_y yb (set_x xb s1)));
    try (rewrite Hs1; unfold transplant; destruct s as [? ? ? ? ? ? ? ? ? ? ? ? ? ? ? md ? ? ? ? ok0 ? ? ?];
         destruct ok0, md; reflexivity).
  rewrite (UpdateSprite_reads fb (set_y yb (set_x xb s))
             (set_y yb (set_x xb s)) eq_refl eq_refl eq_refl eq_refl eq_refl
             eq_refl eq_refl) at 2.
  destruct (UpdateSprite fb (set_y yb (set_x xb s))) as [r|]; [|reflexivity].
  cbn [bind]. f_equal. rewrite Hs1 at 1 2. clear.
  unfold transplant.
  destruct s as [? ? ? ? ? ? ? ? ? ? ? ? ? ? ? md ? ? ? ? ok0 ? ? ?].
  destruct ok0, md; reflexivity.
Qed.

(** X13.  TLN_SetSpritePosition twice on one sprite is
    TLN_SetSpritePosition once with the second position: the update
    computes from the position, the picture, the mode and the scale
    factors, and from nothing an earlier update has left. *)
Theorem SetSpritePosition_last_call_wins :
  forall (e e1 : Engine) n xa ya xb yb,
    TLN_SetSpritePosition e n xa ya = Done (e1, true) ->
    TLN_SetSpritePosition e1 n xb yb = TLN_SetSpritePosition e n xb yb.
Proof.
  intros e e1 n xa ya xb yb H.
  unfold TLN_SetSpritePosition in H. returns H; [inversion H|].
  simpl in H. inversion H; subst e1; clear H.
  apply load_Done in E0 as [Hn Hs].
  apply put_sprite_sprites in E2 as (Hs1 & Hn1 & Hf1 & _).
  pose proof (lookup_lt_Some _ _ _ Hs) as Hlt.
  unfold TLN_SetSpritePosition.
  cbn [numsprites framebuffer TLN_SetLastError]. rewrite Hn1, Hf1, E.
  unfold get_sprite. cbn [sprites TLN_SetLastError].
  rewrite (load_lookup _ _ _ Hn Hs).
  rewrite (load_lookup (sprites a1) n a0 Hn)
    by (rewrite Hs1; apply list_lookup_insert_eq; exact Hlt).
  cbn [bind]. rewrite (UpdateSprite_forgets _ _ _ _ _ _ _ E1).
  destruct (UpdateSprite (framebuffer e) (set_y yb (set_x xb a)))
    as [s2|]; [|reflexivity]. cbn [bind].
  unfold put_sprite, store. cbn [sprites TLN_SetLastError].
  rewrite Hs1, length_insert.
  destruct ((n <? 0) || (Z.of_nat (length (sprites e)) <=? n)); [reflexivity|].
  cbn [bind]. rewrite list_insert_insert_eq.
  destruct a1; simpl in *; subst. reflexivity.
Qed.

(** X14.  UpdateSprite has no branch for MODE_TRANSFORM: a rotated
    sprite that is given a new position stores it, keeps the destination
    rectangle and the bitmap of its rotation, and has its source rectangle
    set to the full picture. *)
Theorem SetSpritePosition_does_not_move_a_rotated_sprite :
  forall (e : Engine) n px py (sprite : Sprite) pic,
    0 <= n < numsprites e -> sprites e !! Z.to_nat n = Some sprite ->
    ok sprite = true -> mode sprite = MODE_TRANSFORM ->
    info sprite = Some pic ->
    exists (e' : Engine) (s' : Sprite),
      TLN_SetSpritePosition e n px py = Done (e', true) /\
      sprites e' = <[Z.to_nat n := s']> (sprites e) /\
      x s' = px /\ y s' = py /\
      dstrect s' = dstrect sprite /\
      rotation_bitmap s' = rotation_bitmap sprite /\
      srcrect s' = {| x1 := 0; y1 := 0; x2 := w pic; y2 := h pic |}.
Proof.
  intros e n px py sprite pic [Hlo Hhi] Hs Hok Hmode Hinfo.
  unfold TLN_SetSpritePosition.
  rewrite (in_capacity _ _ Hhi), (get_sprite_lookup _ _ _ Hlo Hs). cbn [bind].
  assert (Hu : UpdateSprite (framebuffer e) (set_y py (set_x px sprite)) =
               Done (set_srcrect {| x1 := 0; y1 := 0; x2 := w pic; y2 := h pic |}
                       (set_y py (set_x px sprite)))).
  { unfold UpdateSprite.
    replace (ok (set_y py (set_x px sprite))) with true
      by (destruct sprite; symmetry; exact Hok).
    replace (info (set_y py (set_x px sprite))) with (Some pic)
      by (destruct sprite; symmetry; exact Hinfo).
    replace (mode (set_y py (set_x px sprite))) with MODE_TRANSFORM
      by (destruct sprite; symmetry; exact Hmode).
    reflexivity. }
  rewrite Hu. cbn [bind].
  rewrite (put_sprite_lookup _ _ _ _ Hlo Hs). cbn [bind].
  eexists _, _. split; [reflexivity|]. split; [reflexivity|].
  destruct sprite; repeat split.
Qed.

(** X20.  TLN_ResetSpriteRotation releases the rotated bitmap, sets
    MODE_NORMAL and leaves the handle in the record: the next
    TLN_ResetSpriteRotation or TLN_SetSpriteRotation on that sprite finds
    it not NULL and releases the released bitmap again. *)
Theorem ResetSpriteRotation_leaves_the_released_handle :
  forall (e : Engine) n (sprite : Sprite) bitmap,
    0 <= n < numsprites e -> sprites e !! Z.to_nat n = Some sprite ->
    rotation_bitmap sprite = LiveBitmap bitmap ->
    exists (e' : Engine) (s' : Sprite),
      TLN_ResetSpriteRotation e n = Done (e', true) /\
      sprites e' = <[Z.to_nat n := s']> (sprites e) /\
      mode s' = MODE_NORMAL /\
      rotation_bitmap s' = FreedBitmap /\
      TLN_ResetSpriteRotation e' n = Crash UseAfterFree /\
      (forall angle, TLN_SetSpriteRotation e' n angle = Crash UseAfterFree).
Proof.
  intros e n sprite bitmap [Hlo Hhi] Hs Hrb.
  unfold TLN_ResetSpriteRotation at 1.
  rewrite (in_capacity _ _ Hhi), (get_sprite_lookup _ _ _ Hlo Hs). cbn [bind].
  rewrite Hrb. cbn [TLN_DeleteBitmap bind fst snd].
  rewrite (put_sprite_lookup (TLN_SetLastError e TLN_ERR_OK) _ _ _ Hlo Hs).
  cbn [bind].
  eexists _, _. split; [reflexivity|]. split; [reflexivity|].
  split; [destruct sprite; reflexivity|].
  split; [destruct sprite; reflexivity|].
  assert (Hg : forall s', get_sprite
            (set_sprites (<[Z.to_nat n := s']> (sprites e))
                         (TLN_SetLastError e TLN_ERR_OK)) n = Done s').
  { intros s'. apply get_sprite_lookup; [exact Hlo|].
    apply list_lookup_insert_eq. eapply lookup_lt_Some; exact Hs. }
  split; [|intros angle].
  - unfold TLN_ResetSpriteRotation.
    cbn [numsprites set_sprites TLN_SetLastError sprites].
    cbn [numsprites set_sprites TLN_SetLastError sprites] in Hg.
    rewrite (in_capacity _ _ Hhi), Hg. cbn [bind].
    destruct sprite; reflexivity.
  - unfold TLN_SetSpriteRotation.
    cbn [numsprites set_sprites TLN_SetLastError sprites].
    cbn [numsprites set_sprites TLN_SetLastError sprites] in Hg.
    rewrite (in_capacity _ _ Hhi), Hg. cbn [bind].
    destruct sprite; reflexivity.
Qed.

(** X21.  TLN_SetSpriteRotation reads [sprite->info->w] without
    testing [ok] or [info]: on a sprite that has no picture yet it
    dereferences NULL. *)
Theorem SetSpriteRotation_without_a_picture :
  forall (e : Engine) n angle (sprite : Sprite),
    0 <= n < numsprites e -> sprites e !! Z.to_nat n = Some sprite ->
    info sprite = None -> rotation_bitmap sprite <> FreedBitmap ->
    TLN_SetSpriteRotation e n angle = Crash NullPointer.
Proof.
  intros e n angle sprite [Hlo Hhi] Hs Hinfo Hrb.
  unfold TLN_SetSpriteRotation.
  rewrite (in_capacity _ _ Hhi), (get_sprite_lookup _ _ _ Hlo Hs). cbn [bind].
  destruct (rotation_bitmap sprite) eqn:E; [| |congruence];
    cbn [TLN_DeleteBitmap bind];
    (replace (info (set_rotation_bitmap _ sprite)) with (@None SpriteEntry)
       by (destruct sprite; symmetry; exact Hinfo));
    reflexivity.
Qed.

Lemma int_of_float_is_int f : is_int (int_of_float f).
Proof.
  unfold int_of_float, is_int.
  destruct f as [sg| | |sg m ex]; try (unfold INT_MIN, INT_MAX; lia).
  match goal with
  | |- context [if ?c then _ else _] => destruct c eqn:E
  end.
  - apply andb_true_iff in E as [E1 E2]. lia.
  - unfold INT_MIN, INT_MAX; lia.
Qed.

Lemma sub_add_cancel a b : is_int b -> sub (add a b) a = b.
Proof.
  intros Hb. unfold sub, add, wrap.
  replace ((a + b + 2 ^ 31) mod 2 ^ 32 - 2 ^ 31 - a + 2 ^ 31)
    with ((a + b + 2 ^ 31) mod 2 ^ 32 - a) by lia.
  rewrite Zminus_mod_idemp_l.
  replace (a + b + 2 ^ 31 - a) with (b + 2 ^ 31) by lia.
  unfold is_int, INT_MIN, INT_MAX in Hb.
  rewrite Z.mod_small by lia. lia.
Qed.

Lemma div_cases a b :
  (exists q, div a b = Done q) <-> (b <> 0 /\ ~ (a = INT_MIN /\ b = -1)).
Proof.
  unfold div.
  destruct (Z.eqb_spec b 0) as [->|Hb].
  - split; [intros [q Hq]; discriminate|intros [H _]; congruence].
  - destruct (Z.eqb_spec a INT_MIN) as [->|Ha];
      destruct (Z.eqb_spec b (-1)) as [->|Hb1]; cbn [andb];
      split; try (intros [q Hq]; discriminate);
      try (intros _; split; [assumption|intros [? ?]; congruence]);
      try (intros _; eexists; reflexivity).
    intros [_ H]. exfalso. apply H. split; reflexivity.
Qed.

(** X15.  In MODE_SCALING the update divides by the scaled width and
    height: it returns exactly when neither is zero (nor INT_MIN is
    divided by -1), and the steps are then the fixed-point source extent
    over the scaled extent. *)
Theorem UpdateSprite_scaling_returns_iff :
  forall fb (sprite : Sprite) pic,
    ok sprite = true -> mode sprite = MODE_SCALING ->
    info sprite = Some pic ->
    let w_ := int_of_float (fmul (float_of_int (w pic)) (sx sprite)) in
    let h_ := int_of_float (fmul (float_of_int (h pic)) (sy sprite)) in
    let srcw := sub (int2fix (w pic)) (int2fix 0) in
    let srch := sub (int2fix (h pic)) (int2fix 0) in
    ((exists s', UpdateSprite fb sprite = Done s') <->
     (w_ <> 0 /\ h_ <> 0 /\
      ~ (srcw = INT_MIN /\ w_ = -1) /\ ~ (srch = INT_MIN /\ h_ = -1))) /\
    (forall s', UpdateSprite fb sprite = Done s' ->
                dx s' = Z.quot srcw w_ /\ dy s' = Z.quot srch h_).
Proof.
  intros fb sprite pic Hok Hmode Hinfo w_ h_ srcw srch.
  unfold UpdateSprite. rewrite Hok, Hinfo, Hmode. cbn [negb deref bind].
  cbn [x1 y1 x2 y2].
  fold w_ h_ srcw srch.
  rewrite !sub_add_cancel by apply int_of_float_is_int.
  pose proof (div_cases srcw w_) as Hw.
  pose proof (div_cases srch h_) as Hh.
  destruct (div srcw w_) as [dx_|fw] eqn:Ew; cbn [bind].
  - destruct (div srch h_) as [dy_|fh] eqn:Eh; cbn [bind].
    + apply div_Done in Ew as [_ ->]. apply div_Done in Eh as [_ ->].
      pairs. split.
      * split; [intros _|intros _; eexists; reflexivity].
        destruct Hw as [Hw _]. destruct Hh as [Hh _].
        destruct Hw as [? ?]; [eexists; reflexivity|].
        destruct Hh as [? ?]; [eexists; reflexivity|]. tauto.
      * intros s' H. inversion H; subst. destruct sprite; split; reflexivity.
    + split; [|intros s' H; discriminate].
      split; [intros [s' H]; discriminate|].
      intros (_ & H2 & _ & H4). destruct Hh as [_ Hh].
      destruct Hh as [q Hq]; [tauto|discriminate].
  - split; [|intros s' H; discriminate].
    split; [intros [s' H]; discriminate|].
    intros (H1 & _ & H3 & _). destruct Hw as [_ Hw].
    destruct Hw as [q Hq]; [tauto|discriminate].
Qed.

(** X16.  TLN_ResetSpriteScaling sets both factors to 1.0 and the mode
    to MODE_NORMAL before it updates: it returns true whatever the factors
    were, and the rectangles are those of normal clipping, of equal extent
    in source and destination. *)
Theorem ResetSpriteScaling_restores_normal_clipping :
  forall (e : Engine) n (sprite : Sprite) pic,
    0 <= n < numsprites e -> sprites e !! Z.to_nat n = Some sprite ->
    ok sprite = true -> info sprite = Some pic ->
    small (x sprite) -> small (y sprite) -> small (w pic) -> small (h pic) ->
    0 <= width (framebuffer e) < 2 ^ 30 ->
    0 <= height (framebuffer e) < 2 ^ 30 ->
    exists (e' : Engine) (s' : Sprite),
      TLN_ResetSpriteScaling e n = Done (e', true) /\
      error e' = TLN_ERR_OK /\
      sprites e' = <[Z.to_nat n := s']> (sprites e) /\
      mode s' = MODE_NORMAL /\ sx s' = f_one /\ sy s' = f_one /\
      dstrect s' =
        {| x1 := Z.max (x sprite) 0; y1 := Z.max (y sprite) 0;
           x2 := Z.min (x sprite + w pic) (width (framebuffer e));
           y2 := Z.min (y sprite + h pic) (height (framebuffer e)) |} /\
      x2 (srcrect s') - x1 (srcrect s') = x2 (dstrect s') - x1 (dstrect s') /\
      y2 (srcrect s') - y1 (srcrect s') = y2 (dstrect s') - y1 (dstrect s').
Proof.
  intros e n sprite pic [Hlo Hhi] Hs Hok Hinfo Hx Hy Hw Hh Hfw Hfh.
  unfold TLN_ResetSpriteScaling.
  rewrite (in_capacity _ _ Hhi), (get_sprite_lookup _ _ _ Hlo Hs). cbn [bind].
  match goal with
  | |- context [UpdateSprite _ ?t] => set (t0 := t)
  end.
  rewrite (UpdateSprite_normal (framebuffer e) t0 pic);
    try assumption;
    try (subst t0; destruct sprite; first [exact Hok|exact Hinfo|exact Hx|exact Hy|reflexivity]).
  cbn [bind]. rewrite (put_sprite_lookup _ _ _ _ Hlo Hs). cbn [bind].
  eexists _, _. split; [reflexivity|]. split; [reflexivity|].
  split; [reflexivity|].
  subst t0. destruct sprite. cbn in Hx, Hy |- *.
  repeat split; lia.
Qed.

(** X17.  TLN_SetSpriteBlendMode, TLN_SetSpriteScaling and
    TLN_ResetSpriteScaling end in SelectBlitter: the blitter is the one
    for the mode and the blend table the record then has.  The two
    rotation calls change the mode and leave the blitter as it was. *)
Theorem blitter_is_reselected_except_by_rotation :
  forall (e e' : Engine) (op : operation) (n : Z) (r : retval) (s s' : Sprite),
    call e op = Done (e', r) -> sprite_index op = Some n ->
    0 <= n < numsprites e ->
    sprites e !! Z.to_nat n = Some s -> sprites e' !! Z.to_nat n = Some s' ->
    (selects_blitter op = true -> blitter_selected s') /\
    (is_rotation op = true -> blitter s' = blitter s).
Proof.
  intros e e' op n r s s' H Hi [Hlo Hhi] Hs Hs'.
  pose proof (in_capacity _ _ Hhi) as Hc.
  pose proof (lookup_lt_Some _ _ _ Hs) as Hlt.
  assert (Hput : forall (e0 : Engine) t,
             put_sprite e n t = Done e0 ->
             sprites e0 !! Z.to_nat n = Some s' -> s' = t).
  { intros e0 t Hp Hl. apply put_sprite_sprites in Hp as (Hp & _).
    rewrite Hp, list_lookup_insert_eq in Hl by exact Hlt. congruence. }
  split; intros Hsel; destruct op; try discriminate Hsel;
    simpl in Hi; inversion Hi; subst; simpl in H; unfold returning in H;
    returns H; inversion H; subst; clear H; destruct a as [e1 r1];
    cbn [fst] in Hs'.
  - unfold TLN_SetSpriteBlendMode in E. rewrite Hc in E. returns E.
    inversion E; subst; clear E. cbn [sprites TLN_SetLastError] in Hs'.
    rewrite (Hput _ _ E1 Hs'). apply load_Done in E0 as [_ E0].
    destruct a; reflexivity.
  - unfold TLN_SetSpriteScaling in E. rewrite Hc in E. returns E.
    inversion E; subst; clear E.
    rewrite (Hput _ _ E2 Hs').
    apply UpdateSprite_regeometry in E1 as (src & dst & a' & b' & ->).
    destruct a; reflexivity.
  - unfold TLN_ResetSpriteScaling in E. rewrite Hc in E. returns E.
    inversion E; subst; clear E. cbn [sprites TLN_SetLastError] in Hs'.
    rewrite (Hput _ _ E2 Hs').
    apply UpdateSprite_regeometry in E1 as (src & dst & a' & b' & ->).
    destruct a; reflexivity.
  - unfold TLN_SetSpriteRotation in E. rewrite Hc in E. returns E.
    inversion E; subst; clear E.
    match goal with
    | R : _ = Done ?p, Hp : put_sprite _ _ _ = Done _ |- _ =>
        apply release_engine in R as (R & _);
        apply put_sprite_sprites in Hp as (Hp & _);
        cbn [sprites TLN_SetLastError] in Hp; rewrite R in Hp;
        rewrite Hp, list_lookup_insert_eq in Hs' by exact Hlt
    end.
    inversion Hs'; subst s'; clear Hs'.
    apply load_Done in E0 as [_ E0]. rewrite Hs in E0. inversion E0; subst.
    destruct a; reflexivity.
  - unfold TLN_ResetSpriteRotation in E. rewrite Hc in E. returns E.
    inversion E; subst; clear E.
    match goal with
    | R : _ = Done ?p, Hp : put_sprite _ _ _ = Done _ |- _ =>
        apply release_engine in R as (R & _);
        apply put_sprite_sprites in Hp as (Hp & _);
        cbn [sprites TLN_SetLastError] in Hp; rewrite R in Hp;
        rewrite Hp, list_lookup_insert_eq in Hs' by exact Hlt
    end.
    inversion Hs'; subst s'; clear Hs'.
    apply load_Done in E0 as [_ E0]. rewrite Hs in E0. inversion E0; subst.
    destruct a; reflexivity.
Qed.

Lemma dispatches_refl (e : Engine) : dispatches e e.
Proof. intros i s' H. exists s'. split; [exact H|left; split; reflexivity]. Qed.

Lemma dispatches_trans (a b c : Engine) :
  dispatches a b -> dispatches b c -> dispatches a c.
Proof.
  intros Hab Hbc i s'' H. destruct (Hbc i s'' H) as (s' & H' & K').
  destruct (Hab i s' H') as (s & H0 & K). exists s. split; [exact H0|].
  destruct K' as [[K1 K2]|K']; [|right; exact K'].
  destruct K as [[K3 K4]|K].
  - left. split; congruence.
  - right. unfold draw_selected in *. congruence.
Qed.

Lemma dispatches_error (e e' : Engine) err :
  dispatches e e' -> dispatches e (TLN_SetLastError e' err).
Proof. exact id. Qed.

Lemma dispatches_sprites (e e' : Engine) :
  sprites e' = sprites e -> dispatches e e'.
Proof.
  intros He i s' H. rewrite He in H. exists s'.
  split; [exact H|left; split; reflexivity].
Qed.

Lemma dispatches_put (e e0 e' : Engine) n (s s' : Sprite) :
  sprites e0 = sprites e ->
  get_sprite e n = Done s -> put_sprite e0 n s' = Done e' ->
  same_dispatch s s' \/ draw_selected s' -> dispatches e e'.
Proof.
  intros He Hg Hp HR i t' Hi.
  assert (Hg0 : get_sprite e0 n = Done s)
    by (unfold get_sprite in *; rewrite He; exact Hg).
  destruct (put_sprite_lookup_inv _ _ _ _ _ _ _ Hg0 Hp Hi) as [[-> ->]|[_ H]].
  - apply load_Done in Hg as [_ Hg]. exists s. split; assumption.
  - rewrite He in H. exists t'. split; [exact H|left; split; reflexivity].
Qed.

(** The record a call writes back, with the update's result spelled
    out, against the record it read. *)
Ltac dispatch_slot :=
  repeat match goal with
         | H : UpdateSprite _ _ = Done _ |- _ =>
             apply UpdateSprite_regeometry in H as (? & ? & ? & ? & ->)
         end;
  match goal with
  | |- same_dispatch ?a _ \/ _ =>
      destruct a;
      first [left; split; reflexivity | right; reflexivity]
  end.

Ltac dispatching :=
  let H := fresh "H" in
  intros H; returns H; inversion H; subst; clear H;
  try apply dispatches_error;
  first [apply dispatches_refl
        |eapply dispatches_put; [reflexivity|eassumption|eassumption|];
         dispatch_slot].

Lemma SetSpriteFlags_dispatches e n f e' r :
  TLN_SetSpriteFlags e n f = Done (e', r) -> dispatches e e'.
Proof. unfold TLN_SetSpriteFlags. dispatching. Qed.

Lemma SetSpritePosition_dispatches e n px py e' r :
  TLN_SetSpritePosition e n px py = Done (e', r) -> dispatches e e'.
Proof. unfold TLN_SetSpritePosition. dispatching. Qed.

Lemma SetSpritePicture_dispatches e n i e' r :
  TLN_SetSpritePicture e n i = Done (e', r) -> dispatches e e'.
Proof.
  unfold TLN_SetSpritePicture. intros H. returns H; inversion H; subst; clear H.
  - apply dispatches_error, dispatches_refl.
  - apply CheckBaseObject_sprites in E1 as (Hs & _).
    apply dispatches_sprites. exact Hs.
  - apply CheckBaseObject_sprites in E1 as (Hs & _).
    apply dispatches_error.
    eapply dispatches_put; [exact Hs|eassumption|eassumption|].
    dispatch_slot.
Qed.

Lemma SetSpriteSet_dispatches e n ss e' r :
  TLN_SetSpriteSet e n ss = Done (e', r) -> dispatches e e'.
Proof.
  unfold TLN_SetSpriteSet. intros H. returns H.
  - inversion H; subst. apply dispatches_error, dispatches_refl.
  - inversion H; subst; clear H.
    apply CheckBaseObject_sprites in E0 as (Hs & _).
    apply dispatches_sprites. exact Hs.
  - apply CheckBaseObject_sprites in E0 as (Hs & _).
    apply SetSpritePicture_dispatches in H.
    eapply dispatches_trans; [|exact H].
    unfold get_sprite in E2. rewrite Hs in E2.
    eapply dispatches_put; [exact Hs|exact E2|exact E5|].
    left. destruct (ss_palette a0); destruct a; split; reflexivity.
Qed.

Lemma SetSpritePalette_dispatches e n p e' r :
  TLN_SetSpritePalette e n p = Done (e', r) -> dispatches e e'.
Proof.
  unfold TLN_SetSpritePalette. intros H. returns H; inversion H; subst; clear H.
  - apply dispatches_error, dispatches_refl.
  - apply CheckBaseObject_sprites in E0 as (Hs & _).
    apply dispatches_sprites. exact Hs.
  - apply CheckBaseObject_sprites in E0 as (Hs & _).
    unfold get_sprite in E2. rewrite Hs in E2. apply dispatches_error.
    eapply dispatches_put; [exact Hs|exact E2|exact E3|].
    dispatch_slot.
Qed.

Lemma ConfigSprite_dispatches e n ss f e' r :
  TLN_ConfigSprite e n ss f = Done (e', r) -> dispatches e e'.
Proof.
  unfold TLN_ConfigSprite. intros H. returns H; destruct a as [e1 b].
  - eapply dispatches_trans;
      [eapply SetSpriteSet_dispatches; exact E
      |eapply SetSpriteFlags_dispatches; exact H].
  - inversion H; subst. eapply SetSpriteSet_dispatches; exact E.
Qed.

Lemma GetSpritePalette_dispatches e n e' r :
  TLN_GetSpritePalette e n = Done (e', r) -> dispatches e e'.
Proof. unfold TLN_GetSpritePalette. dispatching. Qed.

Lemma SetSpriteBlendMode_dispatches e n m f e' r :
  TLN_SetSpriteBlendMode e n m f = Done (e', r) -> dispatches e e'.
Proof. unfold TLN_SetSpriteBlendMode. dispatching. Qed.

Lemma SetSpriteScaling_dispatches e n a b e' r :
  TLN_SetSpriteScaling e n a b = Done (e', r) -> dispatches e e'.
Proof. unfold TLN_SetSpriteScaling. dispatching. Qed.

Lemma ResetSpriteScaling_dispatches e n e' r :
  TLN_ResetSpriteScaling e n = Done (e', r) -> dispatches e e'.
Proof. unfold TLN_ResetSpriteScaling. dispatching. Qed.

Ltac dispatching_released :=
  let H := fresh "H" in
  intros H; returns H; inversion H; subst; clear H;
  [apply dispatches_error, dispatches_refl|];
  match goal with
  | R : _ = Done ?r |- _ => apply release_engine in R as (R & _)
  end;
  eapply dispatches_put; [|eassumption|eassumption|];
  [assumption|dispatch_slot].

Lemma SetSpriteRotation_dispatches e n a e' r :
  TLN_SetSpriteRotation e n a = Done (e', r) -> dispatches e e'.
Proof. unfold TLN_SetSpriteRotation. dispatching_released. Qed.

Lemma ResetSpriteRotation_dispatches e n e' r :
  TLN_ResetSpriteRotation e n = Done (e', r) -> dispatches e e'.
Proof. unfold TLN_ResetSpriteRotation. dispatching_released. Qed.

Lemma GetSpritePicture_dispatches e n e' r :
  TLN_GetSpritePicture e n = Done (e', r) -> dispatches e e'.
Proof. unfold TLN_GetSpritePicture. dispatching. Qed.

Lemma GetAvailableSprite_dispatches e e' r :
  TLN_GetAvailableSprite e = Done (e', r) -> dispatches e e'.
Proof. unfold TLN_GetAvailableSprite. dispatching. Qed.

Lemma EnableSpriteCollision_dispatches e n b e' r :
  TLN_EnableSpriteCollision e n b = Done (e', r) -> dispatches e e'.
Proof. unfold TLN_EnableSpriteCollision. dispatching. Qed.

Lemma GetSpriteCollision_dispatches e n e' r :
  TLN_GetSpriteCollision e n = Done (e', r) -> dispatches e e'.
Proof. unfold TLN_GetSpriteCollision. dispatching. Qed.

Lemma DisableSprite_dispatches e n e' r :
  TLN_DisableSprite e n = Done (e', r) -> dispatches e e'.
Proof. unfold TLN_DisableSprite. dispatching. Qed.

Lemma call_dispatches e op e' r :
  call e op = Done (e', r) -> dispatches e e'.
Proof.
  destruct op; simpl; unfold returning; intros H; returns H;
    inversion H; subst; clear H; destruct a as [e1 r1]; simpl;
    eauto using SetSpriteFlags_dispatches, SetSpritePosition_dispatches,
      SetSpritePicture_dispatches, SetSpriteSet_dispatches,
      SetSpritePalette_dispatches, ConfigSprite_dispatches,
      GetSpritePalette_dispatches, SetSpriteBlendMode_dispatches,
      SetSpriteScaling_dispatches, ResetSpriteScaling_dispatches,
      SetSpriteRotation_dispatches, ResetSpriteRotation_dispatches,
      GetSpritePicture_dispatches, GetAvailableSprite_dispatches,
      EnableSpriteCollision_dispatches, GetSpriteCollision_dispatches,
      DisableSprite_dispatches.
Qed.

(** X18.  Every call that writes the mode writes the draw routine of
    that mode with it: once every sprite's draw routine is the one of its
    mode, it is so after any sequence of calls. *)
Theorem draw_routine_follows_the_mode :
  forall (ops : list operation) (e e' : Engine),
    run e ops = Done e' ->
    every_sprite draw_selected e -> every_sprite draw_selected e'.
Proof.
  induction ops as [|op ops IH]; intros e e' Hrun Hall; simpl in Hrun.
  - inversion Hrun; subst. exact Hall.
  - returns Hrun. destruct a as [e1 r]. simpl in Hrun.
    apply (IH _ _ Hrun).
    apply call_dispatches in E.
    intros i s' Hi. destruct (E i s' Hi) as (s & Hs & [[K1 K2]|K]).
    + specialize (Hall i s Hs). unfold draw_selected in *. congruence.
    + exact K.
Qed.

Lemma repainted_refl (a : option TLN_Bitmap) : repainted a a.
Proof.
  destruct a as [x|]; [|exact I]. exists (bm_data x).
  split; [destruct x; reflexivity|reflexivity].
Qed.

Lemma repainted_trans (a b c : option TLN_Bitmap) :
  repainted a b -> repainted b c -> repainted a c.
Proof.
  destruct a as [x|], b as [y|], c as [z|]; simpl; try tauto.
  intros (d1 & -> & H1) (d2 & -> & H2). exists d2.
  split; [reflexivity|]. simpl in H2. congruence.
Qed.

Lemma scan_row_repaints n : forall rotated srcptr xvect r,
  scan_row n rotated srcptr xvect = Done r -> repainted rotated r.
Proof.
  induction n as [|n IH]; intros rotated srcptr xvect r H; cbn [scan_row] in H.
  - inversion H; subst. apply repainted_refl.
  - returns H. apply IH in H.
    destruct rotated as [b|]; [|discriminate].
    inversion E; subst a; clear E.
    eapply repainted_trans; [|exact H].
    exists a2. split; [reflexivity|].
    apply store_Done in E2. subst a2. cbn [get_bitmap_ptr base].
    apply length_insert.
Qed.

Lemma scan_rows_repaints n : forall row spr_w (sprite : Sprite) rotated xv yv r,
  scan_rows n row spr_w sprite rotated xv yv = Done r -> repainted rotated r.
Proof.
  induction n as [|n IH]; intros row spr_w sprite rotated xv yv r H;
    cbn [scan_rows] in H.
  - inversion H; subst. apply repainted_refl.
  - returns H. apply IH in H. apply scan_row_repaints in E.
    eapply repainted_trans; eassumption.
Qed.

(** X19.  When TLN_SetSpriteRotation returns, the sprite is in
    MODE_TRANSFORM with the matching draw routine, and its rotation bitmap
    is the one TLN_CreateBitmap gave for the destination rectangle (one
    pixel larger than its extent on each axis), with pixels stored in it
    and its size unchanged; with no bitmap and nothing to scan it is
    NULL. *)
Theorem SetSpriteRotation_installs_the_bitmap_it_asked_for :
  forall (e e' : Engine) n angle b (s' : Sprite),
    TLN_SetSpriteRotation e n angle = Done (e', b) ->
    n < numsprites e ->
    sprites e' !! Z.to_nat n = Some s' ->
    mode s' = MODE_TRANSFORM /\
    draw s' = Some (GetSpriteDraw MODE_TRANSFORM) /\
    match rotation_request (dstrect s') with
    | Some created =>
        exists data,
          rotation_bitmap s' = LiveBitmap (with_data created data) /\
          length data = length (bm_data created)
    | None => rotation_bitmap s' = NullBitmap
    end.
Proof.
  intros e e' n angle b s' H Hn Hs'.
  unfold TLN_SetSpriteRotation in H. rewrite (in_capacity _ _ Hn) in H.
  returns H. inversion H; subst; clear H.
  apply scan_rows_repaints in E7. rename E7 into Hrep.
  apply put_sprite_sprites in E8 as (Hp & _).
  unfold get_sprite in E. apply load_Done in E as [_ Hg].
  apply lookup_lt_Some in Hg.
  apply release_engine in E0 as (Hrel & _).
  cbn [sprites TLN_SetLastError] in Hp. rewrite Hrel in Hp.
  rewrite Hp, list_lookup_insert_eq in Hs' by exact Hg.
  inversion Hs'; subst s'; clear Hs'.
  split; [destruct a; reflexivity|]. split; [destruct a; reflexivity|].
  unfold rotation_request.
  match goal with
  | |- context [set_dstrect ?r _] =>
      replace (dstrect _) with r by (destruct a; reflexivity)
  end.
  unfold repainted in Hrep.
  destruct (TLN_CreateBitmap _ _ 8) as [created|];
    destruct a4 as [painted|]; try contradiction.
  - destruct Hrep as (data & -> & Hlen). exists data.
    split; [destruct a; reflexivity|exact Hlen].
  - destruct a; reflexivity.
Qed.

(** X2.  TLN_ConfigSprite, TLN_SetSpriteSet and TLN_SetSpritePalette
    test the reference they are given before they touch the sprite: for a
    NULL reference or an object of another type the call returns false
    with an error recorded, and the sprite array is as it was. *)
Theorem invalid_references_are_refused :
  forall (e : Engine) (op : operation) n,
    sprite_index op = Some n -> n < numsprites e ->
    valid_references op = false ->
    exists e' : Engine,
      call e op = Done (e', RBool false) /\
      sprites e' = sprites e /\ numsprites e' = numsprites e /\
      error e' <> TLN_ERR_OK.
Proof.
  intros e op n Hi Hn Hv. pose proof (in_capacity _ _ Hn) as Hc.
  destruct op; try discriminate Hv; simpl in Hi; inversion Hi; subst;
    simpl in Hv |- *;
    unfold TLN_ConfigSprite, TLN_SetSpriteSet, TLN_SetSpritePalette;
    rewrite Hc; unfold CheckBaseObject.
  - destruct spriteset_ as [ss|]; cbn [fmap option_fmap option_map];
      [rewrite Hv|]; cbn; eexists; repeat split; discriminate.
  - destruct spriteset_ as [ss|]; cbn [fmap option_fmap option_map];
      [rewrite Hv|]; cbn; eexists; repeat split; discriminate.
  - destruct palette_ as [pal|]; cbn [fmap option_fmap option_map];
      [rewrite Hv|]; cbn; eexists; repeat split; discriminate.
Qed.

(** X1.  An index at or past the capacity is refused by every call that
    takes one: the failure value comes back, TLN_ERR_IDX_SPRITE is
    recorded and nothing else of the engine changes. *)
Theorem index_past_the_capacity_is_refused :
  forall (e : Engine) (op : operation) (n : Z),
    sprite_index op = Some n -> numsprites e <= n ->
    exists (e' : Engine) (r : retval),
      call e op = Done (e', r) /\ is_failure r = true /\
      error e' = TLN_ERR_IDX_SPRITE /\
      sprites e' = sprites e /\ numsprites e' = numsprites e /\
      framebuffer e' = framebuffer e.
Proof.
  intros e op n Hi Hge.
  destruct (index_beyond_capacity_is_rejected e op n Hi Hge) as (r & Hr & Hf).
  exists (TLN_SetLastError e TLN_ERR_IDX_SPRITE), r.
  repeat split; assumption.
Qed.

End WithPlatform.

(** *** On concrete inputs *)

Import Examples.

Lemma UpdateSprite_normal_clips_at_minus_5 :
  exists s',
    UpdateSprite screen (sprite_at roomy (-5) (-5)) = Done s' /\
    x1 (dstrect s') = Z.max (-5) 0 /\
    y1 (dstrect s') = Z.max (-5) 0 /\
    x2 (dstrect s') = Z.min (-5 + 16) 256 /\
    y2 (dstrect s') = Z.min (-5 + 16) 224 /\
    x1 (srcrect s') - 0 = x1 (dstrect s') - -5 /\
    y1 (srcrect s') - 0 = y1 (dstrect s') - -5 /\
    x2 (srcrect s') - 16 = x2 (dstrect s') - (-5 + 16) /\
    y2 (srcrect s') - 16 = y2 (dstrect s') - (-5 + 16).
Proof.
  apply (proj1 (@UpdateSprite_normal_clips_source_with_destination roomy)
           screen (sprite_at roomy (-5) (-5))
           {| w := 16; h := 16; offset := 0 |});
    try reflexivity; unfold small; simpl; lia.
Defined.

(** C6 as stated fails: a 16x16 picture at (300,50) lies fully outside a
    256x224 framebuffer, and its destination rectangle comes out 44
    pixels inside out and 16 pixels high. *)
Lemma UpdateSprite_offscreen_extent_not_zero :
  fully_outside screen (sprite_at roomy 300 50)
                {| w := 16; h := 16; offset := 0 |} /\
  exists s',
    UpdateSprite screen (sprite_at roomy 300 50) = Done s' /\
    x2 (dstrect s') - x1 (dstrect s') = -44 /\
    y2 (dstrect s') - y1 (dstrect s') = 16.
Proof.
  split.
  - unfold fully_outside. simpl. lia.
  - eexists. split; [reflexivity|]. split; reflexivity.
Qed.

Lemma UpdateSprite_offscreen_at_300 :
  exists s',
    UpdateSprite screen (sprite_at roomy 300 50) = Done s' /\
    (x2 (dstrect s') - x1 (dstrect s') <= 0 \/
     y2 (dstrect s') - y1 (dstrect s') <= 0).
Proof.
  apply (@UpdateSprite_normal_offscreen_is_empty roomy screen
           (sprite_at roomy 300 50) {| w := 16; h := 16; offset := 0 |});
    try reflexivity; try (unfold small; simpl; lia).
  unfold fully_outside; simpl; lia.
Defined.

(** C2 as stated fails: after TLN_SetSpriteSet and TLN_DisableSprite the
    sprite has both references and [ok] is false. *)
Lemma disable_breaks_ok_iff_assigned :
  exists (e' : @Engine roomy) (s : @Sprite roomy),
    run (new_engine 256 224 1) configure_then_disable = Done e' /\
    sprites e' !! 0%nat = Some s /\
    ok s = false /\
    spriteset s = Some (square_set 16 (Some palette_a)) /\
    palette s = Some palette_a.
Proof. do 2 eexists. repeat split. Qed.

(** Two slots: slot 0 is configured, disabled and given another palette,
    slot 1 is disabled as it started, and a TLN_DisableSprite of slot 7 is
    refused.  Slot 0 ends with [ok] set and both references; slot 1
    stands disabled. *)
Lemma ok_after_disable_then_palette :
  exists (e' : @Engine roomy) (s0 s1 : @Sprite roomy),
    run (new_engine 256 224 2) disable_then_palette = Done e' /\
    sprites e' !! 0%nat = Some s0 /\ sprites e' !! 1%nat = Some s1 /\
    (disabled_after 2 0 disable_then_palette false = false /\
     ok s0 = true /\ spriteset s0 = Some (square_set 16 (Some palette_a)) /\
     palette s0 = Some palette_b /\ ok_iff_assigned s0) /\
    (disabled_after 2 1 disable_then_palette false = true /\
     ok s1 = false).
Proof.
  do 3 eexists. split; [reflexivity|]. split; [reflexivity|].
  split; [reflexivity|]. split.
  - split; [reflexivity|]. split; [reflexivity|]. split; [reflexivity|].
    split; [reflexivity|].
    exact (proj1 (proj2 (proj2
             (@ok_tracks_references_until_disabled roomy 256 224 2%nat
                disable_then_palette _ 0%nat _ eq_refl eq_refl)))
             eq_refl).
  - split; [reflexivity|].
    exact (proj2 (proj2 (proj2
             (@ok_tracks_references_until_disabled roomy 256 224 2%nat
                disable_then_palette _ 1%nat _ eq_refl eq_refl)))
             eq_refl).
Defined.


(** C3 on the code: index -1 passes the check of TLN_SetSpritePosition and
    the sprite array is accessed out of bounds. *)
Lemma SetSpritePosition_at_minus_1 :
  call (@new_engine roomy 256 224 1) (SetSpritePosition (-1) 0 0)
    = Crash OutOfBounds.
Proof.
  apply (@negative_index_is_not_rejected roomy (new_engine 256 224 1)
           (SetSpritePosition (-1) 0 0) (-1)).
  - reflexivity.
  - lia.
  - simpl; lia.
  - reflexivity.
Defined.

(** C4 on the code: a 16x16 picture scaled by 1/32. *)
Lemma SetSpriteScaling_by_one_32nd :
  exists e : @Engine roomy,
    run (new_engine 256 224 1) show_16 = Done e /\
    TLN_SetSpriteScaling e 0 one_32nd one_32nd = Crash DivisionByZero.
Proof.
  eexists. split; [reflexivity|].
  eapply (@SetSpriteScaling_zero_span_divides roomy).
  - simpl; lia.
  - reflexivity.
  - reflexivity.
  - reflexivity.
  - vm_compute. reflexivity.
Defined.

(** The same run on any platform. *)
Lemma SetSpriteScaling_by_one_32nd_anywhere :
  forall P : Platform,
    run (new_engine 256 224 1)
        [SetSpriteSet 0 (Some (square_set 16 (Some palette_a)));
         SetSpriteScaling 0 one_32nd one_32nd]
    = Crash DivisionByZero.
Proof. intros P. vm_compute. reflexivity. Qed.

(** C5 on the code: a rotation with no memory left. *)
Lemma SetSpriteRotation_without_memory :
  exists e : @Engine exhausted,
    run (new_engine 256 224 1) show_16 = Done e /\
    TLN_SetSpriteRotation e 0 angle_45 = Crash NullPointer.
Proof.
  eexists. split; [reflexivity|].
  eapply (@SetSpriteRotation_allocation_failure_dereferences_null exhausted).
  - simpl; lia.
  - reflexivity.
  - simpl. discriminate.
  - reflexivity.
  - simpl; lia.
  - simpl; lia.
  - vm_compute. reflexivity.
Defined.


Lemma rotation_45_of_side_3 :
  rotated_square 3
    = Done ({| x1 := 98; y1 := 100; x2 := 100; y2 := 103 |}, Some (3, 4)) /\
  ceil_sqrt2 3 = 5.
Proof. split; vm_compute; reflexivity. Qed.

Lemma rotation_45_of_side_16 :
  rotated_square 16
    = Done ({| x1 := 81; y1 := 103; x2 := 103; y2 := 125 |}, Some (23, 23)) /\
  ceil_sqrt2 16 = 23.
Proof. split; vm_compute; reflexivity. Qed.



(** C8 as stated fails: the palette set through TLN_SetSpritePalette is
    replaced by the palette of the spriteset assigned next. *)
Lemma SetSpriteSet_replaces_the_overriding_palette :
  exists (e1 e2 : @Engine roomy) (s1 s2 : @Sprite roomy),
    call (new_engine 256 224 1) (SetSpritePalette 0 (Some palette_b))
      = Done (e1, RBool true) /\
    sprites e1 !! 0%nat = Some s1 /\ palette s1 = Some palette_b /\
    call e1 (SetSpriteSet 0 (Some (square_set 16 (Some palette_a))))
      = Done (e2, RBool true) /\
    sprites e2 !! 0%nat = Some s2 /\ palette s2 = Some palette_a /\
    palette_a <> palette_b.
Proof. do 4 eexists. repeat split. discriminate. Qed.

(** Slot 0 shows a spriteset with palette_a, has been given palette_b
    and is scaled by two: assigning the spriteset again brings palette_a
    back, in SCALING mode. *)
Lemma SetSpriteSet_on_an_overridden_scaled_sprite :
  palette (sprite_after overridden_and_scaled) = Some palette_b /\
  mode (sprite_after overridden_and_scaled) = MODE_SCALING /\
  TLN_SetSpriteSet (engine_after overridden_and_scaled) 0
                   (Some (square_set 16 (Some palette_a)))
    = Done (assigned_again, true) /\
  error assigned_again = TLN_ERR_OK /\
  exists s' : @Sprite roomy,
    sprites assigned_again
      = <[0%nat := s']> (sprites (engine_after overridden_and_scaled)) /\
    spriteset s' = Some (square_set 16 (Some palette_a)) /\
    palette s' = Some palette_a /\
    ok s' = true /\
    index s' = 0 /\ info s' = Some {| w := 16; h := 16; offset := 0 |} /\
    mode s' = MODE_SCALING.
Proof.
  split; [reflexivity|]. split; [reflexivity|]. split; [reflexivity|].
  apply (proj1 (@SetSpriteSet_adopts_the_spriteset_palette roomy
                  (engine_after overridden_and_scaled) 0
                  (square_set 16 (Some palette_a)) (square_bitmap 16)
                  {| w := 16; h := 16; offset := 0 |} []
                  (sprite_after overridden_and_scaled)
                  ltac:(simpl; lia) eq_refl eq_refl eq_refl eq_refl)
               assigned_again true).
  reflexivity.
Defined.

Lemma SetSpritePosition_on_a_new_engine :
  exists s' : @Sprite roomy,
    TLN_SetSpritePosition (new_engine 256 224 1) 0 7 9
      = Done (TLN_SetLastError
                (set_sprites (<[0%nat := s']>
                                (sprites (@new_engine roomy 256 224 1)))
                             (new_engine 256 224 1))
                TLN_ERR_OK, true) /\
    x s' = 7 /\ y s' = 9 /\
    srcrect s' = srcrect (@new_sprite roomy) /\
    dstrect s' = dstrect (@new_sprite roomy) /\
    same_but_position new_sprite s'.
Proof.
  apply (proj1 (@SetSpritePosition_not_ok_stores_position_only roomy)
           (new_engine 256 224 1) 0 7 9 new_sprite).
  - simpl; lia.
  - reflexivity.
  - reflexivity.
Defined.

(** *** The further properties on concrete inputs *)

Lemma SetSpritePosition_past_the_capacity :
  exists (e' : @Engine roomy) (r : retval),
    call one_slot (SetSpritePosition 1 0 0) = Done (e', r) /\
    is_failure r = true /\
    error e' = TLN_ERR_IDX_SPRITE /\
    sprites e' = sprites one_slot /\ numsprites e' = numsprites one_slot /\
    framebuffer e' = framebuffer one_slot.
Proof.
  apply (@index_past_the_capacity_is_refused roomy one_slot
           (SetSpritePosition 1 0 0) 1).
  - reflexivity.
  - simpl; lia.
Defined.

Lemma SetSpriteSet_of_a_null_reference :
  exists e' : @Engine roomy,
    call one_slot (SetSpriteSet 0 None) = Done (e', RBool false) /\
    sprites e' = sprites one_slot /\ numsprites e' = numsprites one_slot /\
    error e' <> TLN_ERR_OK.
Proof.
  apply (@invalid_references_are_refused roomy one_slot (SetSpriteSet 0 None) 0).
  - reflexivity.
  - simpl; lia.
  - reflexivity.
Defined.

Lemma SetSpritePosition_of_slot_1 :
  only_slot 1 two_slots
    (left_by two_slots (call two_slots (SetSpritePosition 1 7 9))).
Proof.
  apply (@call_rewrites_its_own_slot_only roomy two_slots _
           (SetSpritePosition 1 7 9) 1 (RBool true)).
  - reflexivity.
  - reflexivity.
Defined.

Lemma GetSpritePicture_reads :
  sprites (left_by one_slot (call one_slot (GetSpritePicture 0)))
    = sprites one_slot /\
  numsprites (left_by one_slot (call one_slot (GetSpritePicture 0)))
    = numsprites one_slot /\
  framebuffer (left_by one_slot (call one_slot (GetSpritePicture 0)))
    = framebuffer one_slot.
Proof.
  apply (@queries_leave_every_sprite_alone roomy one_slot _
           (GetSpritePicture 0) (RInt 0)).
  - reflexivity.
  - reflexivity.
Defined.

(** After a refused call the slot holds TLN_ERR_IDX_SPRITE:
    TLN_EnableSpriteCollision leaves it there, TLN_SetSpriteFlags replaces
    it. *)
Lemma last_error_after_EnableSpriteCollision :
  error after_refusal = TLN_ERR_IDX_SPRITE /\
  error (left_by after_refusal
           (call after_refusal (EnableSpriteCollision 0 true)))
    = TLN_ERR_IDX_SPRITE /\
  error (left_by after_refusal (call after_refusal (SetSpriteFlags 0 0)))
    = TLN_ERR_OK.
Proof.
  split; [reflexivity|]. split.
  - apply (proj1 (@last_error_after_a_call roomy after_refusal _
                    (EnableSpriteCollision 0 true) (RBool true) eq_refl
                    ltac:(intros n Hn; inversion Hn; subst; simpl; lia))).
    reflexivity.
  - apply (proj2 (@last_error_after_a_call roomy after_refusal _
                    (SetSpriteFlags 0 0) (RBool true) eq_refl
                    ltac:(intros n Hn; inversion Hn; subst; simpl; lia))).
    + reflexivity.
    + discriminate.
Defined.

Lemma GetAvailableSprite_of_two_free_slots :
  exists c,
    TLN_GetAvailableSprite two_slots
      = Done (TLN_SetLastError two_slots TLN_ERR_OK, c) /\
    ((c = -1 /\
      forall i s, sprites two_slots !! i = Some s -> ok s = true) \/
     (0 <= c < numsprites two_slots /\
      (exists s, sprites two_slots !! Z.to_nat c = Some s /\ ok s = false) /\
      forall i s, (i < Z.to_nat c)%nat -> sprites two_slots !! i = Some s ->
                  ok s = true)).
Proof.
  apply (@GetAvailableSprite_finds_the_first_unused_slot roomy two_slots).
  - reflexivity.
  - unfold INT_MAX; simpl; lia.
Defined.

Lemma DisableSprite_frees_slot_0 :
  exists (e1 e2 : @Engine roomy) c,
    TLN_DisableSprite (engine_after show_16) 0 = Done (e1, true) /\
    TLN_GetAvailableSprite e1 = Done (e2, c) /\
    0 <= c <= 0 /\
    (forall i s, (i < Z.to_nat c)%nat ->
                 sprites (engine_after show_16) !! i = Some s ->
                 ok s = true).
Proof.
  apply (@a_disabled_sprite_is_available roomy (engine_after show_16) 0).
  - reflexivity.
  - unfold INT_MAX; simpl; lia.
  - simpl; lia.
Defined.

Lemma slot_0_is_taken_once_configured :
  exists (e3 : @Engine roomy) c',
    TLN_GetAvailableSprite
      (left_by two_slots
         (TLN_SetSpriteSet (TLN_SetLastError two_slots TLN_ERR_OK) 0
            (Some (square_set 16 (Some palette_a)))))
      = Done (e3, c') /\
    (c' = -1 \/ 0 < c').
Proof.
  apply (@a_configured_slot_is_not_offered_again roomy two_slots
           (TLN_SetLastError two_slots TLN_ERR_OK) _ 0
           (square_set 16 (Some palette_a)) palette_a).
  - reflexivity.
  - unfold INT_MAX; simpl; lia.
  - reflexivity.
  - lia.
  - reflexivity.
  - reflexivity.
Defined.

Lemma SetSpritePalette_round_trip :
  exists (e' : @Engine roomy) (s' : @Sprite roomy),
    TLN_SetSpritePalette one_slot 0 (Some palette_b) = Done (e', true) /\
    error e' = TLN_ERR_OK /\
    sprites e' = <[0%nat := s']> (sprites one_slot) /\
    palette s' = Some palette_b /\
    spriteset s' = spriteset (@new_sprite roomy) /\
    ok s' = non_null (spriteset (@new_sprite roomy)) /\
    srcrect s' = srcrect (@new_sprite roomy) /\
    dstrect s' = dstrect (@new_sprite roomy) /\
    TLN_GetSpritePalette e' 0 = Done (e', Some palette_b).
Proof.
  apply (@SetSpritePalette_then_GetSpritePalette roomy one_slot 0 new_sprite
           palette_b).
  - simpl; lia.
  - reflexivity.
  - reflexivity.
Defined.

Lemma SetSpritePicture_round_trip :
  exists (e' : @Engine roomy) (s' : @Sprite roomy),
    TLN_SetSpritePicture (engine_after show_16) 0 0 = Done (e', true) /\
    error e' = TLN_ERR_OK /\
    sprites e' = <[0%nat := s']> (sprites (engine_after show_16)) /\
    index s' = 0 /\ info s' = Some {| w := 16; h := 16; offset := 0 |} /\
    pixels s' = Some {| base := bm_data (square_bitmap 16); at_ := 0 |} /\
    TLN_GetSpritePicture e' 0 = Done (e', 0).
Proof.
  apply (@SetSpritePicture_then_GetSpritePicture roomy (engine_after show_16)
           0 (sprite_after show_16) (square_set 16 (Some palette_a))
           (square_bitmap 16) {| w := 16; h := 16; offset := 0 |} 0).
  - simpl; lia.
  - reflexivity.
  - reflexivity.
  - reflexivity.
  - reflexivity.
  - lia.
  - reflexivity.
  - discriminate.
Defined.

Lemma SetSpritePicture_5_of_1 :
  TLN_SetSpritePicture (engine_after show_16) 0 5 = Crash OutOfBounds.
Proof.
  apply (@SetSpritePicture_outside_the_table roomy (engine_after show_16) 0
           (sprite_after show_16) (square_set 16 (Some palette_a)) 5).
  - simpl; lia.
  - reflexivity.
  - reflexivity.
  - reflexivity.
  - right. simpl; lia.
Defined.

Lemma UpdateSprite_at_the_corner :
  exists s' : @Sprite roomy,
    UpdateSprite screen (sprite_at roomy 250 (-5)) = Done s' /\
    within screen (dstrect s').
Proof.
  eexists. split; [reflexivity|].
  eapply (@UpdateSprite_clips_to_the_framebuffer roomy screen
            (sprite_at roomy 250 (-5))).
  - reflexivity.
  - discriminate.
  - reflexivity.
Defined.

Lemma SetSpritePosition_twice :
  TLN_SetSpritePosition
    (left_by (engine_after show_16)
       (TLN_SetSpritePosition (engine_after show_16) 0 10 10)) 0 20 30
  = TLN_SetSpritePosition (engine_after show_16) 0 20 30.
Proof.
  apply (@SetSpritePosition_last_call_wins roomy (engine_after show_16) _ 0
           10 10 20 30).
  reflexivity.
Defined.

Lemma SetSpritePosition_of_a_rotated_sprite :
  exists (e' : @Engine roomy) (s' : @Sprite roomy),
    TLN_SetSpritePosition (engine_with rotated_sprite) 0 100 50
      = Done (e', true) /\
    sprites e' = <[0%nat := s']> (sprites (engine_with rotated_sprite)) /\
    x s' = 100 /\ y s' = 50 /\
    dstrect s' = dstrect rotated_sprite /\
    rotation_bitmap s' = rotation_bitmap rotated_sprite /\
    srcrect s' = {| x1 := 0; y1 := 0; x2 := 16; y2 := 16 |}.
Proof.
  apply (@SetSpritePosition_does_not_move_a_rotated_sprite roomy
           (engine_with rotated_sprite) 0 100 50 rotated_sprite
           {| w := 16; h := 16; offset := 0 |}).
  - simpl; lia.
  - reflexivity.
  - reflexivity.
  - reflexivity.
  - reflexivity.
Defined.

Lemma UpdateSprite_scaled_by_two :
  ((exists s', UpdateSprite screen scaled_sprite = Done s') <->
   (32 <> 0 /\ 32 <> 0 /\
    ~ (1048576 = INT_MIN /\ 32 = -1) /\ ~ (1048576 = INT_MIN /\ 32 = -1))) /\
  (forall s', UpdateSprite screen scaled_sprite = Done s' ->
              dx s' = Z.quot 1048576 32 /\ dy s' = Z.quot 1048576 32).
Proof.
  apply (@UpdateSprite_scaling_returns_iff roomy screen scaled_sprite
           {| w := 16; h := 16; offset := 0 |}).
  - reflexivity.
  - reflexivity.
  - reflexivity.
Defined.

Lemma ResetSpriteScaling_of_a_configured_sprite :
  exists (e' : @Engine roomy) (s' : @Sprite roomy),
    TLN_ResetSpriteScaling (engine_with scaled_sprite) 0 = Done (e', true) /\
    error e' = TLN_ERR_OK /\
    sprites e' = <[0%nat := s']> (sprites (engine_with scaled_sprite)) /\
    mode s' = MODE_NORMAL /\ sx s' = f_one /\ sy s' = f_one /\
    dstrect s' =
      {| x1 := Z.max 10 0; y1 := Z.max 10 0;
         x2 := Z.min (10 + 16) 256; y2 := Z.min (10 + 16) 224 |} /\
    x2 (srcrect s') - x1 (srcrect s') = x2 (dstrect s') - x1 (dstrect s') /\
    y2 (srcrect s') - y1 (srcrect s') = y2 (dstrect s') - y1 (dstrect s').
Proof.
  apply (@ResetSpriteScaling_restores_normal_clipping roomy
           (engine_with scaled_sprite) 0 scaled_sprite
           {| w := 16; h := 16; offset := 0 |});
    try reflexivity; try (unfold small; simpl; lia).
Defined.

Lemma ResetSpriteScaling_selects_the_blitter :
  (selects_blitter (ResetSpriteScaling 0) = true ->
   blitter_selected
     (slot_0 (left_by (engine_with scaled_sprite)
                (call (engine_with scaled_sprite) (ResetSpriteScaling 0))))) /\
  (is_rotation (ResetSpriteScaling 0) = true ->
   blitter
     (slot_0 (left_by (engine_with scaled_sprite)
                (call (engine_with scaled_sprite) (ResetSpriteScaling 0))))
   = blitter scaled_sprite).
Proof.
  apply (@blitter_is_reselected_except_by_rotation roomy
           (engine_with scaled_sprite)
           (left_by (engine_with scaled_sprite)
              (call (engine_with scaled_sprite) (ResetSpriteScaling 0)))
           (ResetSpriteScaling 0) 0 (RBool true) scaled_sprite).
  - reflexivity.
  - reflexivity.
  - simpl; lia.
  - reflexivity.
  - reflexivity.
Defined.

Lemma draw_routine_after_two_calls :
  every_sprite draw_selected
    (left_by (engine_with drawn_sprite)
       (TLN_ResetSpriteRotation
          (left_by (engine_with drawn_sprite)
             (TLN_SetSpritePosition (engine_with drawn_sprite) 0 3 4))
          0)).
Proof.
  apply (@draw_routine_follows_the_mode roomy
           [SetSpritePosition 0 3 4; ResetSpriteRotation 0]
           (engine_with drawn_sprite)).
  - reflexivity.
  - intros [|i] s Hs.
    + inversion Hs; subst. reflexivity.
    + destruct i; discriminate Hs.
Defined.

Lemma SetSpriteRotation_of_a_single_pixel_installs_a_bitmap :
  mode turned_pixel = MODE_TRANSFORM /\
  draw turned_pixel = Some (@GetSpriteDraw roomy MODE_TRANSFORM) /\
  match @rotation_request roomy (dstrect turned_pixel) with
  | Some created =>
      exists data,
        rotation_bitmap turned_pixel = LiveBitmap (with_data created data) /\
        length data = length (bm_data created)
  | None => rotation_bitmap turned_pixel = NullBitmap
  end.
Proof.
  apply (@SetSpriteRotation_installs_the_bitmap_it_asked_for roomy
           (engine_after (show_square 1))
           (left_by (engine_after (show_square 1))
              (TLN_SetSpriteRotation (engine_after (show_square 1)) 0
                 angle_45))
           0 angle_45 true).
  - reflexivity.
  - simpl; lia.
  - reflexivity.
Defined.

Lemma ResetSpriteRotation_twice :
  exists (e' : @Engine roomy) (s' : @Sprite roomy),
    TLN_ResetSpriteRotation (engine_with rotated_sprite) 0 = Done (e', true) /\
    sprites e' = <[0%nat := s']> (sprites (engine_with rotated_sprite)) /\
    mode s' = MODE_NORMAL /\
    rotation_bitmap s' = FreedBitmap /\
    TLN_ResetSpriteRotation e' 0 = Crash UseAfterFree /\
    (forall angle, TLN_SetSpriteRotation e' 0 angle = Crash UseAfterFree).
Proof.
  apply (@ResetSpriteRotation_leaves_the_released_handle roomy
           (engine_with rotated_sprite) 0 rotated_sprite (square_bitmap 23)).
  - simpl; lia.
  - reflexivity.
  - reflexivity.
Defined.

Lemma SetSpriteRotation_of_a_new_sprite :
  TLN_SetSpriteRotation one_slot 0 angle_45 = Crash NullPointer.
Proof.
  apply (@SetSpriteRotation_without_a_picture roomy one_slot 0 angle_45
           new_sprite).
  - simpl; lia.
  - reflexivity.
  - reflexivity.
  - discriminate.
Defined.

End SpriteProofs.

(* ===================================================================== *)
(** ** Properties of the tileset loader callback *)
(* ===================================================================== *)

Module LoadTilesetProofs.
Import C LoadTileset SpriteProofs Examples.
Local Open Scope string_scope.
Local Open Scope Z_scope.

(** Strings that compare equal without case start with the same letter,
    case aside. *)
Lemma strcasecmp_head a c b :
  strcasecmp a (String c b) = 0 -> tolower c <> 0 ->
  exists d a', a = String d a' /\ tolower d = tolower c.
Proof.
  destruct a as [|d a']; simpl; intros H Hc.
  - lia.
  - destruct (Z.eqb_spec (tolower d) (tolower c)) as [E|E].
    + exists d, a'. split; [reflexivity|exact E].
    + lia.
Qed.

Lemma strcasecmp_other_head d a' c b :
  tolower d <> tolower c -> (strcasecmp (String d a') (String c b) =? 0) = false.
Proof.
  intros H. simpl. destruct (Z.eqb_spec (tolower d) (tolower c)); [contradiction|].
  apply Z.eqb_neq. lia.
Qed.

Lemma strcasecmp_eq a b : strcasecmp a b = 0 -> (strcasecmp a b =? 0) = true.
Proof. intros ->. reflexivity. Qed.

(** Which branch of the callback an attribute of a <property> tag takes. *)
Ltac other_tag H :=
  apply strcasecmp_head in H as (?d & ?a' & -> & ?Hd); [|vm_compute; discriminate];
  rewrite ?strcasecmp_other_head by (rewrite Hd; vm_compute; discriminate).

Lemma handler_property_name loader szName szAttribute szValue :
  strcasecmp szName "property" = 0 -> strcasecmp szAttribute "name" = 0 ->
  strcasecmp szValue "priority" = 0 ->
  handler loader ADD_ATTRIBUTE szName szAttribute szValue
    = Done (set_property PROPERTY_PRIORITY loader).
Proof.
  intros Hn Ha Hv. unfold handler.
  pose proof (strcasecmp_eq _ _ Hn) as Hn'.
  pose proof (strcasecmp_eq _ _ Ha) as Ha'.
  pose proof (strcasecmp_eq _ _ Hv) as Hv'.
  apply strcasecmp_head in Hn as (d & a' & -> & Hd); [|vm_compute; discriminate].
  rewrite !strcasecmp_other_head by (rewrite Hd; vm_compute; discriminate).
  rewrite Hn', Ha'.
  apply strcasecmp_head in Hv as (d' & v' & -> & Hd'); [|vm_compute; discriminate].
  rewrite strcasecmp_other_head by (rewrite Hd'; vm_compute; discriminate).
  rewrite Hv'. reflexivity.
Qed.

Lemma update_attributes_in_range loader f attrs a :
  attributes loader = Some attrs -> 0 <= tile_id loader ->
  attrs !! Z.to_nat (tile_id loader) = Some a ->
  update_attributes loader f
    = Done (set_attributes
              (Some (<[Z.to_nat (tile_id loader) := f a]> attrs)) loader).
Proof.
  intros Hat Hlo Hl. unfold update_attributes. rewrite Hat. cbn [bind deref].
  rewrite (load_lookup _ _ _ Hlo Hl). cbn [bind].
  rewrite (store_lookup _ _ _ _ Hlo Hl). reflexivity.
Qed.

Lemma handler_property_value loader szName szAttribute szValue attrs a :
  strcasecmp szName "property" = 0 -> strcasecmp szAttribute "value" = 0 ->
  property loader = PROPERTY_PRIORITY ->
  attributes loader = Some attrs -> 0 <= tile_id loader ->
  attrs !! Z.to_nat (tile_id loader) = Some a ->
  handler loader ADD_ATTRIBUTE szName szAttribute szValue
    = Done (set_attributes
              (Some (<[Z.to_nat (tile_id loader) := set_priority true a]> attrs))
              loader).
Proof.
  intros Hn Ha Hp Hat Hlo Hl. unfold handler.
  pose proof (strcasecmp_eq _ _ Hn) as Hn'.
  pose proof (strcasecmp_eq _ _ Ha) as Ha'.
  apply strcasecmp_head in Hn as (d & a' & -> & Hd); [|vm_compute; discriminate].
  rewrite !strcasecmp_other_head by (rewrite Hd; vm_compute; discriminate).
  rewrite Hn'.
  apply strcasecmp_head in Ha as (d' & v' & -> & Hd'); [|vm_compute; discriminate].
  rewrite strcasecmp_other_head by (rewrite Hd'; vm_compute; discriminate).
  rewrite Ha', Hp.
  destruct (strcasecmp szValue "true" =? 0);
    apply update_attributes_in_range; assumption.
Qed.

(** C9.  For a <property> tag named "priority", the value attribute sets
    the priority flag of the current tile to true whatever the value
    string is: the branch for "true" and the branch for anything else
    store the same flag.  The tile's type is left as it was. *)
Theorem priority_property_sets_priority_whatever_its_value :
  forall loader tag1 att1 val1 tag2 att2 val2 attrs a,
    strcasecmp tag1 "property" = 0 -> strcasecmp att1 "name" = 0 ->
    strcasecmp val1 "priority" = 0 ->
    strcasecmp tag2 "property" = 0 -> strcasecmp att2 "value" = 0 ->
    attributes loader = Some attrs -> 0 <= tile_id loader ->
    attrs !! Z.to_nat (tile_id loader) = Some a ->
    exists loader',
      feed loader [(ADD_ATTRIBUTE, tag1, att1, val1);
                   (ADD_ATTRIBUTE, tag2, att2, val2)] = Done loader' /\
      attributes loader' =
        Some (<[Z.to_nat (tile_id loader) :=
                  {| type := type a; priority := true |}]> attrs) /\
      property loader' = PROPERTY_PRIORITY /\
      same_but_properties loader loader'.
Proof.
  intros loader tag1 att1 val1 tag2 att2 val2 attrs a
         H1 H2 H3 H4 H5 Hat Hlo Hl.
  eexists. split.
  - cbn [feed]. rewrite (handler_property_name _ _ _ _ H1 H2 H3). cbn [bind].
    rewrite (handler_property_value _ _ _ val2 attrs a H4 H5);
      destruct loader; first [reflexivity|assumption].
  - destruct loader; cbn. repeat split.
Qed.

Lemma priority_false_sets_priority :
  exists loader',
    feed some_loader [(ADD_ATTRIBUTE, "property", "name", "priority");
                      (ADD_ATTRIBUTE, "property", "value", "false")]
      = Done loader' /\
    attributes loader' =
      Some [ {| type := 0; priority := false |};
             {| type := 0; priority := false |};
             {| type := 0; priority := true |};
             {| type := 0; priority := false |} ] /\
    property loader' = PROPERTY_PRIORITY /\
    same_but_properties some_loader loader'.
Proof.
  apply (priority_property_sets_priority_whatever_its_value some_loader
           "property" "name" "priority" "property" "value" "false"
           (repeat {| type := 0; priority := false |} 4)
           {| type := 0; priority := false |});
    try reflexivity. simpl; lia.
Defined.

(** *** The callback on a whole tag, and TLN_LoadTileset *)

Import TilesetExamples.

Section WithHost.
Context {H : Host}.

Lemma update_attributes_source loader f l' :
  update_attributes loader f = Done l' -> source l' = source loader.
Proof.
  unfold update_attributes. intros E. returns E. inversion E; subst.
  destruct loader; reflexivity.
Qed.

Lemma update_frame_source loader f l' :
  update_frame loader f = Done l' -> source l' = source loader.
Proof.
  unfold update_frame. intros E. returns E. inversion E; subst.
  destruct loader; reflexivity.
Qed.

(** Only the [source] attribute of an <image> tag writes
    [loader.source]. *)
Lemma handler_source loader evt szName szAttribute szValue l' :
  handler loader evt szName szAttribute szValue = Done l' ->
  names_source (evt, szName, szAttribute, szValue) = false ->
  source l' = source loader.
Proof.
  unfold handler, names_source.
  destruct evt;
    repeat match goal with
           | |- context [if ?c then _ else _] => destruct c
           | |- context [match property ?l with _ => _ end] =>
               destruct (property l)
           end;
    cbn [negb andb]; intros E Hn; try discriminate Hn; try discriminate E;
    returns E;
    try (inversion E; subst;
         first [reflexivity|destruct loader; reflexivity]);
    first [eapply update_attributes_source; exact E
          |eapply update_frame_source; exact E].
Qed.

Lemma feed_source calls : forall loader l',
  feed loader calls = Done l' ->
  forallb (fun c => negb (names_source c)) calls = true ->
  source l' = source loader.
Proof.
  induction calls as [|[[[evt n] a] v] calls IH]; intros loader l' E Hall.
  - inversion E; subst. reflexivity.
  - cbn [feed] in E. returns E. cbn [forallb] in Hall.
    apply andb_true_iff in Hall as [Hc Hall].
    rewrite (IH _ _ E Hall).
    eapply handler_source; [eassumption|].
    apply negb_true_iff. exact Hc.
Qed.

(** X27.  When simpleXmlCreateParser returns NULL, TLN_LoadTileset
    records TLN_ERR_OUT_OF_MEMORY and goes on: the zeroed loader has no
    image source, so it returns NULL with TLN_ERR_WRONG_FORMAT
    recorded. *)
Theorem LoadTileset_without_a_parser :
  forall filename err data size,
    LoadFile filename = (Some data, size) ->
    simpleXmlCreateParser data size = None ->
    simpleXmlDestroyParser None = Done tt ->
    TLN_LoadTileset filename err = Done (None, TLN_ERR_WRONG_FORMAT).
Proof.
  intros filename err data size Hf Hp Hd.
  unfold TLN_LoadTileset, parse. rewrite Hf, Hp. cbn [bind].
  rewrite Hd. reflexivity.
Qed.

(** X28.  For a document none of whose calls is the source attribute of
    an <image> tag, TLN_LoadTileset returns NULL with
    TLN_ERR_WRONG_FORMAT recorded, whether the parser reported success or
    not. *)
Theorem LoadTileset_without_an_image_source :
  forall filename err data size p loader,
    LoadFile filename = (Some data, size) ->
    simpleXmlCreateParser data size = Some p ->
    simpleXmlDestroyParser (Some p) = Done tt ->
    feed zeroed (simpleXmlParse_calls p) = Done loader ->
    forallb (fun c => negb (names_source c)) (simpleXmlParse_calls p) = true ->
    TLN_LoadTileset filename err = Done (None, TLN_ERR_WRONG_FORMAT).
Proof.
  intros filename err data size p loader Hf Hp Hd Hfeed Hall.
  pose proof (feed_source _ _ _ Hfeed Hall) as Hs. cbn [source zeroed] in Hs.
  unfold TLN_LoadTileset, parse. rewrite Hf, Hp, Hfeed. cbn [bind].
  destruct (simpleXmlParse_result p =? 0); cbn [negb bind]; rewrite Hd;
    cbn [bind]; [|reflexivity].
  rewrite Hs. reflexivity.
Qed.

(** X29.  TLN_LoadTileset divides the picture's width by
    [tilewidth + spacing] with no test: a document that names a picture
    and leaves that sum zero (no tilewidth attribute, for one) divides by
    zero once the picture is loaded. *)
Theorem LoadTileset_zero_tile_step :
  forall filename err data size p loader c s bitmap err',
    LoadFile filename = (Some data, size) ->
    simpleXmlCreateParser data size = Some p ->
    simpleXmlParse_result p = 0 ->
    simpleXmlDestroyParser (Some p) = Done tt ->
    feed zeroed (simpleXmlParse_calls p) = Done loader ->
    source loader = String c s ->
    TLN_LoadBitmap (String c s) err = (Some bitmap, err') ->
    add (tilewidth loader) (spacing loader) = 0 ->
    TLN_LoadTileset filename err = Crash DivisionByZero.
Proof.
  intros filename err data size p loader c s bitmap err'
         Hf Hp Hr Hd Hfeed Hs Hb Hdx.
  unfold TLN_LoadTileset, parse. rewrite Hf, Hp, Hfeed, Hr. cbn [bind negb Z.eqb].
  rewrite Hd. cbn [bind]. rewrite Hs, Hb.
  unfold create_tileset. rewrite Hdx.
  destruct (TLN_GetBitmapWidth bitmap err') as [wd e1].
  reflexivity.
Qed.

Lemma div_upper a b q : div a b = Done q -> is_int a -> q <= INT_MAX.
Proof.
  unfold div.
  destruct (Z.eqb_spec b 0) as [|Hb]; [discriminate|].
  destruct (Z.eqb_spec a INT_MIN) as [Ha|Ha];
    destruct (Z.eqb_spec b (-1)) as [Hb1|Hb1]; cbn [andb];
    try discriminate; intros E Hi; inversion E; subst q; clear E;
    pose proof (Z.quot_rem' a b) as Hq;
    pose proof (Z.rem_bound_abs a b Hb) as Hr;
    unfold is_int, INT_MIN, INT_MAX in *;
    destruct (Z.abs_spec b) as [[? Hab]|[? Hab]];
    destruct (Z.abs_spec (Z.rem a b)) as [[? Har]|[? Har]];
    rewrite Hab, Har in Hr; nia.
Qed.

(** One row of the grid, in closed form. *)
Lemma load_row_spec loader bitmap dx dy pitch y n :
  forall x id tileset,
    0 <= x -> 0 <= id ->
    x + Z.of_nat n <= INT_MAX -> id + Z.of_nat n <= INT_MAX ->
    load_row n loader bitmap dx dy pitch y x id tileset =
    (fold_left (load_tile loader bitmap dx dy pitch)
               (map (fun x' => (id + (x' - x), x', y)) (seqZ x (Z.of_nat n)))
               tileset,
     id + Z.of_nat n).
Proof.
  induction n as [|n IH]; intros x id tileset Hx Hid Hxn Hidn.
  - cbn [load_row]. rewrite seqZ_nil by lia. cbn. f_equal. lia.
  - cbn [load_row]. rewrite !add_1_small by lia.
    rewrite IH by lia.
    rewrite (seqZ_cons x) by lia. cbn [map fold_left].
    replace (Z.pred (Z.of_nat (S n))) with (Z.of_nat n) by lia.
    replace (x - x) with 0 by lia. rewrite Z.add_0_r.
    f_equal; [|lia]. f_equal.
    apply map_ext_in. intros x' _. f_equal. f_equal. lia.
Qed.

(** The rows of the grid, in closed form. *)
Lemma load_rows_spec loader bitmap dx dy pitch htiles n :
  0 <= htiles <= INT_MAX ->
  forall y id tileset,
    0 <= y -> 0 <= id ->
    y + Z.of_nat n <= INT_MAX -> id + Z.of_nat n * htiles <= INT_MAX ->
    load_rows n loader bitmap dx dy pitch htiles y id tileset =
    fold_left (load_tile loader bitmap dx dy pitch)
      (flat_map (fun y' => map (fun x' => (id + (y' - y) * htiles + x', x', y'))
                               (seqZ 0 htiles))
                (seqZ y (Z.of_nat n)))
      tileset.
Proof.
  intros Hh. induction n as [|n IH]; intros y id tileset Hy Hid Hyn Hidn.
  - cbn [load_rows]. change (Z.of_nat 0) with 0. reflexivity.
  - cbn [load_rows].
    assert (Hrow : id + htiles <= INT_MAX) by nia.
    assert (Hrest : id + htiles + Z.of_nat n * htiles <= INT_MAX) by nia.
    rewrite load_row_spec by lia.
    rewrite Z2Nat.id by lia.
    rewrite add_1_small by lia. rewrite IH by lia.
    rewrite (seqZ_cons y) by lia. cbn [flat_map].
    replace (Z.pred (Z.of_nat (S n))) with (Z.of_nat n) by lia.
    rewrite fold_left_app. f_equal.
    + apply flat_map_ext. intros y'. apply map_ext. intros x'.
      f_equal. f_equal. lia.
    + f_equal. apply map_ext. intros x'. f_equal. f_equal. lia.
Qed.

(** X30.  On the path that returns a tileset, TLN_ERR_OK is recorded
    and tile ids run from 1, row by row and left to right in each row:
    tile [1 + y * htiles + x] takes its pixels at
    [(margin + x * dx, margin + y * dy)] of the picture. *)
Theorem LoadTileset_numbers_the_tiles_row_by_row :
  forall filename err data size p loader c s bitmap e1 wd e2 ht e3 pal e4
         pal' e5 tileset e6 htiles vtiles,
    LoadFile filename = (Some data, size) ->
    simpleXmlCreateParser data size = Some p ->
    simpleXmlParse_result p = 0 ->
    simpleXmlDestroyParser (Some p) = Done tt ->
    feed zeroed (simpleXmlParse_calls p) = Done loader ->
    source loader = String c s ->
    TLN_LoadBitmap (String c s) err = (Some bitmap, e1) ->
    let dx := add (tilewidth loader) (spacing loader) in
    let dy := add (tileheight loader) (spacing loader) in
    TLN_GetBitmapWidth bitmap e1 = (wd, e2) ->
    div (add (sub wd (mul (margin loader) 2)) (spacing loader)) dx
      = Done htiles ->
    TLN_GetBitmapHeight bitmap e2 = (ht, e3) ->
    div (add (sub ht (mul (margin loader) 2)) (spacing loader)) dy
      = Done vtiles ->
    TLN_GetBitmapPalette bitmap e3 = (pal, e4) ->
    TLN_ClonePalette pal e4 = (pal', e5) ->
    TLN_CreateTileset (mul htiles vtiles) (tilewidth loader)
      (tileheight loader) pal' (sp loader) (attributes loader) e5
      = (Some tileset, e6) ->
    0 <= htiles -> 0 <= vtiles -> htiles * vtiles < INT_MAX ->
    TLN_LoadTileset filename err =
    Done (Some (fold_left
                  (load_tile loader bitmap dx dy (TLN_GetBitmapPitch bitmap))
                  (placements htiles vtiles) tileset),
          TLN_ERR_OK).
Proof.
  intros filename err data size p loader c s bitmap e1 wd e2 ht e3 pal e4
         pal' e5 tileset e6 htiles vtiles
         Hf Hp Hr Hd Hfeed Hs Hb dx dy Hw Hh Hht Hv Hpal Hcl Hct Hh0 Hv0 Hn.
  unfold TLN_LoadTileset, parse. rewrite Hf, Hp, Hfeed, Hr. cbn [bind negb Z.eqb].
  rewrite Hd. cbn [bind]. rewrite Hs, Hb.
  unfold create_tileset. fold dx dy. rewrite Hw, Hh. cbn [bind].
  rewrite Hht, Hv. cbn [bind]. rewrite Hpal, Hcl, Hct.
  do 2 f_equal. f_equal.
  destruct (Z.eq_dec vtiles 0) as [->|Hv1].
  { reflexivity. }
  assert (Hhm : htiles <= INT_MAX)
    by (eapply div_upper; [exact Hh|apply wrap_is_int]).
  assert (Hvm : vtiles <= INT_MAX)
    by (eapply div_upper; [exact Hv|apply wrap_is_int]).
  rewrite load_rows_spec by (rewrite ?Z2Nat.id by lia; lia).
  rewrite Z2Nat.id by lia. unfold placements.
  f_equal. apply flat_map_ext. intros y'. apply map_ext. intros x'.
  f_equal. f_equal. lia.
Qed.
End WithHost.

(** *** The callback on its own *)

Lemma handler_sub_animation loader :
  handler loader ADD_SUBTAG "animation" "" "" = Done (set_frame_count 0 loader).
Proof. reflexivity. Qed.

Lemma handler_frame_tileid loader v :
  handler loader ADD_ATTRIBUTE "frame" "tileid" v =
  update_frame loader (fun f => {| index := atoi v; delay := delay f |}).
Proof. reflexivity. Qed.

Lemma handler_frame_duration loader v :
  handler loader ADD_ATTRIBUTE "frame" "duration" v =
  update_frame loader
    (fun f => {| index := index f;
                 delay := Z.quot (mul (atoi v) 60) 1000 |}).
Proof. reflexivity. Qed.

Lemma handler_finish_frame loader :
  handler loader FINISH_TAG "frame" "" "" =
  Done (set_frame_count (add (frame_count loader) 1) loader).
Proof. reflexivity. Qed.

Lemma handler_finish_animation loader :
  handler loader FINISH_TAG "animation" "" "" =
  Done (set_sp (Some (app match sp loader with Some p => p | None => [] end
                          [{| target := tile_id loader;
                              count := frame_count loader;
                              seq_frames := firstn (Z.to_nat (frame_count loader))
                                                   (frames loader) |}]))
               loader).
Proof. reflexivity. Qed.

Lemma update_frame_in_range loader f fr :
  0 <= frame_count loader ->
  frames loader !! Z.to_nat (frame_count loader) = Some fr ->
  update_frame loader f =
  Done (set_frames (<[Z.to_nat (frame_count loader) := f fr]> (frames loader))
                   loader).
Proof.
  intros Hlo Hl. unfold update_frame.
  rewrite (load_lookup _ _ _ Hlo Hl). cbn [bind].
  rewrite (store_lookup _ _ _ _ Hlo Hl). reflexivity.
Qed.

Lemma update_frame_beyond loader f :
  Z.of_nat (length (frames loader)) <= frame_count loader ->
  update_frame loader f = Crash OutOfBounds.
Proof.
  intros Hge. unfold update_frame, load.
  destruct (Z.ltb_spec (frame_count loader) 0); [reflexivity|].
  destruct (Z.leb_spec (Z.of_nat (length (frames loader))) (frame_count loader));
    [reflexivity|lia].
Qed.

Lemma feed_app calls1 : forall loader calls2,
  feed loader (calls1 ++ calls2) =
  LET loader <- feed loader calls1 IN feed loader calls2.
Proof.
  induction calls1 as [|[[[evt n] a] v] calls1 IH]; intros loader calls2.
  - reflexivity.
  - cbn [app feed]. destruct (handler loader evt n a v); cbn [bind]; [apply IH|reflexivity].
Qed.

(** The calls of one <frame> fill the slot at [frame_count] and move
    on. *)
Lemma frame_fed loader f fr :
  0 <= frame_count loader < INT_MAX ->
  frames loader !! Z.to_nat (frame_count loader) = Some fr ->
  feed loader (frame_calls f) =
  Done (set_frame_count (frame_count loader + 1)
          (set_frames (<[Z.to_nat (frame_count loader) := frame_of f]>
                         (frames loader)) loader)).
Proof.
  intros Hfc Hl. unfold frame_calls. cbn [feed].
  rewrite handler_frame_tileid, (update_frame_in_range _ _ fr) by (first [lia|exact Hl]).
  cbn [bind]. rewrite handler_frame_duration.
  rewrite (update_frame_in_range _ _ {| index := atoi (fst f); delay := delay fr |}).
  2:{ destruct loader; cbn in *; lia. }
  2:{ destruct loader; cbn in *. apply list_lookup_insert_eq.
      eapply lookup_lt_Some; exact Hl. }
  cbn [bind]. rewrite handler_finish_frame. cbn [bind].
  destruct loader; cbn in *. rewrite list_insert_insert_eq.
  rewrite add_small by (unfold INT_MIN, INT_MAX in *; lia). reflexivity.
Qed.

Lemma frames_fed fs : forall loader,
  0 <= frame_count loader ->
  frame_count loader + Z.of_nat (length fs)
    <= Z.of_nat (length (frames loader)) ->
  Z.of_nat (length (frames loader)) <= INT_MAX ->
  feed loader (flat_map frame_calls fs) =
  Done (set_frame_count (frame_count loader + Z.of_nat (length fs))
          (set_frames
             (take (Z.to_nat (frame_count loader)) (frames loader) ++
              map frame_of fs ++
              drop (Z.to_nat (frame_count loader) + length fs) (frames loader))
             loader)).
Proof.
  induction fs as [|f fs IH]; intros loader Hfc Hlen Hmax.
  - cbn [flat_map feed length map app]. rewrite Nat.add_0_r, take_drop.
    destruct loader; cbn. f_equal. f_equal. lia.
  - cbn [flat_map]. rewrite feed_app.
    cbn [length] in Hlen.
    destruct (lookup_lt_is_Some_2 (frames loader) (Z.to_nat (frame_count loader)))
      as [fr Hfr]; [lia|].
    rewrite (frame_fed _ _ fr) by (first [lia|exact Hfr]). cbn [bind].
    rewrite IH; destruct loader as [a b c d e0 f0 g i j k m]; cbn in *;
      rewrite ?length_insert; try lia.
    replace (Z.to_nat (m + 1)) with (S (Z.to_nat m)) by lia.
    rewrite (take_S_r _ _ (frame_of f))
      by (apply list_lookup_insert_eq; eapply lookup_lt_Some; exact Hfr).
    rewrite take_insert_ge by lia.
    rewrite drop_insert_lt by lia.
    rewrite <- app_assoc. cbn [app map].
    replace (S (Z.to_nat m) + length fs)%nat
      with (Z.to_nat m + S (length fs))%nat by lia.
    replace (m + 1 + Z.of_nat (length fs))
      with (m + Z.of_nat (S (length fs))) by lia.
    reflexivity.
Qed.

(** X25.  The calls for one <animation> of at most 100 frames leave one
    more sequence at the end of the pack: its target is the tile being
    read, its frames are the document's in order, each with its tile id
    and its duration converted by [* 60 / 1000]. *)
Theorem animation_becomes_a_sequence :
  forall loader fs,
    length (frames loader) = 100%nat -> (length fs <= 100)%nat ->
    feed loader (animation_calls fs) =
    Done (set_sp
            (Some (app match sp loader with Some p => p | None => [] end
                       [{| target := tile_id loader;
                           count := Z.of_nat (length fs);
                           seq_frames := map frame_of fs |}]))
            (set_frame_count (Z.of_nat (length fs))
               (set_frames (app (map frame_of fs)
                                (drop (length fs) (frames loader))) loader))).
Proof.
  intros loader fs Hlen Hfs. unfold animation_calls. cbn [feed].
  rewrite handler_sub_animation. cbn [bind]. rewrite feed_app.
  rewrite frames_fed;
    try (destruct loader; cbn in *; rewrite ?Hlen; unfold INT_MAX; lia).
  cbn [bind feed]. rewrite handler_finish_animation. cbn [bind].
  destruct loader as [a b c d e0 f0 g i j k m]; cbn in *.
  change (Z.to_nat 0) with 0%nat. rewrite take_0. cbn [app Nat.add].
  rewrite Z.add_0_l, Nat2Z.id.
  rewrite (take_app_length' (map frame_of fs)) by (rewrite length_map; reflexivity).
  reflexivity.
Qed.

(** X26.  [loader.frames] has room for 100 frames and the callback
    counts frames without a bound: the first attribute of frame 101 is
    stored past the array. *)
Theorem animation_beyond_the_frame_array :
  forall loader fs,
    length (frames loader) = 100%nat -> (100 < length fs)%nat ->
    feed loader (animation_calls fs) = Crash OutOfBounds.
Proof.
  intros loader fs Hlen Hfs. unfold animation_calls. cbn [feed].
  rewrite handler_sub_animation. cbn [bind]. rewrite feed_app.
  rewrite <- (take_drop 100 fs) at 1.
  destruct (drop 100 fs) as [|f rest] eqn:Hd.
  { apply (f_equal length) in Hd. rewrite length_drop in Hd. cbn in Hd. lia. }
  rewrite flat_map_app, feed_app.
  assert (Ht : length (take 100 fs) = 100%nat) by (rewrite length_take; lia).
  rewrite frames_fed;
    try (destruct loader; cbn in *; rewrite ?Hlen, ?Ht; unfold INT_MAX; lia).
  cbn [bind flat_map frame_calls app feed].
  rewrite handler_frame_tileid, update_frame_beyond; [reflexivity|].
  destruct loader as [a b c d e0 f0 g i j k m].
  cbn [frames frame_count set_frame_count set_frames] in *.
  change (Z.to_nat 0) with 0%nat. rewrite take_0. cbn [app Nat.add].
  rewrite length_app, length_map, length_drop, Ht, Hlen. lia.
Qed.

(** X24.  The value of a "type" or "priority" property is stored in
    [loader.attributes[loader.tile_id]] with no test: with no attribute
    array (no tilecount attribute seen) the store goes through NULL, and
    with a tile id outside the array it goes outside it. *)
Theorem property_value_outside_the_attributes :
  forall loader tag att v,
    strcasecmp tag "property" = 0 -> strcasecmp att "value" = 0 ->
    property loader <> PROPERTY_NONE ->
    (attributes loader = None ->
     handler loader ADD_ATTRIBUTE tag att v = Crash NullPointer) /\
    (forall attrs,
        attributes loader = Some attrs ->
        tile_id loader < 0 \/ Z.of_nat (length attrs) <= tile_id loader ->
        handler loader ADD_ATTRIBUTE tag att v = Crash OutOfBounds).
Proof.
  intros loader tag att v Hn Ha Hp.
  assert (Hh : handler loader ADD_ATTRIBUTE tag att v =
               update_attributes loader
                 (match property loader with
                  | PROPERTY_TYPE => set_type (atoi v mod 256)
                  | _ => set_priority true
                  end)).
  { unfold handler.
    pose proof (strcasecmp_eq _ _ Hn) as Hn'.
    pose proof (strcasecmp_eq _ _ Ha) as Ha'.
    apply strcasecmp_head in Hn as (d & a' & -> & Hd); [|vm_compute; discriminate].
    rewrite !strcasecmp_other_head by (rewrite Hd; vm_compute; discriminate).
    rewrite Hn'.
    apply strcasecmp_head in Ha as (d' & v' & -> & Hd'); [|vm_compute; discriminate].
    rewrite strcasecmp_other_head by (rewrite Hd'; vm_compute; discriminate).
    rewrite Ha'.
    destruct (property loader); [congruence|reflexivity|].
    destruct (strcasecmp v "true" =? 0); reflexivity. }
  rewrite Hh. unfold update_attributes. split.
  - intros ->. reflexivity.
  - intros attrs -> Hout. cbn [deref bind]. unfold load.
    destruct (Z.ltb_spec (tile_id loader) 0); [reflexivity|].
    destruct (Z.leb_spec (Z.of_nat (length attrs)) (tile_id loader));
      [reflexivity|lia].
Qed.

Lemma handler_property_name_type loader szName szAttribute szValue :
  strcasecmp szName "property" = 0 -> strcasecmp szAttribute "name" = 0 ->
  strcasecmp szValue "type" = 0 ->
  handler loader ADD_ATTRIBUTE szName szAttribute szValue
    = Done (set_property PROPERTY_TYPE loader).
Proof.
  intros Hn Ha Hv. unfold handler.
  pose proof (strcasecmp_eq _ _ Hn) as Hn'.
  pose proof (strcasecmp_eq _ _ Ha) as Ha'.
  pose proof (strcasecmp_eq _ _ Hv) as Hv'.
  apply strcasecmp_head in Hn as (d & a' & -> & Hd); [|vm_compute; discriminate].
  rewrite !strcasecmp_other_head by (rewrite Hd; vm_compute; discriminate).
  rewrite Hn', Ha', Hv'. reflexivity.
Qed.

Lemma handler_property_name_other loader szName szAttribute szValue :
  strcasecmp szName "property" = 0 -> strcasecmp szAttribute "name" = 0 ->
  strcasecmp szValue "type" <> 0 -> strcasecmp szValue "priority" <> 0 ->
  handler loader ADD_ATTRIBUTE szName szAttribute szValue
    = Done (set_property PROPERTY_NONE loader).
Proof.
  intros Hn Ha Hv1 Hv2. unfold handler.
  pose proof (strcasecmp_eq _ _ Hn) as Hn'.
  pose proof (strcasecmp_eq _ _ Ha) as Ha'.
  apply Z.eqb_neq in Hv1, Hv2.
  apply strcasecmp_head in Hn as (d & a' & -> & Hd); [|vm_compute; discriminate].
  rewrite !strcasecmp_other_head by (rewrite Hd; vm_compute; discriminate).
  rewrite Hn', Ha', Hv1, Hv2. reflexivity.
Qed.

Lemma handler_property_value_at loader szName szAttribute szValue :
  strcasecmp szName "property" = 0 -> strcasecmp szAttribute "value" = 0 ->
  handler loader ADD_ATTRIBUTE szName szAttribute szValue =
  match property loader with
  | PROPERTY_TYPE => update_attributes loader (set_type (atoi szValue mod 256))
  | PROPERTY_PRIORITY => update_attributes loader (set_priority true)
  | PROPERTY_NONE => Done loader
  end.
Proof.
  intros Hn Ha. unfold handler.
  pose proof (strcasecmp_eq _ _ Hn) as Hn'.
  pose proof (strcasecmp_eq _ _ Ha) as Ha'.
  apply strcasecmp_head in Hn as (d & a' & -> & Hd); [|vm_compute; discriminate].
  rewrite !strcasecmp_other_head by (rewrite Hd; vm_compute; discriminate).
  rewrite Hn'.
  apply strcasecmp_head in Ha as (d' & v' & -> & Hd'); [|vm_compute; discriminate].
  rewrite strcasecmp_other_head by (rewrite Hd'; vm_compute; discriminate).
  rewrite Ha'.
  destruct (property loader); try reflexivity.
  destruct (strcasecmp szValue "true" =? 0); reflexivity.
Qed.

(** X22.  A <property> named "type" stores its value, as a byte, in the
    type of the tile being read; the other tiles and the tile's priority
    stay as they were.  Tag and attribute names compare without case. *)
Theorem type_property_is_stored_for_the_current_tile :
  forall loader tag1 att1 val1 tag2 att2 val2 attrs a,
    strcasecmp tag1 "property" = 0 -> strcasecmp att1 "name" = 0 ->
    strcasecmp val1 "type" = 0 ->
    strcasecmp tag2 "property" = 0 -> strcasecmp att2 "value" = 0 ->
    attributes loader = Some attrs -> 0 <= tile_id loader ->
    attrs !! Z.to_nat (tile_id loader) = Some a ->
    exists loader',
      feed loader [(ADD_ATTRIBUTE, tag1, att1, val1);
                   (ADD_ATTRIBUTE, tag2, att2, val2)] = Done loader' /\
      attributes loader' =
        Some (<[Z.to_nat (tile_id loader) :=
                  {| type := atoi val2 mod 256;
                     priority := priority a |}]> attrs) /\
      property loader' = PROPERTY_TYPE /\
      same_but_properties loader loader'.
Proof.
  intros loader tag1 att1 val1 tag2 att2 val2 attrs a
         H1 H2 H3 H4 H5 Hat Hlo Hl.
  eexists. split.
  - cbn [feed]. rewrite (handler_property_name_type _ _ _ _ H1 H2 H3).
    cbn [bind].
    rewrite (handler_property_value_at _ _ _ val2 H4 H5).
    replace (property (set_property PROPERTY_TYPE loader)) with PROPERTY_TYPE
      by (destruct loader; reflexivity).
    rewrite (update_attributes_in_range _ _ attrs a);
      destruct loader; first [reflexivity|assumption].
  - destruct loader; cbn. repeat split.
Qed.

(** X23.  A <property> of any name but "type" and "priority" selects
    nothing: its value is read and dropped, with or without an attribute
    array. *)
Theorem unknown_property_is_ignored :
  forall loader tag1 att1 val1 tag2 att2 val2,
    strcasecmp tag1 "property" = 0 -> strcasecmp att1 "name" = 0 ->
    strcasecmp val1 "type" <> 0 -> strcasecmp val1 "priority" <> 0 ->
    strcasecmp tag2 "property" = 0 -> strcasecmp att2 "value" = 0 ->
    feed loader [(ADD_ATTRIBUTE, tag1, att1, val1);
                 (ADD_ATTRIBUTE, tag2, att2, val2)]
      = Done (set_property PROPERTY_NONE loader).
Proof.
  intros loader tag1 att1 val1 tag2 att2 val2 H1 H2 H3 H3' H4 H5.
  cbn [feed]. rewrite (handler_property_name_other _ _ _ _ H1 H2 H3 H3').
  cbn [bind]. rewrite (handler_property_value_at _ _ _ val2 H4 H5).
  destruct loader; reflexivity.
Qed.

(** *** On concrete documents *)

Lemma type_12_is_stored_for_tile_2 :
  exists loader',
    feed some_loader [(ADD_ATTRIBUTE, "property", "name", "type");
                      (ADD_ATTRIBUTE, "property", "value", "12")]
      = Done loader' /\
    attributes loader' =
      Some [ {| type := 0; priority := false |};
             {| type := 0; priority := false |};
             {| type := 12; priority := false |};
             {| type := 0; priority := false |} ] /\
    property loader' = PROPERTY_TYPE /\
    same_but_properties some_loader loader'.
Proof.
  apply (type_property_is_stored_for_the_current_tile some_loader
           "property" "name" "type" "property" "value" "12"
           (repeat {| type := 0; priority := false |} 4)
           {| type := 0; priority := false |});
    try reflexivity. simpl; lia.
Defined.

Lemma property_colour_is_ignored :
  feed some_loader [(ADD_ATTRIBUTE, "property", "name", "colour");
                    (ADD_ATTRIBUTE, "property", "value", "12")]
  = Done (set_property PROPERTY_NONE some_loader).
Proof.
  apply (unknown_property_is_ignored some_loader
           "property" "name" "colour" "property" "value" "12");
    try reflexivity; vm_compute; discriminate.
Defined.

Lemma property_value_before_tilecount :
  (attributes (set_property PROPERTY_TYPE zeroed) = None ->
   handler (set_property PROPERTY_TYPE zeroed) ADD_ATTRIBUTE
           "property" "value" "12" = Crash NullPointer) /\
  (forall attrs,
      attributes (set_property PROPERTY_TYPE zeroed) = Some attrs ->
      tile_id (set_property PROPERTY_TYPE zeroed) < 0 \/
      Z.of_nat (length attrs) <= tile_id (set_property PROPERTY_TYPE zeroed) ->
      handler (set_property PROPERTY_TYPE zeroed) ADD_ATTRIBUTE
              "property" "value" "12" = Crash OutOfBounds).
Proof.
  apply (property_value_outside_the_attributes
           (set_property PROPERTY_TYPE zeroed) "property" "value" "12").
  - reflexivity.
  - reflexivity.
  - discriminate.
Defined.

Lemma animation_of_two_frames :
  feed zeroed (animation_calls [("5", "100"); ("6", "200")]) =
  Done (set_sp
          (Some (app match sp zeroed with Some p => p | None => [] end
                     [{| target := tile_id zeroed;
                         count := Z.of_nat (length [("5", "100"); ("6", "200")]);
                         seq_frames :=
                           map frame_of [("5", "100"); ("6", "200")] |}]))
          (set_frame_count (Z.of_nat (length [("5", "100"); ("6", "200")]))
             (set_frames
                (app (map frame_of [("5", "100"); ("6", "200")])
                     (drop (length [("5", "100"); ("6", "200")])
                           (frames zeroed)))
                zeroed))).
Proof.
  apply (animation_becomes_a_sequence zeroed [("5", "100"); ("6", "200")]).
  - reflexivity.
  - simpl; lia.
Defined.

Lemma animation_of_101_frames :
  feed zeroed (animation_calls (repeat ("5", "100") 101)) = Crash OutOfBounds.
Proof.
  apply (animation_beyond_the_frame_array zeroed (repeat ("5", "100") 101)).
  - reflexivity.
  - rewrite repeat_length. lia.
Defined.

Lemma LoadTileset_with_no_memory_for_the_parser :
  @TLN_LoadTileset (disk tiles_8x8 false 16 16) "tiles.tsx" TLN_ERR_OK
  = Done (None, TLN_ERR_WRONG_FORMAT).
Proof.
  apply (@LoadTileset_without_a_parser (disk tiles_8x8 false 16 16)
           "tiles.tsx" TLN_ERR_OK [60] 1); reflexivity.
Defined.

Lemma LoadTileset_of_a_document_with_no_image :
  @TLN_LoadTileset (disk no_image true 16 16) "tiles.tsx" TLN_ERR_OK
  = Done (None, TLN_ERR_WRONG_FORMAT).
Proof.
  apply (@LoadTileset_without_an_image_source (disk no_image true 16 16)
           "tiles.tsx" TLN_ERR_OK [60] 1 tt (loader_after no_image));
    reflexivity.
Defined.

Lemma LoadTileset_of_a_document_with_no_tile_size :
  @TLN_LoadTileset (disk no_tile_size true 16 16) "tiles.tsx" TLN_ERR_OK
  = Crash DivisionByZero.
Proof.
  apply (@LoadTileset_zero_tile_step (disk no_tile_size true 16 16)
           "tiles.tsx" TLN_ERR_OK [60] 1 tt (loader_after no_tile_size)
           "a" ".png" (16, 16) TLN_ERR_OK);
    reflexivity.
Defined.

Lemma LoadTileset_of_four_tiles :
  @TLN_LoadTileset (disk tiles_8x8 true 16 16) "tiles.tsx" TLN_ERR_OK =
  Done (Some (fold_left
                (@load_tile (disk tiles_8x8 true 16 16)
                   (loader_after tiles_8x8) (16, 16) 8 8 16)
                (placements 2 2) []),
        TLN_ERR_OK) /\
  fold_left (@load_tile (disk tiles_8x8 true 16 16)
               (loader_after tiles_8x8) (16, 16) 8 8 16)
            (placements 2 2) []
  = [(1, (0, 0)); (2, (8, 0)); (3, (0, 8)); (4, (8, 8))].
Proof.
  split; [|reflexivity].
  apply (@LoadTileset_numbers_the_tiles_row_by_row
           (disk tiles_8x8 true 16 16) "tiles.tsx" TLN_ERR_OK [60] 1 tt
           (loader_after tiles_8x8) "a" ".png" (16, 16)
           TLN_ERR_OK 16 TLN_ERR_OK 16 TLN_ERR_OK (Some tt) TLN_ERR_OK
           (Some tt) TLN_ERR_OK [] TLN_ERR_OK 2 2);
    try reflexivity; try lia; unfold INT_MAX; lia.
Defined.
End LoadTilesetProofs.
